(** * Dozey AI: recording store, note-generation workflow, capture and clients

    A shallow embedding of the decision logic of the application:

    - [src/services/apiKeyManager.ts]  credential format checks;
    - [src/services/storage.ts]        the Dexie-backed recordings table;
    - [src/services/whisperApi.ts]     the transcription client;
    - [src/services/claudeApi.ts]      the notes client;
    - [src/components/RecordingItem.tsx] the note-generation workflow;
    - [src/services/audioRecorder.ts]  the capture service.

    Asynchronous code is written in a state-and-exception monad over an
    explicit world (database, component state, trace of external calls);
    the two remote providers are oracles. *)

From Stdlib Require Import ZArith QArith Qround Ascii String List Sorting.Sorted Permutation.
From stdpp Require Import base option list sorting gmap strings pretty.

Local Open Scope Z_scope.

(** ** JavaScript strings

    A JS string is modelled by the sequence of its code units, restricted
    to the range 0..255 (Latin-1 text). *)

Module JsString.

Definition code (c : ascii) : N := N_of_ascii c.

(** WhiteSpace and LineTerminator code units below 256: tab, line feed,
    vertical tab, form feed, carriage return, space, no-break space.
    This is both the regular expression class [\s] and what [trim]
    strips. *)
Definition isSpace (c : ascii) : bool :=
  let n := code c in
  ((9 <=? n) && (n <=? 13) || (n =? 32) || (n =? 160))%N.

(** The regular expression class [\w]: [A-Za-z0-9_]. *)
Definition isWord (c : ascii) : bool :=
  let n := code c in
  ((48 <=? n) && (n <=? 57) || (65 <=? n) && (n <=? 90)
   || (n =? 95) || (97 <=? n) && (n <=? 122))%N.

(** [toLowerCase] on one code unit: A-Z and the Latin-1 capitals
    (U+00C0..U+00DE except the multiplication sign U+00D7). *)
Definition lowerUnit (c : ascii) : ascii :=
  let n := code c in
  if ((65 <=? n) && (n <=? 90)
      || (192 <=? n) && (n <=? 222) && negb (n =? 215))%N
  then ascii_of_N (n + 32) else c.

Fixpoint toLowerCase (s : string) : string :=
  match s with
  | EmptyString => EmptyString
  | String c s' => String (lowerUnit c) (toLowerCase s')
  end.

Definition isEmpty (s : string) : bool :=
  match s with EmptyString => true | String _ _ => false end.

(** A string is truthy when it is not empty. *)
Definition truthy (s : string) : bool := negb (isEmpty s).

Fixpoint trimStart (s : string) : string :=
  match s with
  | EmptyString => EmptyString
  | String c s' => if isSpace c then trimStart s' else s
  end.

Fixpoint trimEnd (s : string) : string :=
  match s with
  | EmptyString => EmptyString
  | String c s' =>
      let t := trimEnd s' in
      if isSpace c && isEmpty t then EmptyString else String c t
  end.

Definition trim (s : string) : string := trimEnd (trimStart s).

(** [s.startsWith(p)] *)
Fixpoint startsWith (s p : string) {struct p} : bool :=
  match p, s with
  | EmptyString, _ => true
  | String _ _, EmptyString => false
  | String a p', String b s' => if Ascii.eqb a b then startsWith s' p' else false
  end.

(** [s.includes(q)] *)
Fixpoint includes (s q : string) : bool :=
  startsWith s q ||
  match s with
  | EmptyString => false
  | String _ s' => includes s' q
  end.

(** [s.replace(/[^\w\s]/g, ' ')] *)
Fixpoint replaceSpecial (s : string) : string :=
  match s with
  | EmptyString => EmptyString
  | String c s' =>
      String (if isWord c || isSpace c then c else " "%char) (replaceSpecial s')
  end.

(** [s.replace(/\s+/g, ' ')]: every maximal run of white space becomes one
    space.  [inRun] records that the previous unit was white space. *)
Fixpoint collapseFrom (inRun : bool) (s : string) : string :=
  match s with
  | EmptyString => EmptyString
  | String c s' =>
      if isSpace c
      then (if inRun then collapseFrom true s'
            else String " "%char (collapseFrom true s'))
      else String c (collapseFrom false s')
  end.

Definition collapseSpaces (s : string) : string := collapseFrom false s.

(** [parts.join(sep)] *)
Fixpoint join (sep : string) (parts : list string) : string :=
  match parts with
  | [] => EmptyString
  | [p] => p
  | p :: rest => p +:+ sep +:+ join sep rest
  end.

(** [x || ''] for an optional string. *)
Definition orEmpty (x : option string) : string := default EmptyString x.

(** Truthiness of an optional string ([undefined], [null] and [''] are
    falsy). *)
Definition truthyOpt (x : option string) : bool :=
  match x with Some s => truthy s | None => false end.

(** Strings made of white space only. *)
Fixpoint allSpace (s : string) : bool :=
  match s with
  | EmptyString => true
  | String c s' => isSpace c && allSpace s'
  end.

End JsString.

(** ** [apiKeyManager.ts]: credential format checks *)

Definition validateOpenAIKey (key : string) : bool :=
  JsString.startsWith (JsString.trim key) "sk-".

Definition validateAnthropicKey (key : string) : bool :=
  JsString.startsWith (JsString.trim key) "sk-ant-".

(** ** [types/index.ts]: the data model *)

Inductive RecordingStatus : Type :=
  | Recorded
  | Transcribing
  | Transcribed
  | GeneratingNotes
  | Complete
  | StatusError.

Inductive Priority : Type := Low | Medium | High.

#[global] Instance RecordingStatus_eq_dec : EqDecision RecordingStatus.
Proof. solve_decision. Defined.

#[global] Instance Priority_eq_dec : EqDecision Priority.
Proof. solve_decision. Defined.

(** A [Blob]: its byte length and its MIME type; the bytes themselves play
    no part in any decision. *)
Module Blob.
Record t := mk { size : N; type : string }.
End Blob.

(** A Whisper segment; times are in seconds. *)
Record TranscriptSegment := {
  text : string;
  start : Q;
  end_ : Q
}.

(** Dates are milliseconds since the epoch ([Date.getTime()]); durations are
    whole seconds. *)
Module Recording.

Record t := mk {
  id : option N;
  filename : string;
  customName : option string;
  date : Z;
  duration : Z;
  audioBlob : Blob.t;
  transcript : option string;
  notes : option string;
  status : RecordingStatus;
  errorMessage : option string;
  mimeType : string;
  tags : option (list string);
  category : option string;
  subject : option string;
  searchText : option string;
  priority : option Priority;
  isStudied : option bool;
  lastModified : option Z;
  exportedAt : option Z;
  transcriptSegments : option (list TranscriptSegment)
}.

(** One setter per property other than [id]. *)
Definition setFilename (v : string) (r : t) : t :=
  mk (id r) v (customName r) (date r) (duration r) (audioBlob r)
     (transcript r) (notes r) (status r) (errorMessage r) (mimeType r)
     (tags r) (category r) (subject r) (searchText r) (priority r)
     (isStudied r) (lastModified r) (exportedAt r) (transcriptSegments r).
Definition setCustomName (v : option string) (r : t) : t :=
  mk (id r) (filename r) v (date r) (duration r) (audioBlob r) (transcript
     r) (notes r) (status r) (errorMessage r) (mimeType r) (tags r)
     (category r) (subject r) (searchText r) (priority r) (isStudied r)
     (lastModified r) (exportedAt r) (transcriptSegments r).
Definition setDate (v : Z) (r : t) : t :=
  mk (id r) (filename r) (customName r) v (duration r) (audioBlob r)
     (transcript r) (notes r) (status r) (errorMessage r) (mimeType r)
     (tags r) (category r) (subject r) (searchText r) (priority r)
     (isStudied r) (lastModified r) (exportedAt r) (transcriptSegments r).
Definition setDuration (v : Z) (r : t) : t :=
  mk (id r) (filename r) (customName r) (date r) v (audioBlob r)
     (transcript r) (notes r) (status r) (errorMessage r) (mimeType r)
     (tags r) (category r) (subject r) (searchText r) (priority r)
     (isStudied r) (lastModified r) (exportedAt r) (transcriptSegments r).
Definition setAudioBlob (v : Blob.t) (r : t) : t :=
  mk (id r) (filename r) (customName r) (date r) (duration r) v
     (transcript r) (notes r) (status r) (errorMessage r) (mimeType r)
     (tags r) (category r) (subject r) (searchText r) (priority r)
     (isStudied r) (lastModified r) (exportedAt r) (transcriptSegments r).
Definition setTranscript (v : option string) (r : t) : t :=
  mk (id r) (filename r) (customName r) (date r) (duration r) (audioBlob
     r) v (notes r) (status r) (errorMessage r) (mimeType r) (tags r)
     (category r) (subject r) (searchText r) (priority r) (isStudied r)
     (lastModified r) (exportedAt r) (transcriptSegments r).
Definition setNotes (v : option string) (r : t) : t :=
  mk (id r) (filename r) (customName r) (date r) (duration r) (audioBlob
     r) (transcript r) v (status r) (errorMessage r) (mimeType r) (tags r)
     (category r) (subject r) (searchText r) (priority r) (isStudied r)
     (lastModified r) (exportedAt r) (transcriptSegments r).
Definition setStatus (v : RecordingStatus) (r : t) : t :=
  mk (id r) (filename r) (customName r) (date r) (duration r) (audioBlob
     r) (transcript r) (notes r) v (errorMessage r) (mimeType r) (tags r)
     (category r) (subject r) (searchText r) (priority r) (isStudied r)
     (lastModified r) (exportedAt r) (transcriptSegments r).
Definition setErrorMessage (v : option string) (r : t) : t :=
  mk (id r) (filename r) (customName r) (date r) (duration r) (audioBlob
     r) (transcript r) (notes r) (status r) v (mimeType r) (tags r)
     (category r) (subject r) (searchText r) (priority r) (isStudied r)
     (lastModified r) (exportedAt r) (transcriptSegments r).
Definition setMimeType (v : string) (r : t) : t :=
  mk (id r) (filename r) (customName r) (date r) (duration r) (audioBlob
     r) (transcript r) (notes r) (status r) (errorMessage r) v (tags r)
     (category r) (subject r) (searchText r) (priority r) (isStudied r)
     (lastModified r) (exportedAt r) (transcriptSegments r).
Definition setTags (v : option (list string)) (r : t) : t :=
  mk (id r) (filename r) (customName r) (date r) (duration r) (audioBlob
     r) (transcript r) (notes r) (status r) (errorMessage r) (mimeType r)
     v (category r) (subject r) (searchText r) (priority r) (isStudied r)
     (lastModified r) (exportedAt r) (transcriptSegments r).
Definition setCategory (v : option string) (r : t) : t :=
  mk (id r) (filename r) (customName r) (date r) (duration r) (audioBlob
     r) (transcript r) (notes r) (status r) (errorMessage r) (mimeType r)
     (tags r) v (subject r) (searchText r) (priority r) (isStudied r)
     (lastModified r) (exportedAt r) (transcriptSegments r).
Definition setSubject (v : option string) (r : t) : t :=
  mk (id r) (filename r) (customName r) (date r) (duration r) (audioBlob
     r) (transcript r) (notes r) (status r) (errorMessage r) (mimeType r)
     (tags r) (category r) v (searchText r) (priority r) (isStudied r)
     (lastModified r) (exportedAt r) (transcriptSegments r).
Definition setSearchText (v : option string) (r : t) : t :=
  mk (id r) (filename r) (customName r) (date r) (duration r) (audioBlob
     r) (transcript r) (notes r) (status r) (errorMessage r) (mimeType r)
     (tags r) (category r) (subject r) v (priority r) (isStudied r)
     (lastModified r) (exportedAt r) (transcriptSegments r).
Definition setPriority (v : option Priority) (r : t) : t :=
  mk (id r) (filename r) (customName r) (date r) (duration r) (audioBlob
     r) (transcript r) (notes r) (status r) (errorMessage r) (mimeType r)
     (tags r) (category r) (subject r) (searchText r) v (isStudied r)
     (lastModified r) (exportedAt r) (transcriptSegments r).
Definition setIsStudied (v : option bool) (r : t) : t :=
  mk (id r) (filename r) (customName r) (date r) (duration r) (audioBlob
     r) (transcript r) (notes r) (status r) (errorMessage r) (mimeType r)
     (tags r) (category r) (subject r) (searchText r) (priority r) v
     (lastModified r) (exportedAt r) (transcriptSegments r).
Definition setLastModified (v : option Z) (r : t) : t :=
  mk (id r) (filename r) (customName r) (date r) (duration r) (audioBlob
     r) (transcript r) (notes r) (status r) (errorMessage r) (mimeType r)
     (tags r) (category r) (subject r) (searchText r) (priority r)
     (isStudied r) v (exportedAt r) (transcriptSegments r).
Definition setExportedAt (v : option Z) (r : t) : t :=
  mk (id r) (filename r) (customName r) (date r) (duration r) (audioBlob
     r) (transcript r) (notes r) (status r) (errorMessage r) (mimeType r)
     (tags r) (category r) (subject r) (searchText r) (priority r)
     (isStudied r) (lastModified r) v (transcriptSegments r).
Definition setTranscriptSegments (v : option (list TranscriptSegment)) (r : t) : t :=
  mk (id r) (filename r) (customName r) (date r) (duration r) (audioBlob
     r) (transcript r) (notes r) (status r) (errorMessage r) (mimeType r)
     (tags r) (category r) (subject r) (searchText r) (priority r)
     (isStudied r) (lastModified r) (exportedAt r) v.

End Recording.

(** A [Partial<Omit<Recording, 'id'>>] object is the list of its own
    properties in insertion order.  An optional property may be present with
    the value [undefined] ([None]); a property listed twice keeps the last
    value, as in an object literal. *)
Inductive Change : Type :=
  | SetFilename (v : string)
  | SetCustomName (v : option string)
  | SetDate (v : Z)
  | SetDuration (v : Z)
  | SetAudioBlob (v : Blob.t)
  | SetTranscript (v : option string)
  | SetNotes (v : option string)
  | SetStatus (v : RecordingStatus)
  | SetErrorMessage (v : option string)
  | SetMimeType (v : string)
  | SetTags (v : option (list string))
  | SetCategory (v : option string)
  | SetSubject (v : option string)
  | SetSearchText (v : option string)
  | SetPriority (v : option Priority)
  | SetIsStudied (v : option bool)
  | SetLastModified (v : option Z)
  | SetExportedAt (v : option Z)
  | SetTranscriptSegments (v : option (list TranscriptSegment)).

(** The property names of a recording other than [id]. *)
Inductive Field : Type :=
  | FFilename
  | FCustomName
  | FDate
  | FDuration
  | FAudioBlob
  | FTranscript
  | FNotes
  | FStatus
  | FErrorMessage
  | FMimeType
  | FTags
  | FCategory
  | FSubject
  | FSearchText
  | FPriority
  | FIsStudied
  | FLastModified
  | FExportedAt
  | FTranscriptSegments.

Definition fieldOf (c : Change) : Field :=
  match c with
  | SetFilename _ => FFilename
  | SetCustomName _ => FCustomName
  | SetDate _ => FDate
  | SetDuration _ => FDuration
  | SetAudioBlob _ => FAudioBlob
  | SetTranscript _ => FTranscript
  | SetNotes _ => FNotes
  | SetStatus _ => FStatus
  | SetErrorMessage _ => FErrorMessage
  | SetMimeType _ => FMimeType
  | SetTags _ => FTags
  | SetCategory _ => FCategory
  | SetSubject _ => FSubject
  | SetSearchText _ => FSearchText
  | SetPriority _ => FPriority
  | SetIsStudied _ => FIsStudied
  | SetLastModified _ => FLastModified
  | SetExportedAt _ => FExportedAt
  | SetTranscriptSegments _ => FTranscriptSegments
  end.

(** [setByKeyPath(item, keyPath, val)]; assigning [undefined] deletes the
    property. *)
Definition applyChange (c : Change) (item : Recording.t) : Recording.t :=
  match c with
  | SetFilename v => Recording.setFilename v item
  | SetCustomName v => Recording.setCustomName v item
  | SetDate v => Recording.setDate v item
  | SetDuration v => Recording.setDuration v item
  | SetAudioBlob v => Recording.setAudioBlob v item
  | SetTranscript v => Recording.setTranscript v item
  | SetNotes v => Recording.setNotes v item
  | SetStatus v => Recording.setStatus v item
  | SetErrorMessage v => Recording.setErrorMessage v item
  | SetMimeType v => Recording.setMimeType v item
  | SetTags v => Recording.setTags v item
  | SetCategory v => Recording.setCategory v item
  | SetSubject v => Recording.setSubject v item
  | SetSearchText v => Recording.setSearchText v item
  | SetPriority v => Recording.setPriority v item
  | SetIsStudied v => Recording.setIsStudied v item
  | SetLastModified v => Recording.setLastModified v item
  | SetExportedAt v => Recording.setExportedAt v item
  | SetTranscriptSegments v => Recording.setTranscriptSegments v item
  end.

(** [getByKeyPath(item, keyPath) !== val].  Strings, numbers, booleans and
    [undefined] are compared by value; a [Date], [Blob] or array handed in by
    the caller is never identical to the stored clone, [undefined] apart. *)
Definition differs (c : Change) (item : Recording.t) : bool :=
  match c with
  | SetFilename v => negb (bool_decide (Recording.filename item = v))
  | SetCustomName v => negb (bool_decide (Recording.customName item = v))
  | SetDate _ => true
  | SetDuration v => negb (bool_decide (Recording.duration item = v))
  | SetAudioBlob _ => true
  | SetTranscript v => negb (bool_decide (Recording.transcript item = v))
  | SetNotes v => negb (bool_decide (Recording.notes item = v))
  | SetStatus v => negb (bool_decide (Recording.status item = v))
  | SetErrorMessage v => negb (bool_decide (Recording.errorMessage item = v))
  | SetMimeType v => negb (bool_decide (Recording.mimeType item = v))
  | SetTags v =>
      match Recording.tags item, v with None, None => false | _, _ => true end
  | SetCategory v => negb (bool_decide (Recording.category item = v))
  | SetSubject v => negb (bool_decide (Recording.subject item = v))
  | SetSearchText v => negb (bool_decide (Recording.searchText item = v))
  | SetPriority v => negb (bool_decide (Recording.priority item = v))
  | SetIsStudied v => negb (bool_decide (Recording.isStudied item = v))
  | SetLastModified v =>
      match Recording.lastModified item, v with None, None => false | _, _ => true end
  | SetExportedAt v =>
      match Recording.exportedAt item, v with None, None => false | _, _ => true end
  | SetTranscriptSegments v =>
      match Recording.transcriptSegments item, v with None, None => false | _, _ => true end
  end.

(** Two recordings agree on a property. *)
Definition sameOn (f : Field) (r r' : Recording.t) : Prop :=
  match f with
  | FFilename => Recording.filename r' = Recording.filename r
  | FCustomName => Recording.customName r' = Recording.customName r
  | FDate => Recording.date r' = Recording.date r
  | FDuration => Recording.duration r' = Recording.duration r
  | FAudioBlob => Recording.audioBlob r' = Recording.audioBlob r
  | FTranscript => Recording.transcript r' = Recording.transcript r
  | FNotes => Recording.notes r' = Recording.notes r
  | FStatus => Recording.status r' = Recording.status r
  | FErrorMessage => Recording.errorMessage r' = Recording.errorMessage r
  | FMimeType => Recording.mimeType r' = Recording.mimeType r
  | FTags => Recording.tags r' = Recording.tags r
  | FCategory => Recording.category r' = Recording.category r
  | FSubject => Recording.subject r' = Recording.subject r
  | FSearchText => Recording.searchText r' = Recording.searchText r
  | FPriority => Recording.priority r' = Recording.priority r
  | FIsStudied => Recording.isStudied r' = Recording.isStudied r
  | FLastModified => Recording.lastModified r' = Recording.lastModified r
  | FExportedAt => Recording.exportedAt r' = Recording.exportedAt r
  | FTranscriptSegments => Recording.transcriptSegments r' = Recording.transcriptSegments r
  end.

(** A recording carries the value a change assigns. *)
Definition carries (c : Change) (r : Recording.t) : Prop :=
  match c with
  | SetFilename v => Recording.filename r = v
  | SetCustomName v => Recording.customName r = v
  | SetDate v => Recording.date r = v
  | SetDuration v => Recording.duration r = v
  | SetAudioBlob v => Recording.audioBlob r = v
  | SetTranscript v => Recording.transcript r = v
  | SetNotes v => Recording.notes r = v
  | SetStatus v => Recording.status r = v
  | SetErrorMessage v => Recording.errorMessage r = v
  | SetMimeType v => Recording.mimeType r = v
  | SetTags v => Recording.tags r = v
  | SetCategory v => Recording.category r = v
  | SetSubject v => Recording.subject r = v
  | SetSearchText v => Recording.searchText r = v
  | SetPriority v => Recording.priority r = v
  | SetIsStudied v => Recording.isStudied r = v
  | SetLastModified v => Recording.lastModified r = v
  | SetExportedAt v => Recording.exportedAt r = v
  | SetTranscriptSegments v => Recording.transcriptSegments r = v
  end.

(** [FilterOptions]: every criterion is optional. *)
Module FilterOptions.
Record t := mk {
  searchQuery : option string;
  tags : option (list string);
  category : option string;
  status : option RecordingStatus;
  isStudied : option bool;
  priority : option Priority;
  dateFrom : option Z;
  dateTo : option Z
}.

(** The object literal [{}]. *)
Definition none : t := mk None None None None None None None None.
End FilterOptions.

(** ** Thrown values and completions *)

Inductive Thrown : Type :=
  | Error (message : string)                     (* [new Error(message)] *)
  | TypeError (message : string)
  | APIError (status : option N) (message : string)  (* the SDKs' [APIError] *)
  | DexieError (message : string)
  | DOMException (name : string) (message : string)
  | NotAnError.                                  (* a thrown non-[Error] value *)

Definition instanceofError (e : Thrown) : bool :=
  match e with NotAnError => false | _ => true end.

Definition message (e : Thrown) : string :=
  match e with
  | Error m | TypeError m | APIError _ m | DexieError m | DOMException _ m => m
  | NotAnError => EmptyString
  end.

(** How a call ends: with a value, or by throwing (a rejected promise). *)
Inductive Completion (A : Type) : Type :=
  | Normal (v : A)
  | Throw (e : Thrown).
Arguments Normal {A} v.
Arguments Throw {A} e.

(** ** Stable sorting, as [Array.prototype.sort] and index order *)

Section Sorting.
Context {A : Type} (le : A → A → bool).

Fixpoint insertSorted (x : A) (l : list A) : list A :=
  match l with
  | [] => [x]
  | y :: l' => if le x y then x :: l else y :: insertSorted x l'
  end.

Definition sortBy (l : list A) : list A := foldr insertSorted [] l.
End Sorting.

(** ** The database

    The [recordings] table of [LectureRecordingsDB], keyed by the
    auto-incremented [id].  [failing] stands for a back end that rejects
    every request (closed, blocked or out of quota): it is what the
    [catch] clauses of [storage.ts] are there for. *)
Record Database := {
  recordings : gmap N Recording.t;
  failing : bool
}.

Module Dexie.

Definition rejection : Thrown := DexieError "DatabaseClosedError".

Definition keyLe (p q : N * Recording.t) : bool := (p.1 <=? q.1)%N.

(** Rows in primary-key order. *)
Definition rows (db : Database) : list Recording.t :=
  snd <$> sortBy keyLe (map_to_list (recordings db)).

(** [db.recordings.toArray()] *)
Definition toArray (db : Database) : Completion (list Recording.t) :=
  if failing db then Throw rejection else Normal (rows db).

(** Order of the [date] index: by date, then by primary key. *)
Definition dateIndexLe (p q : N * Recording.t) : bool :=
  (Recording.date p.2 <? Recording.date q.2)
  || (Recording.date p.2 =? Recording.date q.2) && (p.1 <=? q.1)%N.

(** [db.recordings.orderBy('date').reverse().toArray()] *)
Definition orderByDateReverse (db : Database) : Completion (list Recording.t) :=
  if failing db then Throw rejection
  else Normal (snd <$> reverse (sortBy dateIndexLe (map_to_list (recordings db)))).

(** [db.recordings.get(id)] *)
Definition get (key : N) (db : Database) : Completion (option Recording.t) :=
  if failing db then Throw rejection else Normal (recordings db !! key).

(** The modifier [Collection.modify] builds from a changes object: every
    property whose stored value differs is assigned; the result says
    whether anything was. *)
Definition modifier (changes : list Change) (item : Recording.t)
  : Recording.t * bool :=
  foldl (λ acc c,
           if differs c acc.1 then (applyChange c acc.1, true) else acc)
        (item, false) changes.

(** [db.recordings.update(key, changes)]: resolves to the number of
    records updated, 0 when the key is not found or nothing differs.  The
    count for a row that is found and already equal to the changes follows
    the library's documentation; a release that counts every key it matched
    resolves to 1 there, with the same table.  No caller in the application
    reads the count. *)
Definition update (key : N) (changes : list Change) (db : Database)
  : Completion N * Database :=
  if failing db then (Throw rejection, db)
  else match recordings db !! key with
       | None => (Normal 0%N, db)
       | Some item =>
           let '(item', anythingModified) := modifier changes item in
           if anythingModified
           then (Normal 1%N,
                 {| recordings := <[key := item']> (recordings db);
                    failing := failing db |})
           else (Normal 0%N, db)
       end.

(** [db.recordings.delete(key)] *)
Definition delete (key : N) (db : Database) : Completion unit * Database :=
  if failing db then (Throw rejection, db)
  else (Normal (),
        {| recordings := base.delete key (recordings db);
           failing := failing db |}).

End Dexie.

(** ** [storage.ts] *)

Definition generateSearchText (recording : Recording.t) : string :=
  let parts :=
    [ JsString.orEmpty (Some (Recording.filename recording));
      JsString.orEmpty (Recording.customName recording);
      JsString.orEmpty (Recording.transcript recording);
      JsString.orEmpty (Recording.notes recording);
      JsString.orEmpty (Recording.subject recording);
      JsString.orEmpty (Recording.category recording) ]
    ++ default [] (Recording.tags recording) in
  JsString.trim
    (JsString.collapseSpaces
       (JsString.replaceSpecial
          (JsString.toLowerCase (JsString.join " " parts)))).

Definition getAllRecordings (db : Database) : Completion (list Recording.t) :=
  match Dexie.orderByDateReverse db with
  | Normal recordings => Normal recordings
  | Throw _ => Throw (Error "Failed to fetch recordings from database")
  end.

Definition getRecording (id : N) (db : Database)
  : Completion (option Recording.t) :=
  match Dexie.get id db with
  | Normal recording => Normal recording
  | Throw _ => Throw (Error "Failed to fetch recording from database")
  end.

Definition updateRecording (id : N) (updates : list Change) (db : Database)
  : Completion N * Database :=
  match Dexie.update id updates db with
  | (Normal updated, db') => (Normal updated, db')
  | (Throw _, db') => (Throw (Error "Failed to update recording in database"), db')
  end.

Definition deleteRecording (id : N) (db : Database)
  : Completion unit * Database :=
  match Dexie.delete id db with
  | (Normal _, db') => (Normal (), db')
  | (Throw _, db') => (Throw (Error "Failed to delete recording from database"), db')
  end.

(** [recording.searchText || generateSearchText(recording)] *)
Definition searchTextOf (recording : Recording.t) : string :=
  match Recording.searchText recording with
  | Some s => if JsString.truthy s then s else generateSearchText recording
  | None => generateSearchText recording
  end.

(** The predicate both searches filter with, given the raw query. *)
Definition matchesQuery (query : string) (recording : Recording.t) : bool :=
  let normalizedQuery := JsString.trim (JsString.toLowerCase query) in
  JsString.includes (searchTextOf recording) normalizedQuery.

(** The promise of [getAllRecordings] is returned without being awaited, so
    its rejection passes the [catch] of [searchRecordings] untouched. *)
Definition searchRecordings (query : string) (db : Database)
  : Completion (list Recording.t) :=
  if negb (JsString.truthy (JsString.trim query)) then getAllRecordings db
  else
    match Dexie.toArray db with
    | Normal allRecordings => Normal (filter (λ r, matchesQuery query r) allRecordings)
    | Throw _ => Throw (Error "Failed to search recordings")
    end.

(** [rec.tags?.some((tag) => filters.tags!.includes(tag))] *)
Definition someTagIn (wanted : list string) (rec : Recording.t) : bool :=
  match Recording.tags rec with
  | None => false
  | Some ts => existsb (λ tag, bool_decide (tag ∈ wanted)) ts
  end.

(** Newest first: the comparator [(a, b) => b.date - a.date]. *)
Definition newestFirst (a b : Recording.t) : bool :=
  Recording.date b <=? Recording.date a.

(** The successive [filter] passes of [filterRecordings], one per
    criterion that is supplied. *)
Definition bySearchQuery (filters : FilterOptions.t) (l : list Recording.t) :=
  match FilterOptions.searchQuery filters with
  | Some q =>
      if JsString.truthy (JsString.trim q)
      then filter (λ rec, matchesQuery q rec) l else l
  | None => l
  end.

Definition byTags (filters : FilterOptions.t) (l : list Recording.t) :=
  match FilterOptions.tags filters with
  | Some (t :: ts) => filter (λ rec, someTagIn (t :: ts) rec) l
  | _ => l
  end.

Definition byCategory (filters : FilterOptions.t) (l : list Recording.t) :=
  match FilterOptions.category filters with
  | Some c =>
      if JsString.truthy c
      then filter (λ rec, bool_decide (Recording.category rec = Some c)) l else l
  | None => l
  end.

Definition byStatus (filters : FilterOptions.t) (l : list Recording.t) :=
  match FilterOptions.status filters with
  | Some s => filter (λ rec, bool_decide (Recording.status rec = s)) l
  | None => l
  end.

Definition byIsStudied (filters : FilterOptions.t) (l : list Recording.t) :=
  match FilterOptions.isStudied filters with
  | Some b => filter (λ rec, bool_decide (Recording.isStudied rec = Some b)) l
  | None => l
  end.

Definition byPriority (filters : FilterOptions.t) (l : list Recording.t) :=
  match FilterOptions.priority filters with
  | Some p => filter (λ rec, bool_decide (Recording.priority rec = Some p)) l
  | None => l
  end.

Definition inDateRange (filters : FilterOptions.t) (rec : Recording.t) : bool :=
  let recDate := Recording.date rec in
  let afterStart :=
    match FilterOptions.dateFrom filters with
    | None => true | Some d => d <=? recDate end in
  let beforeEnd :=
    match FilterOptions.dateTo filters with
    | None => true | Some d => recDate <=? d end in
  afterStart && beforeEnd.

Definition byDateRange (filters : FilterOptions.t) (l : list Recording.t) :=
  match FilterOptions.dateFrom filters, FilterOptions.dateTo filters with
  | None, None => l
  | _, _ => filter (λ rec, inDateRange filters rec) l
  end.

Definition filterRecordings (filters : FilterOptions.t) (db : Database)
  : Completion (list Recording.t) :=
  match Dexie.toArray db with
  | Normal recordings =>
      let recordings := bySearchQuery filters recordings in
      let recordings := byTags filters recordings in
      let recordings := byCategory filters recordings in
      let recordings := byStatus filters recordings in
      let recordings := byIsStudied filters recordings in
      let recordings := byPriority filters recordings in
      let recordings := byDateRange filters recordings in
      Normal (sortBy newestFirst recordings)
  | Throw _ => Throw (Error "Failed to filter recordings")
  end.

Definition updateSearchText (id : N) (db : Database)
  : Completion unit * Database :=
  match Dexie.get id db with
  | Normal (Some recording) =>
      match Dexie.update id [SetSearchText (Some (generateSearchText recording))] db with
      | (Normal _, db') => (Normal (), db')
      | (Throw _, db') => (Throw (Error "Failed to update search text"), db')
      end
  | Normal None => (Normal (), db)
  | Throw _ => (Throw (Error "Failed to update search text"), db)
  end.

(** ** The world the asynchronous code runs in *)

(** The [File] handed to the OpenAI SDK. *)
Record File := {
  fileName : string;
  fileType : string;
  fileSize : N
}.

(** A content block of a Claude response: text, or anything else. *)
Inductive ContentBlock : Type :=
  | TextBlock (blockText : string)
  | OtherBlock.

(** What leaves the component: writes to the store and the two network
    calls, in the order they happen. *)
Inductive Event : Type :=
  | StoreUpdate (id : N) (updates : list Change)
  | WhisperRequest (file : File) (apiKey : string)
  | ClaudeRequest (content : string) (apiKey : string).

(** The [useState] cells of [RecordingItem] the workflow writes. *)
Record UIState := {
  isProcessing : bool;
  processingError : option string;
  showNotes : bool
}.

Record World := {
  db : Database;
  ui : UIState;
  trace : list Event
}.

(** State and exceptions: what was done before a throw stays done. *)
Definition M (A : Type) : Type := World → Completion A * World.

Definition ret {A} (v : A) : M A := λ w, (Normal v, w).

Definition throw {A} (e : Thrown) : M A := λ w, (Throw e, w).

Definition bind {A B} (m : M A) (k : A → M B) : M B :=
  λ w, match m w with
       | (Normal v, w') => k v w'
       | (Throw e, w') => (Throw e, w')
       end.

Notation "'let!' x ':=' m 'in' k" := (bind m (λ x, k))
  (at level 10, x name, m at level 100, k at level 200).
Notation "m '>>' k" := (bind m (λ _, k))
  (at level 90, right associativity).

(** [try { body } catch (error) { handler }] *)
Definition tryCatch {A} (body : M A) (handler : Thrown → M A) : M A :=
  λ w, match body w with
       | (Normal v, w') => (Normal v, w')
       | (Throw e, w') => handler e w'
       end.

(** [try { body } finally { finalizer }] *)
Definition tryFinally {A} (body : M A) (finalizer : M unit) : M A :=
  λ w, let '(c, w') := body w in
       match finalizer w' with
       | (Normal _, w'') => (c, w'')
       | (Throw e, w'') => (Throw e, w'')
       end.

Definition emit (e : Event) : M unit :=
  λ w, (Normal (), {| db := db w; ui := ui w; trace := trace w ++ [e] |}).

(** [await updateRecording(id, updates)] from the component. *)
Definition awaitUpdateRecording (id : N) (updates : list Change) : M N :=
  emit (StoreUpdate id updates) >>
  λ w, let '(c, db') := updateRecording id updates (db w) in
       (c, {| db := db'; ui := ui w; trace := trace w |}).

Definition setIsProcessing (b : bool) : M unit :=
  λ w, (Normal (),
        {| db := db w;
           ui := {| isProcessing := b;
                    processingError := processingError (ui w);
                    showNotes := showNotes (ui w) |};
           trace := trace w |}).

Definition setProcessingError (e : option string) : M unit :=
  λ w, (Normal (),
        {| db := db w;
           ui := {| isProcessing := isProcessing (ui w);
                    processingError := e;
                    showNotes := showNotes (ui w) |};
           trace := trace w |}).

Definition setShowNotes (b : bool) : M unit :=
  λ w, (Normal (),
        {| db := db w;
           ui := {| isProcessing := isProcessing (ui w);
                    processingError := processingError (ui w);
                    showNotes := b |};
           trace := trace w |}).

(** ** [whisperApi.ts]: the transcription client *)

(** [audioBlob.size / (1024 * 1024)].  The division is by a power of two,
    so the floating-point quotient is the exact rational for every size a
    [Blob] can have. *)
Definition sizeMB (audioBlob : Blob.t) : Q :=
  inject_Z (Z.of_N (Blob.size audioBlob)) / inject_Z (1024 * 1024).

(** [x.toFixed(1)] for a non-negative [x]: the nearest tenth, ties upward. *)
Definition toFixed1 (x : Q) : string :=
  let n := Qfloor (x * inject_Z 10 + (1 # 2)) in
  pretty (n / 10) +:+ "." +:+ pretty (n mod 10).

(** [new File([audioBlob], 'recording.webm', { type: audioBlob.type || 'audio/webm' })] *)
Definition audioFile (audioBlob : Blob.t) : File :=
  {| fileName := "recording.webm";
     fileType := if JsString.truthy (Blob.type audioBlob)
                 then Blob.type audioBlob else "audio/webm";
     fileSize := Blob.size audioBlob |}.

Definition tooLargeMessage (audioBlob : Blob.t) : string :=
  "Audio file too large (" +:+ toFixed1 (sizeMB audioBlob)
  +:+ "MB). Whisper API supports files up to 25MB. "
  +:+ "Consider recording shorter segments.".

(** The [catch] clause of [transcribeAudio]. *)
Definition whisperCatch (error : Thrown) : Thrown :=
  match error with
  | APIError status m =>
      match status with
      | Some 401%N => Error "Invalid OpenAI API key. Please check your API key in Settings."
      | Some 429%N => Error "OpenAI API rate limit exceeded. Please try again later."
      | Some 413%N => Error "Audio file too large for Whisper API (max 25MB)."
      | _ => Error ("OpenAI API error: " +:+ m)
      end
  | TypeError m =>
      if JsString.includes m "fetch"
      then Error "Network error. Please check your internet connection and try again."
      else error
  | NotAnError => Error "Failed to transcribe audio. Please try again."
  | Error _ | DexieError _ | DOMException _ _ => error
  end.

(** The [catch] clause of [generateNotes]. *)
Definition claudeCatch (error : Thrown) : Thrown :=
  match error with
  | APIError status m =>
      match status with
      | Some 401%N => Error "Invalid Anthropic API key. Please check your API key in Settings."
      | Some 429%N => Error "Anthropic API rate limit exceeded. Please try again later."
      | Some 400%N => Error "Invalid request to Claude API. The transcript may be too long or malformed."
      | _ => Error ("Claude API error: " +:+ m)
      end
  | TypeError m =>
      if JsString.includes m "fetch"
      then Error "Network error. Please check your internet connection and try again."
      else error
  | NotAnError => Error "Failed to generate notes. Please try again."
  | Error _ | DexieError _ | DOMException _ _ => error
  end.

(** Concatenation of the text blocks of a response. *)
Fixpoint blocksText (content : list ContentBlock) : string :=
  match content with
  | [] => EmptyString
  | TextBlock s :: rest => s +:+ blocksText rest
  | OtherBlock :: rest => blocksText rest
  end.

Definition claudeUserContent (transcript : string) : string :=
  "Please convert this lecture transcript into well-structured study notes:"
  +:+ String "010" (String "010" transcript).

Section Workflow.

(** The two providers: what [openai.audio.transcriptions.create] answers
    ([response.text]) and what [anthropic.messages.create] answers
    ([response.content]), each possibly by throwing. *)
Variable whisper : File → string → Completion string.
Variable claude : string → string → Completion (list ContentBlock).

(** The credentials held by the application context. *)
Variable openaiKey : option string.
Variable anthropicKey : option string.

Definition callWhisper (file : File) (apiKey : string) : M string :=
  emit (WhisperRequest file apiKey) >>
  λ w, (whisper file apiKey, w).

Definition callClaude (content : string) (apiKey : string)
  : M (list ContentBlock) :=
  emit (ClaudeRequest content apiKey) >>
  λ w, (claude content apiKey, w).

Definition transcribeAudio (audioBlob : Blob.t) (apiKey : string) : M string :=
  tryCatch
    (if negb (Qle_bool (sizeMB audioBlob) (inject_Z 25))
     then throw (Error (tooLargeMessage audioBlob))
     else
       let! transcript := callWhisper (audioFile audioBlob) apiKey in
       if negb (JsString.truthy transcript)
          || JsString.isEmpty (JsString.trim transcript)
       then throw (Error "Transcription returned empty text. The audio may be inaudible or too short.")
       else ret (JsString.trim transcript))
    (λ error, throw (whisperCatch error)).

Definition generateNotes (transcript : string) (apiKey : string) : M string :=
  tryCatch
    (if negb (JsString.truthy transcript)
        || JsString.isEmpty (JsString.trim transcript)
     then throw (Error "Cannot generate notes from empty transcript.")
     else
       let! content := callClaude (claudeUserContent transcript) apiKey in
       let notes := blocksText content in
       if negb (JsString.truthy notes)
          || JsString.isEmpty (JsString.trim notes)
       then throw (Error "Claude returned empty notes. Please try again.")
       else ret (JsString.trim notes))
    (λ error, throw (claudeCatch error)).

(** ** [RecordingItem.tsx]: the note-generation workflow *)

(** Step 1 of the [try] block: the transcript to summarize, transcribing
    first when the recording has none. *)
Definition transcriptionStep (id : N) (recording : Recording.t) : M string :=
  let transcriptText := JsString.orEmpty (Recording.transcript recording) in
  if negb (JsString.truthy transcriptText) then
    match openaiKey with
    | Some key =>
        if JsString.truthy key then
          awaitUpdateRecording id [SetStatus Transcribing] >>
          let! transcriptText :=
            transcribeAudio (Recording.audioBlob recording) key in
          awaitUpdateRecording id
            [SetTranscript (Some transcriptText); SetStatus Transcribed] >>
          ret transcriptText
        else throw (Error "OpenAI API key not configured. Please add your API key in Settings.")
    | None => throw (Error "OpenAI API key not configured. Please add your API key in Settings.")
    end
  else ret transcriptText.

(** Step 2 of the [try] block. *)
Definition notesStep (id : N) (transcriptText : string) : M unit :=
  match anthropicKey with
  | Some key =>
      if JsString.truthy key then
        if negb (JsString.truthy transcriptText)
           || JsString.isEmpty (JsString.trim transcriptText)
        then throw (Error "No transcript available for note generation.")
        else
          awaitUpdateRecording id [SetStatus GeneratingNotes] >>
          let! notes := generateNotes transcriptText key in
          awaitUpdateRecording id [SetNotes (Some notes); SetStatus Complete] >>
          setShowNotes true
      else throw (Error "Anthropic API key not configured. Please add your API key in Settings.")
  | None => throw (Error "Anthropic API key not configured. Please add your API key in Settings.")
  end.

(** The [try] block. *)
Definition tryBlock (id : N) (recording : Recording.t) : M unit :=
  setIsProcessing true >>
  setProcessingError None >>
  let! transcriptText := transcriptionStep id recording in
  notesStep id transcriptText.

(** The [catch] block. *)
Definition catchBlock (recording : Recording.t) (error : Thrown) : M unit :=
  let errorMessage :=
    if instanceofError error then message error
    else "Failed to generate notes" in
  setProcessingError (Some errorMessage) >>
  match Recording.id recording with
  | None | Some 0%N => ret ()
  | Some id =>
      awaitUpdateRecording id
        [SetStatus StatusError; SetErrorMessage (Some errorMessage)] >>
      ret ()
  end.

Definition handleGenerateNotes (recording : Recording.t) : M unit :=
  match Recording.id recording with
  | None | Some 0%N => ret ()
  | Some id =>
      tryFinally
        (tryCatch (tryBlock id recording) (catchBlock recording))
        (setIsProcessing false)
  end.

(** The "Generate Notes" button: [disabled] while processing or once the
    recording is complete; a disabled button dispatches no click. *)
Definition generateNotesDisabled (ui : UIState) (recording : Recording.t) : bool :=
  isProcessing ui || bool_decide (Recording.status recording = Complete).

Definition clickGenerateNotes (recording : Recording.t) : M unit :=
  λ w, if generateNotesDisabled (ui w) recording then (Normal (), w)
       else handleGenerateNotes recording w.

End Workflow.

(** ** [audioRecorder.ts]: the capture service *)

(** [Math.round]: the nearest integer, ties toward positive infinity. *)
Definition mathRound (x : Q) : Z := Qfloor (x + (1 # 2)).

(** The state of the browser's [MediaRecorder]. *)
Inductive RecordingState : Type :=
  | StateInactive
  | StateRecording
  | StatePaused.

Record MediaRecorder := {
  state : RecordingState;
  mimeType : string
}.

Record AudioRecorder := {
  mediaRecorder : option MediaRecorder;
  audioChunks : list Blob.t;
  stream : bool;                 (* a live [MediaStream] is held *)
  startTime : Z;
  pausedDuration : Z;
  pauseStartTime : Z
}.

(** A fresh [new AudioRecorder()]. *)
Definition newAudioRecorder : AudioRecorder :=
  {| mediaRecorder := None; audioChunks := []; stream := false;
     startTime := 0; pausedDuration := 0; pauseStartTime := 0 |}.

(** What [stop()] resolves to. *)
Record StopResult := {
  blob : Blob.t;
  duration : Z;
  resultMimeType : string
}.

(** How the promise of [stop()] settles, if it does. *)
Inductive StopOutcome : Type :=
  | Resolved (r : StopResult)
  | Rejected (e : Thrown)
  | Unsettled.

Module AudioRecorderOps.

Definition withMediaRecorder (m : option MediaRecorder) (r : AudioRecorder)
  : AudioRecorder :=
  {| mediaRecorder := m; audioChunks := audioChunks r; stream := stream r;
     startTime := startTime r; pausedDuration := pausedDuration r;
     pauseStartTime := pauseStartTime r |}.

Definition withState (s : RecordingState) (m : MediaRecorder) : MediaRecorder :=
  {| state := s; mimeType := mimeType m |}.

(** [cleanup()] *)
Definition cleanup (r : AudioRecorder) : AudioRecorder :=
  {| mediaRecorder := None; audioChunks := []; stream := false;
     startTime := startTime r; pausedDuration := pausedDuration r;
     pauseStartTime := pauseStartTime r |}.

Definition mimeTypes : list string :=
  ["audio/webm;codecs=opus"; "audio/webm"; "audio/ogg;codecs=opus"].

(** [initialize()], given how [getUserMedia] ends and which formats
    [MediaRecorder.isTypeSupported] accepts. *)
Definition initialize (getUserMedia : Completion unit)
    (isTypeSupported : string → bool) (r : AudioRecorder)
  : Completion unit * AudioRecorder :=
  let attempt : Completion unit * AudioRecorder :=
    match getUserMedia with
    | Throw e => (Throw e, r)
    | Normal _ =>
        let r1 :=
          {| mediaRecorder := mediaRecorder r; audioChunks := audioChunks r;
             stream := true; startTime := startTime r;
             pausedDuration := pausedDuration r;
             pauseStartTime := pauseStartTime r |} in
        match List.find isTypeSupported mimeTypes with
        | None => (Throw (Error "No supported audio format found"), r1)
        | Some selectedMimeType =>
            (Normal (),
             withMediaRecorder
               (Some {| state := StateInactive; mimeType := selectedMimeType |})
               r1)
        end
    end in
  match attempt with
  | (Normal _, r') => (Normal (), r')
  | (Throw error, r') =>
      let r'' := cleanup r' in
      match error with
      | NotAnError => (Throw (Error "Failed to initialize audio recorder"), r'')
      | DOMException name _ =>
          if bool_decide (name = "NotAllowedError")
             || bool_decide (name = "PermissionDeniedError")
          then (Throw (Error "Microphone permission denied. Please allow microphone access in your browser settings."), r'')
          else if bool_decide (name = "NotFoundError")
          then (Throw (Error "No microphone found. Please connect a microphone and try again."), r'')
          else (Throw (Error "Failed to initialize audio recorder"), r'')
      | _ => (Throw (Error "Failed to initialize audio recorder"), r'')
      end
  end.

(** The [ondataavailable] handler. *)
Definition ondataavailable (data : Blob.t) (r : AudioRecorder) : AudioRecorder :=
  if (0 <? Blob.size data)%N
  then {| mediaRecorder := mediaRecorder r;
          audioChunks := audioChunks r ++ [data];
          stream := stream r; startTime := startTime r;
          pausedDuration := pausedDuration r;
          pauseStartTime := pauseStartTime r |}
  else r.

(** [start()], with [now] the reading of [Date.now()].  The browser's
    [MediaRecorder.start] throws unless the recorder is inactive. *)
Definition start (now : Z) (r : AudioRecorder) : Completion unit * AudioRecorder :=
  match mediaRecorder r with
  | None => (Throw (Error "Recorder not initialized. Call initialize() first."), r)
  | Some m =>
      let r1 :=
        {| mediaRecorder := Some m; audioChunks := []; stream := stream r;
           startTime := now; pausedDuration := 0;
           pauseStartTime := pauseStartTime r |} in
      match state m with
      | StateInactive =>
          (Normal (), withMediaRecorder (Some (withState StateRecording m)) r1)
      | _ => (Throw (DOMException "InvalidStateError" "The MediaRecorder's state is not inactive."), r1)
      end
  end.

(** [pause()] *)
Definition pause (now : Z) (r : AudioRecorder) : Completion unit * AudioRecorder :=
  match mediaRecorder r with
  | None => (Throw (Error "Recorder not initialized"), r)
  | Some m =>
      match state m with
      | StateRecording =>
          (Normal (),
           {| mediaRecorder := Some (withState StatePaused m);
              audioChunks := audioChunks r; stream := stream r;
              startTime := startTime r; pausedDuration := pausedDuration r;
              pauseStartTime := now |})
      | _ => (Throw (Error "Recorder is not recording"), r)
      end
  end.

(** [resume()] *)
Definition resume (now : Z) (r : AudioRecorder) : Completion unit * AudioRecorder :=
  match mediaRecorder r with
  | None => (Throw (Error "Recorder not initialized"), r)
  | Some m =>
      match state m with
      | StatePaused =>
          (Normal (),
           {| mediaRecorder := Some (withState StateRecording m);
              audioChunks := audioChunks r; stream := stream r;
              startTime := startTime r;
              pausedDuration := pausedDuration r + (now - pauseStartTime r);
              pauseStartTime := pauseStartTime r |})
      | _ => (Throw (Error "Recorder is not paused"), r)
      end
  end.

(** [new Blob(chunks, { type })] *)
Definition concatBlobs (chunks : list Blob.t) (type : string) : Blob.t :=
  Blob.mk (foldr (λ c n, (Blob.size c + n)%N) 0%N chunks) type.

(** [stop()].  Stopping an active recorder makes the browser deliver the
    data still buffered ([lastData]) and then fire [stop]; [now] is the
    reading of [Date.now()] in the [onstop] handler.  On an inactive
    recorder the browser fires no [stop] event and the promise is never
    settled. *)
Definition stop (now : Z) (lastData : Blob.t) (r : AudioRecorder)
  : StopOutcome * AudioRecorder :=
  match mediaRecorder r with
  | None => (Rejected (Error "Recorder not initialized"), r)
  | Some m =>
      match state m with
      | StateInactive => (Unsettled, r)
      | _ =>
          let r1 := ondataavailable lastData
                      (withMediaRecorder (Some (withState StateInactive m)) r) in
          let blob := concatBlobs (audioChunks r1) (mimeType m) in
          let totalTime := now - startTime r1 in
          let duration :=
            mathRound (inject_Z (totalTime - pausedDuration r1) / inject_Z 1000) in
          (Resolved {| blob := blob; duration := duration;
                       resultMimeType := mimeType m |},
           cleanup r1)
      end
  end.

(** [getState()] *)
Definition getState (r : AudioRecorder) : RecordingState :=
  match mediaRecorder r with
  | Some m => state m
  | None => StateInactive
  end.

(** A capture session after [start]: pause at [p], resume at [q], for each
    pair [(p, q)] in turn. *)
Fixpoint pauseResume (pairs : list (Z * Z)) (r : AudioRecorder)
  : Completion unit * AudioRecorder :=
  match pairs with
  | [] => (Normal (), r)
  | (p, q) :: rest =>
      match pause p r with
      | (Normal _, r1) =>
          match resume q r1 with
          | (Normal _, r2) => pauseResume rest r2
          | failed => failed
          end
      | failed => failed
      end
  end.

(** Total time spent paused over the pairs. *)
Definition pausedTotal (pairs : list (Z * Z)) : Z :=
  foldr (λ pq acc, (pq.2 - pq.1) + acc) 0 pairs.

End AudioRecorderOps.

(** ** Sample data *)

Module Sample.

(** A recording as [handleStopRecording] saves it, once the table has
    assigned its id. *)
Definition fresh (id : N) (filename : string) (date : Z) : Recording.t :=
  Recording.mk (Some id) filename None date 12
    (Blob.mk 204800 "audio/webm;codecs=opus")
    None None Recorded None "audio/webm;codecs=opus"
    None None None None None None None None None.

Definition optics : Recording.t :=
  Recording.setTags (Some ["physics"; "exam"])
    (Recording.setIsStudied (Some false) (fresh 1 "Optics, part 1" 1000)).

Definition algebra : Recording.t :=
  Recording.setTags (Some ["math"])
    (Recording.setIsStudied (Some false)
       (Recording.setStatus Transcribed
          (Recording.setTranscript (Some "Groups and rings")
             (fresh 2 "Algebra" 3000)))).

Definition waves : Recording.t :=
  Recording.setTags (Some ["physics"])
    (Recording.setIsStudied (Some true)
       (Recording.setStatus Complete
          (Recording.setNotes (Some "## Waves")
             (Recording.setTranscript (Some "Waves carry energy")
                (fresh 3 "Waves" 2000))))).

Definition untagged : Recording.t := fresh 4 "Recording 4" 4000.

Definition greeting : Recording.t := fresh 1 "hello, world" 1000.

Definition table (l : list Recording.t) : Database :=
  {| recordings :=
       list_to_map (omap (λ r, (λ k, (k, r)) <$> Recording.id r) l);
     failing := false |}.

Definition library : Database := table [optics; algebra; waves; untagged].

Definition idle : UIState :=
  {| isProcessing := false; processingError := None; showNotes := false |}.

Definition world (d : Database) : World :=
  {| db := d; ui := idle; trace := [] |}.

(** Providers that answer as in the specification's scenario B. *)
Definition whisperHello (file : File) (apiKey : string) : Completion string :=
  Normal "Hello world".

Definition claudeSummary (content : string) (apiKey : string)
  : Completion (list ContentBlock) :=
  Normal [TextBlock "## Summary"; TextBlock (String "010" "- point")].

(** A transcription provider that refuses the credential. *)
Definition whisperUnauthorized (file : File) (apiKey : string)
  : Completion string :=
  Throw (APIError (Some 401%N) "Incorrect API key provided").

(** A ready recorder: initialized, not yet started. *)
Definition readyRecorder : AudioRecorder :=
  {| mediaRecorder := Some {| state := StateInactive;
                              mimeType := "audio/webm;codecs=opus" |};
     audioChunks := []; stream := true;
     startTime := 0; pausedDuration := 0; pauseStartTime := 0 |}.

End Sample.

(** ** Notions the properties are stated with *)

(** All changes of an update assigned in turn. *)
Definition applyAll (changes : list Change) (item : Recording.t) : Recording.t :=
  foldl (λ it c, applyChange c it) item changes.

Definition emptyDatabase : Database := {| recordings := ∅; failing := false |}.

(** Newest first: every record is at least as recent as all that follow. *)
Definition newestFirstOrder (l : list Recording.t) : Prop :=
  StronglySorted (λ a b, Recording.date b ≤ Recording.date a) l.

(** One test per criterion of [filterRecordings]; a criterion that is not
    supplied lets every record through. *)
Definition okSearchQuery (filters : FilterOptions.t) (rec : Recording.t) : bool :=
  match FilterOptions.searchQuery filters with
  | Some q => if JsString.truthy (JsString.trim q) then matchesQuery q rec else true
  | None => true
  end.

Definition okTags (filters : FilterOptions.t) (rec : Recording.t) : bool :=
  match FilterOptions.tags filters with
  | Some (t :: ts) => someTagIn (t :: ts) rec
  | _ => true
  end.

Definition okCategory (filters : FilterOptions.t) (rec : Recording.t) : bool :=
  match FilterOptions.category filters with
  | Some c =>
      if JsString.truthy c then bool_decide (Recording.category rec = Some c)
      else true
  | None => true
  end.

Definition okStatus (filters : FilterOptions.t) (rec : Recording.t) : bool :=
  match FilterOptions.status filters with
  | Some s => bool_decide (Recording.status rec = s)
  | None => true
  end.

Definition okIsStudied (filters : FilterOptions.t) (rec : Recording.t) : bool :=
  match FilterOptions.isStudied filters with
  | Some b => bool_decide (Recording.isStudied rec = Some b)
  | None => true
  end.

Definition okPriority (filters : FilterOptions.t) (rec : Recording.t) : bool :=
  match FilterOptions.priority filters with
  | Some p => bool_decide (Recording.priority rec = Some p)
  | None => true
  end.

(** The conjunction of the tests. *)
Definition meetsAll (filters : FilterOptions.t) (rec : Recording.t) : bool :=
  okSearchQuery filters rec && okTags filters rec && okCategory filters rec
  && okStatus filters rec && okIsStudied filters rec && okPriority filters rec
  && inDateRange filters rec.

(** The specification's reading of a filter: every supplied criterion holds
    (AND across criteria), the tag criterion holding as soon as one tag of
    the record is among the wanted ones (OR within the tag list). *)
Definition meets (filters : FilterOptions.t) (rec : Recording.t) : Prop :=
  (∀ q, FilterOptions.searchQuery filters = Some q →
        JsString.trim q ≠ EmptyString → matchesQuery q rec = true) ∧
  (∀ wanted, FilterOptions.tags filters = Some wanted → wanted ≠ [] →
        ∃ ts tag, Recording.tags rec = Some ts ∧ tag ∈ ts ∧ tag ∈ wanted) ∧
  (∀ c, FilterOptions.category filters = Some c → c ≠ EmptyString →
        Recording.category rec = Some c) ∧
  (∀ s, FilterOptions.status filters = Some s → Recording.status rec = s) ∧
  (∀ b, FilterOptions.isStudied filters = Some b →
        Recording.isStudied rec = Some b) ∧
  (∀ p, FilterOptions.priority filters = Some p →
        Recording.priority rec = Some p) ∧
  (∀ d, FilterOptions.dateFrom filters = Some d → d ≤ Recording.date rec) ∧
  (∀ d, FilterOptions.dateTo filters = Some d → Recording.date rec ≤ d).

(** Scenario D: [filter({tags: ["physics"], isStudied: false})]. *)
Definition physicsNotStudied : FilterOptions.t :=
  FilterOptions.mk None (Some ["physics"]) None None (Some false) None None None.

(** The size ceiling of the transcription client, in bytes. *)
Definition maxBytes : N := 25 * 1024 * 1024.

(** The database of a world answers and holds [item] under [id]. *)
Definition stored (id : N) (w : World) (item : Recording.t) : Prop :=
  failing (db w) = false ∧ recordings (db w) !! id = Some item.

(** Changes that belong to transcription: the two status writes around the
    Whisper call and the write of the transcript. *)
Definition isTranscriptionChange (c : Change) : bool :=
  match c with
  | SetStatus Transcribing | SetStatus Transcribed | SetTranscript _ => true
  | _ => false
  end.

(** Events that belong to transcription. *)
Definition isTranscriptionEvent (e : Event) : bool :=
  match e with
  | WhisperRequest _ _ => true
  | StoreUpdate _ updates => existsb isTranscriptionChange updates
  | ClaudeRequest _ _ => false
  end.

(** The message the [catch] block of the workflow records for a thrown
    value. *)
Definition recordedMessage (error : Thrown) : string :=
  if instanceofError error then message error else "Failed to generate notes".

(** No event of a trace belongs to transcription. *)
Definition quiet (new : list Event) : Prop :=
  Forall (λ e, isTranscriptionEvent e = false) new.

(** The world after one more event. *)
Definition logged (e : Event) (w : World) : World :=
  {| db := db w; ui := ui w; trace := trace w ++ [e] |}.

(** The world once the [try] block has set its two flags. *)
Definition processingStarted (w : World) : World :=
  {| db := db w;
     ui := {| isProcessing := true; processingError := None;
              showNotes := showNotes (ui w) |};
     trace := trace w |}.

(** ** Shapes of text *)

(** The units a normalized search text is made of: lower-case letters,
    digits, the underscore, and the space. *)
Definition isSearchUnit (c : ascii) : bool :=
  let n := JsString.code c in
  ((48 <=? n) && (n <=? 57) || (n =? 95) || (97 <=? n) && (n <=? 122)
   || (n =? 32))%N.

Fixpoint allUnits (p : ascii → bool) (s : string) : bool :=
  match s with
  | EmptyString => true
  | String c s' => p c && allUnits p s'
  end.

(** No two white-space units in a row. *)
Fixpoint singleSpaced (s : string) : bool :=
  match s with
  | String a ((String b _) as s') =>
      negb (JsString.isSpace a && JsString.isSpace b) && singleSpaced s'
  | _ => true
  end.

(** The first unit, if any, is not white space. *)
Definition noLeadingSpace (s : string) : bool :=
  match s with
  | EmptyString => true
  | String c _ => negb (JsString.isSpace c)
  end.

(** The last unit, if any, is not white space. *)
Fixpoint noTrailingSpace (s : string) : bool :=
  match s with
  | EmptyString => true
  | String c EmptyString => negb (JsString.isSpace c)
  | String _ s' => noTrailingSpace s'
  end.

(** What [generateSearchText] makes of every unit before it collapses
    white space: lower case, and a space for whatever is neither a word unit
    nor white space. *)
Definition cleanText (s : string) : string :=
  JsString.replaceSpecial (JsString.toLowerCase s).

(** Two recordings whose searchable fields differ in letter case and in
    special characters only. *)
Definition sameWords (r r' : Recording.t) : Prop :=
  cleanText (Recording.filename r) = cleanText (Recording.filename r') ∧
  option_map cleanText (Recording.customName r)
    = option_map cleanText (Recording.customName r') ∧
  option_map cleanText (Recording.transcript r)
    = option_map cleanText (Recording.transcript r') ∧
  option_map cleanText (Recording.notes r)
    = option_map cleanText (Recording.notes r') ∧
  option_map cleanText (Recording.subject r)
    = option_map cleanText (Recording.subject r') ∧
  option_map cleanText (Recording.category r)
    = option_map cleanText (Recording.category r') ∧
  option_map (List.map cleanText) (Recording.tags r)
    = option_map (List.map cleanText) (Recording.tags r').

(** The parts [generateSearchText] joins. *)
Definition searchParts (recording : Recording.t) : list string :=
  [ JsString.orEmpty (Some (Recording.filename recording));
    JsString.orEmpty (Recording.customName recording);
    JsString.orEmpty (Recording.transcript recording);
    JsString.orEmpty (Recording.notes recording);
    JsString.orEmpty (Recording.subject recording);
    JsString.orEmpty (Recording.category recording) ]
  ++ default [] (Recording.tags recording).

(** The stored search text of a recording, when there is one, is the output
    of [generateSearchText] (the migration and [updateSearchText] write
    nothing else). *)
Definition searchTextGenerated (r : Recording.t) : Prop :=
  Recording.searchText r = None ∨
  ∃ r0, Recording.searchText r = Some (generateSearchText r0).

(** A filter with another search query. *)
Definition withSearchQuery (q : option string) (f : FilterOptions.t)
  : FilterOptions.t :=
  FilterOptions.mk q (FilterOptions.tags f) (FilterOptions.category f)
    (FilterOptions.status f) (FilterOptions.isStudied f)
    (FilterOptions.priority f) (FilterOptions.dateFrom f)
    (FilterOptions.dateTo f).

(** ** Notions for the workflow's effects *)

(** The properties the workflow writes. *)
Definition isWorkflowChange (c : Change) : bool :=
  match c with
  | SetStatus _ | SetTranscript _ | SetNotes _ | SetErrorMessage _ => true
  | _ => false
  end.

(** An event that is either a network call or a write of workflow
    properties to the record [id]. *)
Definition ownEvent (id : N) (e : Event) : Prop :=
  match e with
  | StoreUpdate k updates => k = id ∧ forallb isWorkflowChange updates = true
  | WhisperRequest _ _ | ClaudeRequest _ _ => True
  end.

(** From [w] to [w'] nothing happened to the store but writes to the row
    [id] that was there: the back end is as it was, the other rows are as
    they were, no row appeared or disappeared, and the trace grew by events
    of [id]. *)
Definition touchesOnly (id : N) (w w' : World) : Prop :=
  failing (db w') = failing (db w) ∧
  (∀ k, k ≠ id → recordings (db w') !! k = recordings (db w) !! k) ∧
  (is_Some (recordings (db w') !! id) ↔ is_Some (recordings (db w) !! id)) ∧
  ∃ new, trace w' = trace w ++ new ∧ Forall (ownEvent id) new.

(** A recording has no transcript to start from. *)
Definition lacksTranscript (r : Recording.t) : Prop :=
  JsString.orEmpty (Recording.transcript r) = EmptyString.

Definition openaiKeyMissing : string :=
  "OpenAI API key not configured. Please add your API key in Settings.".

Definition anthropicKeyMissing : string :=
  "Anthropic API key not configured. Please add your API key in Settings.".

(** A computation that, from any world, touches the row [id] only. *)
Definition frames {A} (id : N) (m : M A) : Prop :=
  ∀ w, touchesOnly id w (m w).2.

(** ** [storage.ts], the remaining queries *)

(** Every row carries its primary key in [id], as a table with key path
    [id] has it. *)
Definition keyedById (d : Database) : Prop :=
  ∀ k r, recordings d !! k = Some r → Recording.id r = Some k.

Module DexieIndex.

(** Rows in the order of the [category] index restricted to one value: by
    primary key.  A row without category is not in the index. *)
Definition whereCategoryEquals (category : string) (d : Database)
  : Completion (list Recording.t) :=
  if failing d then Throw Dexie.rejection
  else Normal (filter (λ r, Recording.category r = Some category) (Dexie.rows d)).

(** [where('date').between(start, end, true, true)]: both bounds included,
    in the order of the [date] index. *)
Definition whereDateBetween (start finish : Z) (d : Database)
  : Completion (list Recording.t) :=
  if failing d then Throw Dexie.rejection
  else Normal
         (filter (λ r, start ≤ Recording.date r ∧ Recording.date r ≤ finish)
            (snd <$> sortBy Dexie.dateIndexLe (map_to_list (recordings d)))).

(** The entries of the multi-entry index [*tags]: one per distinct tag of a
    row. *)
Definition tagEntries (d : Database) : list (string * (N * Recording.t)) :=
  flat_map (λ p, (λ t, (t, p)) <$> remove_dups (default [] (Recording.tags p.2)))
    (map_to_list (recordings d)).

(** Order of the index: by tag (code units), then by primary key. *)
Definition tagEntryLe (a b : string * (N * Recording.t)) : bool :=
  if bool_decide (a.1 = b.1) then (a.2.1 <=? b.2.1)%N else String.leb a.1 b.1.

(** [where('tags').anyOf(tags)]: every index entry whose tag is wanted, in
    index order; a row with two wanted tags comes twice. *)
Definition whereTagsAnyOf (tags : list string) (d : Database)
  : Completion (list Recording.t) :=
  if failing d then Throw Dexie.rejection
  else Normal
         ((λ e, e.2.2) <$>
            filter (λ e, e.1 ∈ tags) (sortBy tagEntryLe (tagEntries d))).

End DexieIndex.

Definition getRecordingsByTags (tags : list string) (d : Database)
  : Completion (list Recording.t) :=
  match tags with
  | [] => Normal []
  | _ =>
      match DexieIndex.whereTagsAnyOf tags d with
      | Normal recordings => Normal recordings
      | Throw _ => Throw (Error "Failed to fetch recordings by tags")
      end
  end.

Definition getRecordingsByCategory (category : string) (d : Database)
  : Completion (list Recording.t) :=
  match DexieIndex.whereCategoryEquals category d with
  | Normal recordings => Normal recordings
  | Throw _ => Throw (Error "Failed to fetch recordings by category")
  end.

Definition getRecordingsByDateRange (start finish : Z) (d : Database)
  : Completion (list Recording.t) :=
  match DexieIndex.whereDateBetween start finish d with
  | Normal recordings => Normal recordings
  | Throw _ => Throw (Error "Failed to fetch recordings by date range")
  end.

(** [set.add(x)] on a [Set] kept in insertion order. *)
Definition setAdd (set : list string) (x : string) : list string :=
  if bool_decide (x ∈ set) then set else set ++ [x].

(** [Array.from(set).sort()]: ascending by code units. *)
Definition sortStrings (l : list string) : list string := sortBy String.leb l.

Definition getAllTags (d : Database) : Completion (list string) :=
  match Dexie.toArray d with
  | Normal recordings =>
      let tagsSet :=
        foldl (λ set rec, foldl setAdd set (default [] (Recording.tags rec)))
              [] recordings in
      Normal (sortStrings tagsSet)
  | Throw _ => Throw (Error "Failed to fetch all tags")
  end.

Definition getAllCategories (d : Database) : Completion (list string) :=
  match Dexie.toArray d with
  | Normal recordings =>
      let categoriesSet :=
        foldl (λ set rec,
                 match Recording.category rec with
                 | Some c => if JsString.truthy c then setAdd set c else set
                 | None => set
                 end)
              [] recordings in
      Normal (sortStrings categoriesSet)
  | Throw _ => Throw (Error "Failed to fetch all categories")
  end.

(** The changes the version 2 upgrade makes to one row. *)
Definition version2Updates (recording : Recording.t) : list Change :=
  [ SetTags (Some []);
    SetIsStudied (Some false);
    SetLastModified (Some (Recording.date recording));
    SetSearchText (Some (generateSearchText recording)) ].

(** The body of the loop of the upgrade function: the row is updated under
    the key [recording.id!]; [undefined] is not a valid key. *)
Definition upgradeStep (acc : Completion unit * Database)
    (recording : Recording.t) : Completion unit * Database :=
  match acc with
  | (Throw e, d') => (Throw e, d')
  | (Normal _, d') =>
      match Recording.id recording with
      | Some id =>
          match Dexie.update id (version2Updates recording) d' with
          | (Normal _, d'') => (Normal (), d'')
          | (Throw e, d'') => (Throw e, d'')
          end
      | None => (Throw (DexieError "DataError"), d')
      end
  end.

(** The upgrade function of schema version 2: every row read by [toArray] is
    updated in turn. *)
Definition upgradeToVersion2 (d : Database) : Completion unit * Database :=
  match Dexie.toArray d with
  | Throw e => (Throw e, d)
  | Normal recordings => foldl upgradeStep (Normal (), d) recordings
  end.

(** ** The table with its key generator

    [saveRecording] lets the table assign the key.  The generator of an
    auto-incremented store hands out its current number and moves on; it is
    always past every key in use. *)
Record KeyedStore := {
  table : Database;
  keyGenerator : N
}.

Definition generatorAhead (s : KeyedStore) : Prop :=
  (0 < keyGenerator s)%N ∧
  ∀ k, is_Some (recordings (table s) !! k) → (k < keyGenerator s)%N.

Definition withId (id : N) (r : Recording.t) : Recording.t :=
  Recording.mk (Some id) (Recording.filename r) (Recording.customName r)
    (Recording.date r) (Recording.duration r) (Recording.audioBlob r)
    (Recording.transcript r) (Recording.notes r) (Recording.status r)
    (Recording.errorMessage r) (Recording.mimeType r) (Recording.tags r)
    (Recording.category r) (Recording.subject r) (Recording.searchText r)
    (Recording.priority r) (Recording.isStudied r) (Recording.lastModified r)
    (Recording.exportedAt r) (Recording.transcriptSegments r).

(** [db.recordings.add(recording)] for a recording that carries no id: the
    generated key is written into the stored object.  A key already in use
    is a constraint error. *)
Definition dexieAdd (recording : Recording.t) (s : KeyedStore)
  : Completion N * KeyedStore :=
  if failing (table s) then (Throw Dexie.rejection, s)
  else
    let key := keyGenerator s in
    match recordings (table s) !! key with
    | Some _ => (Throw (DexieError "ConstraintError"), s)
    | None =>
        (Normal key,
         {| table := {| recordings := <[key := withId key recording]>
                                        (recordings (table s));
                        failing := failing (table s) |};
            keyGenerator := key + 1 |})
    end.

Definition saveRecording (recording : Recording.t) (s : KeyedStore)
  : Completion N * KeyedStore :=
  match dexieAdd recording s with
  | (Normal id, s') => (Normal id, s')
  | (Throw _, s') => (Throw (Error "Failed to save recording to database"), s')
  end.

(** Filters with one criterion. *)
Definition categoryOnly (c : string) : FilterOptions.t :=
  FilterOptions.mk None None (Some c) None None None None None.

Definition dateRangeOnly (start finish : Z) : FilterOptions.t :=
  FilterOptions.mk None None None None None None (Some start) (Some finish).

Definition tagsOnly (tags : list string) : FilterOptions.t :=
  FilterOptions.mk None (Some tags) None None None None None None.

(** Oldest first. *)
Definition oldestFirstOrder (l : list Recording.t) : Prop :=
  StronglySorted (λ a b, Recording.date a ≤ Recording.date b) l.

(** A record carries one of the wanted tags. *)
Definition hasSomeTag (wanted : list string) (r : Recording.t) : Prop :=
  ∃ ts tag, Recording.tags r = Some ts ∧ tag ∈ ts ∧ tag ∈ wanted.

(** Strings in strictly ascending order of code units. *)
Definition ascendingStrings (l : list string) : Prop :=
  StronglySorted (λ a b, String.leb a b = true ∧ a ≠ b) l.

(** The tags of a row, and its category when it is a non-empty string. *)
Definition tagsOf (r : Recording.t) : list string :=
  default [] (Recording.tags r).

Definition categoryOf (r : Recording.t) : list string :=
  match Recording.category r with
  | Some c => if JsString.truthy c then [c] else []
  | None => []
  end.

(** What the version 2 upgrade makes of a row. *)
Definition upgraded (r : Recording.t) : Recording.t :=
  applyAll (version2Updates r) r.

(** More sample data. *)
Module Sample2.

(** What [handleStopRecording] hands to [saveRecording]: no id yet. *)
Definition unsaved (filename : string) (date : Z) : Recording.t :=
  Recording.mk None filename None date 12
    (Blob.mk 204800 "audio/webm;codecs=opus")
    None None Recorded None "audio/webm;codecs=opus"
    None None None None None None None None None.

Definition mechanics : Recording.t :=
  Recording.setCategory (Some "Physics")
    (Recording.setTags (Some ["physics"; "exam"; "physics"])
       (Sample.fresh 5 "Mechanics" 5000)).

Definition topology : Recording.t :=
  Recording.setCategory (Some "Math")
    (Recording.setTags (Some ["math"; "exam"]) (Sample.fresh 6 "Topology" 2500)).

Definition shelf : Database :=
  Sample.table [Sample.optics; Sample.algebra; mechanics; topology].

Definition store : KeyedStore := {| table := Sample.library; keyGenerator := 5 |}.

End Sample2.

(** ** The capture service, continued *)

(** The [dataavailable] events of a session, delivered in turn. *)
Definition deliver (datas : list Blob.t) (r : AudioRecorder) : AudioRecorder :=
  foldl (λ r data, AudioRecorderOps.ondataavailable data r) r datas.

(** Bytes in a sequence of blobs. *)
Definition totalSize (datas : list Blob.t) : N :=
  foldr (λ c n, (Blob.size c + n)%N) 0%N datas.

(** A recorder that holds nothing: no browser recorder, no chunks, no
    microphone. *)
Definition uninitialized (r : AudioRecorder) : Prop :=
  mediaRecorder r = None ∧ audioChunks r = [] ∧ stream r = false.

(** The messages [initialize] can fail with. *)
Definition initializeMessages : list string :=
  [ "Microphone permission denied. Please allow microphone access in your browser settings.";
    "No microphone found. Please connect a microphone and try again.";
    "Failed to initialize audio recorder" ].

(** The formats tried before [mime]. *)
Fixpoint before (mime : string) (l : list string) : list string :=
  match l with
  | [] => []
  | x :: l' => if bool_decide (x = mime) then [] else x :: before mime l'
  end.

Definition preferredOver (mime : string) : list string :=
  before mime AudioRecorderOps.mimeTypes.

(** ** [apiKeyManager.ts]: the keys in [localStorage] *)

Definition LocalStorage := gmap string string.

Module ApiKeyManager.

Definition OPENAI_KEY_STORAGE : string := "dozey_openai_key".
Definition ANTHROPIC_KEY_STORAGE : string := "dozey_anthropic_key".

Definition getOpenAIKey (ls : LocalStorage) : option string :=
  ls !! OPENAI_KEY_STORAGE.

Definition setOpenAIKey (key : string) (ls : LocalStorage) : LocalStorage :=
  <[OPENAI_KEY_STORAGE := key]> ls.

Definition getAnthropicKey (ls : LocalStorage) : option string :=
  ls !! ANTHROPIC_KEY_STORAGE.

Definition setAnthropicKey (key : string) (ls : LocalStorage) : LocalStorage :=
  <[ANTHROPIC_KEY_STORAGE := key]> ls.

End ApiKeyManager.

(** ** The application context: the keys held in state and in storage *)

Record AppContext := {
  localStorage : LocalStorage;
  openaiKey : option string;
  anthropicKey : option string
}.

Module AppProvider.

(** The effect run on mount. *)
Definition loadKeys (c : AppContext) : AppContext :=
  {| localStorage := localStorage c;
     openaiKey := ApiKeyManager.getOpenAIKey (localStorage c);
     anthropicKey := ApiKeyManager.getAnthropicKey (localStorage c) |}.

Definition setOpenAIKey (key : string) (c : AppContext) : AppContext :=
  {| localStorage := ApiKeyManager.setOpenAIKey key (localStorage c);
     openaiKey := Some key;
     anthropicKey := anthropicKey c |}.

Definition setAnthropicKey (key : string) (c : AppContext) : AppContext :=
  {| localStorage := ApiKeyManager.setAnthropicKey key (localStorage c);
     openaiKey := openaiKey c;
     anthropicKey := Some key |}.

End AppProvider.

(** ** The settings page *)

Record SettingsState := {
  openaiInput : string;
  anthropicInput : string;
  openaiError : option string;
  anthropicError : option string;
  successMessage : option string
}.

Module SettingsPage.

Definition quoted (s : string) : string :=
  String "034" (s +:+ String "034" EmptyString).

Definition handleSaveOpenAI (s : SettingsState) (c : AppContext)
  : SettingsState * AppContext :=
  let rejected (e : string) :=
    ({| openaiInput := openaiInput s; anthropicInput := anthropicInput s;
        openaiError := Some e; anthropicError := anthropicError s;
        successMessage := None |}, c) in
  if negb (JsString.truthy (JsString.trim (openaiInput s)))
  then rejected "API key cannot be empty"
  else if negb (validateOpenAIKey (openaiInput s))
  then rejected ("Invalid OpenAI API key format. Key should start with "
                 +:+ quoted "sk-")
  else
    ({| openaiInput := openaiInput s; anthropicInput := anthropicInput s;
        openaiError := None; anthropicError := anthropicError s;
        successMessage := Some "OpenAI API key saved successfully" |},
     AppProvider.setOpenAIKey (JsString.trim (openaiInput s)) c).

Definition handleSaveAnthropic (s : SettingsState) (c : AppContext)
  : SettingsState * AppContext :=
  let rejected (e : string) :=
    ({| openaiInput := openaiInput s; anthropicInput := anthropicInput s;
        openaiError := openaiError s; anthropicError := Some e;
        successMessage := None |}, c) in
  if negb (JsString.truthy (JsString.trim (anthropicInput s)))
  then rejected "API key cannot be empty"
  else if negb (validateAnthropicKey (anthropicInput s))
  then rejected ("Invalid Anthropic API key format. Key should start with "
                 +:+ quoted "sk-ant-")
  else
    ({| openaiInput := openaiInput s; anthropicInput := anthropicInput s;
        openaiError := openaiError s; anthropicError := None;
        successMessage := Some "Anthropic API key saved successfully" |},
     AppProvider.setAnthropicKey (JsString.trim (anthropicInput s)) c).

End SettingsPage.

(** A key as the settings page stores it: not empty, no white space around
    it. *)
Definition tidyKey (key : string) : Prop :=
  key ≠ EmptyString ∧ JsString.trim key = key.

(** ** [RecordingControls.tsx]: the record, pause, resume and stop buttons *)

Module RecordingControls.

(** The state the handlers read and write: the recorder held by
    [audioRecorderRef], the flags of the application context, the timer and
    the component's own state. *)
Record State := {
  audioRecorderRef : option AudioRecorder;
  isRecording : bool;
  isPaused : bool;
  seconds : N;
  timerRunning : bool;          (* [timerIntervalRef.current] is set *)
  error : option string;
  audioStream : bool
}.

Definition withRecorder (r : option AudioRecorder) (c : State) : State :=
  {| audioRecorderRef := r; isRecording := isRecording c;
     isPaused := isPaused c; seconds := seconds c;
     timerRunning := timerRunning c; error := error c;
     audioStream := audioStream c |}.

Definition setError (e : option string) (c : State) : State :=
  {| audioRecorderRef := audioRecorderRef c; isRecording := isRecording c;
     isPaused := isPaused c; seconds := seconds c;
     timerRunning := timerRunning c; error := e;
     audioStream := audioStream c |}.

(** [err instanceof Error ? err.message : fallback] *)
Definition messageOr (fallback : string) (err : Thrown) : string :=
  if instanceofError err then message err else fallback.

(** What [new Date()] gives the stop handler: the time and its two local
    renderings. *)
Record Clock := {
  time : Z;
  localeDateString : string;
  localeTimeString : string
}.

Definition filenameAt (now : Clock) : string :=
  "Recording " +:+ localeDateString now +:+ " " +:+ localeTimeString now.

Definition tooLargeMessage (blob : Blob.t) : string :=
  "Recording too large (" +:+ toFixed1 (sizeMB blob)
  +:+ "MB). Maximum size is 25MB.".

(** The object literal handed to [saveRecording]. *)
Definition newRecording (filename : string) (date duration : Z)
    (audioBlob : Blob.t) (mimeType : string) : Recording.t :=
  Recording.mk None filename None date duration audioBlob None None Recorded
    None mimeType None None None None None None None None None.

(** [handleStartRecording], given how [getUserMedia] ends, the formats the
    browser supports and the reading of [Date.now()] in [start]. *)
Definition handleStartRecording (getUserMedia : Completion unit)
    (isTypeSupported : string → bool) (now : Z) (c : State) : State :=
  let c := setError None c in
  match AudioRecorderOps.initialize getUserMedia isTypeSupported
          newAudioRecorder with
  | (Throw err, recorder) =>
      setError (Some (messageOr "Failed to start recording" err))
        (withRecorder (Some recorder) c)
  | (Normal _, recorder) =>
      match AudioRecorderOps.start now recorder with
      | (Throw err, recorder') =>
          setError (Some (messageOr "Failed to start recording" err))
            {| audioRecorderRef := Some recorder';
               isRecording := isRecording c; isPaused := isPaused c;
               seconds := seconds c; timerRunning := timerRunning c;
               error := error c; audioStream := stream recorder |}
      | (Normal _, recorder') =>
          {| audioRecorderRef := Some recorder';
             isRecording := true; isPaused := false;
             seconds := seconds c; timerRunning := true;
             error := error c; audioStream := stream recorder |}
      end
  end.

(** [handleStopRecording].  [stopTime] and [lastData] are what the browser
    recorder meets while stopping, [now] is [new Date()] after the blob has
    come.  When the promise of [stop] is never settled the handler does not
    go on. *)
Definition handleStopRecording (stopTime : Z) (lastData : Blob.t)
    (now : Clock) (c : State) (s : KeyedStore) : State * KeyedStore :=
  match audioRecorderRef c with
  | None => (c, s)
  | Some recorder =>
      let '(outcome, recorder') :=
        AudioRecorderOps.stop stopTime lastData recorder in
      let c1 := withRecorder (Some recorder') c in
      match outcome with
      | Unsettled => (c1, s)
      | Rejected err =>
          (setError (Some (messageOr "Failed to save recording" err)) c1, s)
      | Resolved res =>
          if negb (Qle_bool (sizeMB (blob res)) (inject_Z 25))
          then (setError (Some (tooLargeMessage (blob res))) c1, s)
          else
            match saveRecording
                    (newRecording (filenameAt now) (time now) (duration res)
                       (blob res) (resultMimeType res)) s with
            | (Normal _, s') =>
                ({| audioRecorderRef := None; isRecording := false;
                    isPaused := false; seconds := 0; timerRunning := false;
                    error := None; audioStream := false |}, s')
            | (Throw err, s') =>
                (setError (Some (messageOr "Failed to save recording" err)) c1,
                 s')
            end
      end
  end.

End RecordingControls.

(** A recorder with a capture under way. *)
Definition capturing (r : AudioRecorder) : Prop :=
  ∃ m, mediaRecorder r = Some m ∧ state m ≠ StateInactive.

(** The bytes a [stop] on [r] will return when [lastData] is still to come. *)
Definition capturedBytes (lastData : Blob.t) (r : AudioRecorder) : N :=
  (totalSize (audioChunks r) + Blob.size lastData)%N.

(** The seconds a [stop] at [stopTime] will report. *)
Definition capturedSeconds (stopTime : Z) (r : AudioRecorder) : Z :=
  (stopTime - startTime r - pausedDuration r + 500) / 1000.

(** Sample captures. *)
Module Sample3.

Definition midCapture : AudioRecorder :=
  {| mediaRecorder := Some {| state := StateRecording;
                              mimeType := "audio/webm;codecs=opus" |};
     audioChunks := [Blob.mk 1000 "audio/webm"; Blob.mk 1000 "audio/webm"];
     stream := true;
     startTime := 5000; pausedDuration := 0; pauseStartTime := 0 |}.

(** Thirty megabytes in one chunk. *)
Definition hugeCapture : AudioRecorder :=
  {| mediaRecorder := Some {| state := StateRecording;
                              mimeType := "audio/webm;codecs=opus" |};
     audioChunks := [Blob.mk 31457280 "audio/webm"];
     stream := true;
     startTime := 5000; pausedDuration := 0; pauseStartTime := 0 |}.

Definition controls (r : AudioRecorder) : RecordingControls.State :=
  {| RecordingControls.audioRecorderRef := Some r;
     RecordingControls.isRecording := true;
     RecordingControls.isPaused := false;
     RecordingControls.seconds := 15;
     RecordingControls.timerRunning := true;
     RecordingControls.error := None;
     RecordingControls.audioStream := true |}.

Definition clock : RecordingControls.Clock :=
  {| RecordingControls.time := 1700000000000;
     RecordingControls.localeDateString := "11/14/2023";
     RecordingControls.localeTimeString := "10:13:20 PM" |}.

Definition lastData : Blob.t := Blob.mk 700 "audio/webm".

End Sample3.

(** ** Facts about the string primitives *)

Section StringFacts.
Import JsString.

Lemma append_nil (t : string) : EmptyString +:+ t = t.
Proof. reflexivity. Qed.

Lemma append_cons (a : ascii) (s t : string) :
  String a s +:+ t = String a (s +:+ t).
Proof. reflexivity. Qed.

Lemma append_assoc (s t u : string) : (s +:+ t) +:+ u = s +:+ t +:+ u.
Proof.
  induction s as [|a s IH]; [done|]. rewrite !append_cons. by f_equal.
Qed.

Lemma startsWith_iff (s p : string) :
  startsWith s p = true ↔ ∃ rest, s = p +:+ rest.
Proof.
  revert s. induction p as [|a p IH]; intros s.
  - split; [intros _; by exists s | done].
  - destruct s as [|b s]; simpl.
    + split; [done | intros [rest H]; discriminate H].
    + destruct (Ascii.eqb_spec a b) as [->|Hne].
      * rewrite IH. split.
        -- intros [rest ->]. by exists rest.
        -- intros [rest H]. rewrite append_cons in H.
           injection H as ->. by exists rest.
      * split; [done|]. intros [rest H]. rewrite append_cons in H.
        injection H as -> _. congruence.
Qed.

Lemma startsWith_append (s p q : string) :
  startsWith s (p +:+ q) = true → startsWith s p = true.
Proof.
  rewrite !startsWith_iff. intros [rest ->].
  exists (q +:+ rest). apply append_assoc.
Qed.

Lemma trimStart_allSpace (w s : string) :
  allSpace w = true → trimStart (w +:+ s) = trimStart s.
Proof.
  induction w as [|c w IH]; [done|].
  rewrite append_cons. simpl.
  intros [Hc Hw]%andb_prop. rewrite Hc. auto.
Qed.

Lemma trimEnd_allSpace_nil (w : string) :
  allSpace w = true → trimEnd w = EmptyString.
Proof.
  induction w as [|c w IH]; simpl; [done|].
  intros [Hc Hw]%andb_prop. by rewrite IH, Hc.
Qed.

Lemma trimEnd_allSpace (s w : string) :
  allSpace w = true → trimEnd (s +:+ w) = trimEnd s.
Proof.
  intros Hw. induction s as [|c s IH].
  - by apply trimEnd_allSpace_nil.
  - rewrite append_cons. simpl. by rewrite IH.
Qed.

Lemma trim_allSpace_right (s w : string) :
  allSpace w = true → trim (s +:+ w) = trim s.
Proof.
  intros Hw. unfold trim. induction s as [|c s IH].
  - rewrite append_nil. rewrite trimEnd_allSpace_nil; [done|].
    clear -Hw. induction w as [|c w IH]; simpl in *; [done|].
    apply andb_prop in Hw as [Hc Hw]. rewrite Hc. auto.
  - rewrite append_cons. simpl. destruct (isSpace c); [done|].
    rewrite <- append_cons. by apply trimEnd_allSpace.
Qed.

Lemma trim_surrounding (w1 s w2 : string) :
  allSpace w1 = true → allSpace w2 = true →
  trim (w1 +:+ s +:+ w2) = trim s.
Proof.
  intros H1 H2. unfold trim at 1. rewrite trimStart_allSpace by done.
  by apply trim_allSpace_right.
Qed.

End StringFacts.

(** C10.  Credential format validation looks at the trimmed key only and
    the two checks are not mutually exclusive: [validateOpenAIKey k] holds
    exactly when [trim k] starts with ["sk-"], [validateAnthropicKey k]
    exactly when [trim k] starts with ["sk-ant-"]; white space around the
    key changes neither verdict; and every key accepted by
    [validateAnthropicKey] is accepted by [validateOpenAIKey]. *)
Theorem C10_key_validation (k : string) :
  (validateOpenAIKey k = true ↔ ∃ rest, JsString.trim k = "sk-" +:+ rest) ∧
  (validateAnthropicKey k = true ↔ ∃ rest, JsString.trim k = "sk-ant-" +:+ rest) ∧
  (∀ w1 w2, JsString.allSpace w1 = true → JsString.allSpace w2 = true →
     validateOpenAIKey (w1 +:+ k +:+ w2) = validateOpenAIKey k ∧
     validateAnthropicKey (w1 +:+ k +:+ w2) = validateAnthropicKey k) ∧
  (validateAnthropicKey k = true → validateOpenAIKey k = true).
Proof.
  unfold validateOpenAIKey, validateAnthropicKey.
  split; [apply startsWith_iff|].
  split; [apply startsWith_iff|].
  split.
  - intros w1 w2 H1 H2. by rewrite trim_surrounding.
  - apply (startsWith_append _ "sk-" "ant-").
Qed.

(** ** The store: updates *)

Section UpdateFacts.

Lemma applyAll_cons (c : Change) (cs : list Change) (item : Recording.t) :
  applyAll (c :: cs) item = applyAll cs (applyChange c item).
Proof. reflexivity. Qed.

Lemma applyChange_same (c : Change) (item : Recording.t) :
  differs c item = false → applyChange c item = item.
Proof.
  destruct item, c; simpl; intros H;
    try discriminate H;
    try (apply negb_false_iff, bool_decide_eq_true in H; simpl in H; by subst);
    unfold Recording.setTags, Recording.setLastModified,
      Recording.setExportedAt, Recording.setTranscriptSegments; simpl;
    repeat match goal with
           | H : match ?x with _ => _ end = false |- _ => destruct x; try discriminate H
           end; done.
Qed.

Lemma applyChange_id (c : Change) (item : Recording.t) :
  Recording.id (applyChange c item) = Recording.id item.
Proof. by destruct c. Qed.

Lemma applyChange_carries (c : Change) (item : Recording.t) :
  carries c (applyChange c item).
Proof. by destruct c. Qed.

Lemma applyChange_sameOn (c : Change) (f : Field) (item : Recording.t) :
  fieldOf c ≠ f → sameOn f item (applyChange c item).
Proof. destruct c, f; simpl; intros H; done. Qed.

Lemma sameOn_refl (f : Field) (r : Recording.t) : sameOn f r r.
Proof. by destruct f. Qed.

Lemma sameOn_trans (f : Field) (r1 r2 r3 : Recording.t) :
  sameOn f r1 r2 → sameOn f r2 r3 → sameOn f r1 r3.
Proof. destruct f; simpl; congruence. Qed.

Lemma carries_sameOn (c : Change) (r r' : Recording.t) :
  carries c r → sameOn (fieldOf c) r r' → carries c r'.
Proof. destruct c; simpl; congruence. Qed.

Lemma applyAll_id (changes : list Change) (item : Recording.t) :
  Recording.id (applyAll changes item) = Recording.id item.
Proof.
  revert item. induction changes as [|c cs IH]; intros item; [done|].
  by rewrite applyAll_cons, IH, applyChange_id.
Qed.

Lemma applyAll_sameOn (changes : list Change) (f : Field) (item : Recording.t) :
  (∀ c, c ∈ changes → fieldOf c ≠ f) → sameOn f item (applyAll changes item).
Proof.
  revert item. induction changes as [|c cs IH]; intros item Hf.
  - apply sameOn_refl.
  - rewrite applyAll_cons. eapply sameOn_trans.
    + apply applyChange_sameOn, Hf. by left.
    + apply IH. intros c' Hc'. apply Hf. by right.
Qed.

Lemma applyAll_carries (changes : list Change) (c : Change) (item : Recording.t) :
  NoDup (fieldOf <$> changes) → c ∈ changes → carries c (applyAll changes item).
Proof.
  revert item. induction changes as [|c0 cs IH]; intros item Hnd Hin.
  - by apply elem_of_nil in Hin.
  - rewrite fmap_cons in Hnd. apply NoDup_cons in Hnd as [Hfresh Hnd].
    apply elem_of_cons in Hin as [->|Hin]; rewrite applyAll_cons.
    + eapply carries_sameOn; [apply applyChange_carries|].
      apply applyAll_sameOn. intros c' Hc' Heq. apply Hfresh.
      rewrite <- Heq. apply list_elem_of_fmap. by exists c'.
    + by apply IH.
Qed.

Lemma modifier_acc (changes : list Change) (item : Recording.t) (b : bool) :
  let res := foldl (λ acc c,
                      if differs c acc.1 then (applyChange c acc.1, true) else acc)
                   (item, b) changes in
  res.1 = applyAll changes item ∧
  (b = true → res.2 = true) ∧
  (res.2 = false → applyAll changes item = item).
Proof.
  revert item b. induction changes as [|c cs IH]; intros item b.
  - simpl. split; [done|]. split; [done|]. done.
  - rewrite applyAll_cons. simpl. destruct (differs c item) eqn:Hd.
    + destruct (IH (applyChange c item) true) as (H1 & H2 & H3).
      split; [done|]. split; [auto|].
      intros Hf. rewrite H2 in Hf; done.
    + rewrite (applyChange_same _ _ Hd).
      destruct (IH item b) as (H1 & H2 & H3). done.
Qed.

Lemma modifier_spec (changes : list Change) (item : Recording.t) :
  (Dexie.modifier changes item).1 = applyAll changes item ∧
  ((Dexie.modifier changes item).2 = false → applyAll changes item = item).
Proof.
  destruct (modifier_acc changes item false) as (H1 & _ & H3). done.
Qed.

(** What [updateRecording] does on a database that answers. *)
Lemma updateRecording_found (id : N) (updates : list Change) (db : Database)
    (item : Recording.t) :
  failing db = false → recordings db !! id = Some item →
  ∃ n db',
    updateRecording id updates db = (Normal n, db') ∧
    (n = 0 ∨ n = 1)%N ∧
    failing db' = false ∧
    recordings db' !! id = Some (applyAll updates item) ∧
    ∀ k, k ≠ id → recordings db' !! k = recordings db !! k.
Proof.
  intros Hok Hitem. unfold updateRecording, Dexie.update.
  rewrite Hok, Hitem.
  destruct (modifier_spec updates item) as [H1 H2].
  destruct (Dexie.modifier updates item) as [item' [|]] eqn:Hm; simpl in *.
  - eexists _, _. split; [done|]. split; [by right|]. split; [done|].
    simpl. split.
    + by rewrite lookup_insert_eq, H1.
    + intros k Hk. by rewrite lookup_insert_ne.
  - eexists _, _. split; [done|]. split; [by left|]. split; [done|].
    split; [|done]. by rewrite H2.
Qed.

Lemma updateRecording_absent (id : N) (updates : list Change) (db : Database) :
  failing db = false → recordings db !! id = None →
  updateRecording id updates db = (Normal 0%N, db).
Proof.
  intros Hok Hnone. unfold updateRecording, Dexie.update.
  by rewrite Hok, Hnone.
Qed.

Lemma updateRecording_failing (id : N) (updates : list Change) (db : Database) :
  failing db = true →
  updateRecording id updates db
  = (Throw (Error "Failed to update recording in database"), db).
Proof.
  intros Hf. unfold updateRecording, Dexie.update. by rewrite Hf.
Qed.

End UpdateFacts.

(** C5, as stated, fails: on an id that is absent [updateRecording] does not
    raise; it resolves to 0 and leaves the table as it was. *)
Lemma C5_absent_id_does_not_fail :
  (updateRecording 7 [SetStatus Transcribed] emptyDatabase).1 = Normal 0%N ∧
  ¬ ∃ e, (updateRecording 7 [SetStatus Transcribed] emptyDatabase).1 = Throw e.
Proof.
  split; [reflexivity|]. intros [e H]. discriminate H.
Qed.

(** C5, amended.  On a database that answers, [updateRecording id updates]
    never raises.  When no record has the id it resolves to 0 and changes
    nothing.  On an existing id it resolves to 0 or 1, the stored record
    then carries every supplied property, agrees with the old record on
    every property that was not supplied, keeps its id, and no other row
    changes.  The only failure is that of the database itself. *)
Theorem C5_update_recording (id : N) (updates : list Change) (db : Database) :
  failing db = false →
  (recordings db !! id = None →
     updateRecording id updates db = (Normal 0%N, db)) ∧
  (∀ item, recordings db !! id = Some item →
     ∃ n db' item',
       updateRecording id updates db = (Normal n, db') ∧
       (n = 0 ∨ n = 1)%N ∧
       getRecording id db' = Normal (Some item') ∧
       (NoDup (fieldOf <$> updates) → ∀ c, c ∈ updates → carries c item') ∧
       (∀ f, (∀ c, c ∈ updates → fieldOf c ≠ f) → sameOn f item item') ∧
       Recording.id item' = Recording.id item ∧
       (∀ k, k ≠ id → recordings db' !! k = recordings db !! k)).
Proof.
  intros Hok. split.
  - by apply updateRecording_absent.
  - intros item Hitem.
    destruct (updateRecording_found id updates db item Hok Hitem)
      as (n & db' & Hrun & Hn & Hok' & Hget & Hother).
    exists n, db', (applyAll updates item).
    split; [done|]. split; [done|]. split.
    { unfold getRecording, Dexie.get. by rewrite Hok', Hget. }
    split; [intros Hnd c Hc; by apply applyAll_carries|].
    split; [intros f Hf; by apply applyAll_sameOn|].
    split; [apply applyAll_id | done].
Qed.
(** ** Sorting *)

Section SortFacts.
Context {A : Type} (le : A → A → bool).
Hypothesis le_total : ∀ x y, le x y = true ∨ le y x = true.

Lemma insertSorted_Permutation (x : A) (l : list A) :
  insertSorted le x l ≡ₚ x :: l.
Proof.
  induction l as [|y l IH]; simpl; [done|].
  destruct (le x y); [done|]. rewrite IH. apply Permutation_swap.
Qed.

Lemma sortBy_Permutation (l : list A) : sortBy le l ≡ₚ l.
Proof.
  induction l as [|x l IH]; simpl; [done|].
  by rewrite insertSorted_Permutation, IH.
Qed.

Lemma insertSorted_HdRel (a x : A) (l : list A) :
  le a x = true → HdRel (λ u v, le u v = true) a l →
  HdRel (λ u v, le u v = true) a (insertSorted le x l).
Proof.
  intros Hax Hl. destruct l as [|y l]; simpl.
  - by constructor.
  - destruct (le x y); constructor; [done|]. by inversion Hl.
Qed.

Lemma insertSorted_Sorted (x : A) (l : list A) :
  Sorted (λ u v, le u v = true) l →
  Sorted (λ u v, le u v = true) (insertSorted le x l).
Proof.
  induction 1 as [|y l Hs IH Hhd]; simpl.
  - repeat constructor.
  - destruct (le x y) eqn:Hxy.
    + constructor; [by constructor|]. by constructor.
    + constructor; [done|]. apply insertSorted_HdRel; [|done].
      destruct (le_total x y) as [H|H]; [congruence | done].
Qed.

Lemma sortBy_Sorted (l : list A) : Sorted (λ u v, le u v = true) (sortBy le l).
Proof.
  induction l as [|x l IH]; simpl; [constructor|].
  by apply insertSorted_Sorted.
Qed.
End SortFacts.

Lemma Sorted_weaken {A} (R1 R2 : relation A) (l : list A) :
  (∀ x y, R1 x y → R2 x y) → Sorted R1 l → Sorted R2 l.
Proof.
  intros HR. induction 1 as [|x l Hs IH Hhd]; constructor; [done|].
  destruct Hhd; constructor; auto.
Qed.

#[local] Instance newer_trans :
  Transitive (λ a b : Recording.t, Recording.date b ≤ Recording.date a).
Proof. intros a b c. lia. Qed.

Lemma sortBy_newestFirst (l : list Recording.t) :
  newestFirstOrder (sortBy newestFirst l).
Proof.
  apply Sorted_StronglySorted; [apply _|].
  apply (Sorted_weaken (λ u v, newestFirst u v = true)).
  - intros a b H. unfold newestFirst in H. lia.
  - apply sortBy_Sorted. intros a b. unfold newestFirst. lia.
Qed.

Lemma orderByDateReverse_newestFirst (m : gmap N Recording.t) :
  newestFirstOrder (snd <$> reverse (sortBy Dexie.dateIndexLe (map_to_list m))).
Proof.
  apply Sorted_StronglySorted; [apply _|].
  apply (Sorted_fmap _ (flip (λ p q, Dexie.dateIndexLe p q = true))).
  - intros p q H. unfold flip, Dexie.dateIndexLe in H.
    rewrite orb_true_iff, andb_true_iff, Z.ltb_lt, Z.eqb_eq in H. lia.
  - apply Sorted_reverse, sortBy_Sorted.
    intros p q. unfold Dexie.dateIndexLe.
    rewrite !orb_true_iff, !andb_true_iff, !Z.ltb_lt, !Z.eqb_eq, !N.leb_le. lia.
Qed.

Lemma orderByDateReverse_Permutation (db : Database) :
  snd <$> reverse (sortBy Dexie.dateIndexLe (map_to_list (recordings db)))
  ≡ₚ Dexie.rows db.
Proof.
  unfold Dexie.rows. apply fmap_Permutation.
  rewrite reverse_Permutation, !sortBy_Permutation. done.
Qed.

(** ** Queries *)

Lemma trim_allSpace (s : string) :
  JsString.allSpace s = true → JsString.trim s = EmptyString.
Proof.
  intros H. unfold JsString.trim.
  assert (JsString.trimStart s = EmptyString) as ->; [|done].
  induction s as [|c s IH]; simpl in *; [done|].
  apply andb_prop in H as [Hc Hs]. rewrite Hc. auto.
Qed.

(** C9.  A query that is empty or made of white space only does not filter:
    [searchRecordings] answers exactly what [getAllRecordings] answers,
    which, when the database answers, is every stored recording, newest
    first. *)
Theorem C9_blank_query_returns_all (query : string) (db : Database) :
  JsString.allSpace query = true →
  searchRecordings query db = getAllRecordings db ∧
  (failing db = false →
     ∃ l, searchRecordings query db = Normal l ∧
          l ≡ₚ Dexie.rows db ∧ newestFirstOrder l).
Proof.
  intros Hblank.
  assert (Heq : searchRecordings query db = getAllRecordings db).
  { unfold searchRecordings. by rewrite (trim_allSpace _ Hblank). }
  split; [done|]. intros Hok. rewrite Heq.
  unfold getAllRecordings, Dexie.orderByDateReverse. rewrite Hok.
  eexists. split; [done|]. split.
  - apply orderByDateReverse_Permutation.
  - apply orderByDateReverse_newestFirst.
Qed.

(** ** [filterRecordings] *)

Section FilterFacts.

Lemma filter_all {A} (P : A → Prop) `{!∀ x, Decision (P x)} (l : list A) :
  (∀ x, P x) → filter P l = l.
Proof.
  intros HP. induction l as [|x l IH]; [done|].
  rewrite filter_cons_True by done. by rewrite IH.
Qed.

Lemma filter_andb {A} (p q : A → bool) (l : list A) :
  filter (λ x, q x) (filter (λ x, p x) l) = filter (λ x, p x && q x) l.
Proof.
  rewrite list_filter_filter. apply list_filter_iff.
  intros x. rewrite andb_True. tauto.
Qed.

Variable filters : FilterOptions.t.

Lemma bySearchQuery_filter (l : list Recording.t) :
  bySearchQuery filters l = filter (λ rec, okSearchQuery filters rec) l.
Proof.
  unfold bySearchQuery, okSearchQuery.
  destruct (FilterOptions.searchQuery filters) as [q|];
    [destruct (JsString.truthy (JsString.trim q))|];
    try done; by rewrite filter_all.
Qed.

Lemma byTags_filter (l : list Recording.t) :
  byTags filters l = filter (λ rec, okTags filters rec) l.
Proof.
  unfold byTags, okTags.
  destruct (FilterOptions.tags filters) as [[|t ts]|];
    try done; by rewrite filter_all.
Qed.

Lemma byCategory_filter (l : list Recording.t) :
  byCategory filters l = filter (λ rec, okCategory filters rec) l.
Proof.
  unfold byCategory, okCategory.
  destruct (FilterOptions.category filters) as [c|];
    [destruct (JsString.truthy c)|]; try (by rewrite filter_all).
  apply list_filter_iff. intros x. by rewrite bool_decide_spec.
Qed.

Lemma byStatus_filter (l : list Recording.t) :
  byStatus filters l = filter (λ rec, okStatus filters rec) l.
Proof.
  unfold byStatus, okStatus.
  destruct (FilterOptions.status filters) as [s|]; [done | by rewrite filter_all].
Qed.

Lemma byIsStudied_filter (l : list Recording.t) :
  byIsStudied filters l = filter (λ rec, okIsStudied filters rec) l.
Proof.
  unfold byIsStudied, okIsStudied.
  destruct (FilterOptions.isStudied filters) as [b|]; [done | by rewrite filter_all].
Qed.

Lemma byPriority_filter (l : list Recording.t) :
  byPriority filters l = filter (λ rec, okPriority filters rec) l.
Proof.
  unfold byPriority, okPriority.
  destruct (FilterOptions.priority filters) as [p|]; [done | by rewrite filter_all].
Qed.

Lemma byDateRange_filter (l : list Recording.t) :
  byDateRange filters l = filter (λ rec, inDateRange filters rec) l.
Proof.
  unfold byDateRange, inDateRange.
  destruct (FilterOptions.dateFrom filters), (FilterOptions.dateTo filters);
    try done; by rewrite filter_all.
Qed.

(** The seven passes are one pass with the conjunction of the tests. *)
Lemma filterRecordings_run (db : Database) :
  failing db = false →
  filterRecordings filters db
  = Normal (sortBy newestFirst
              (filter (λ rec, meetsAll filters rec) (Dexie.rows db))).
Proof.
  intros Hok. unfold filterRecordings, Dexie.toArray. rewrite Hok.
  rewrite bySearchQuery_filter, byTags_filter, byCategory_filter,
    byStatus_filter, byIsStudied_filter, byPriority_filter, byDateRange_filter.
  rewrite (filter_andb _ (okTags filters)), (filter_andb _ (okCategory filters)),
    (filter_andb _ (okStatus filters)), (filter_andb _ (okIsStudied filters)),
    (filter_andb _ (okPriority filters)), (filter_andb _ (inDateRange filters)).
  reflexivity.
Qed.

Lemma someTagIn_iff (wanted : list string) (rec : Recording.t) :
  someTagIn wanted rec = true ↔
  ∃ ts tag, Recording.tags rec = Some ts ∧ tag ∈ ts ∧ tag ∈ wanted.
Proof.
  unfold someTagIn. destruct (Recording.tags rec) as [ts|].
  - rewrite existsb_exists. split.
    + intros (tag & Hin & Hw). exists ts, tag.
      apply bool_decide_eq_true in Hw. by rewrite list_elem_of_In.
    + intros (ts' & tag & [= <-] & Hin & Hw). exists tag.
      rewrite <- list_elem_of_In. by rewrite bool_decide_eq_true.
  - split; [done|]. by intros (ts & tag & H & _).
Qed.

Lemma meetsAll_iff (rec : Recording.t) :
  meetsAll filters rec = true ↔ meets filters rec.
Proof.
  unfold meetsAll, meets, okSearchQuery, okTags, okCategory, okStatus,
    okIsStudied, okPriority, inDateRange.
  rewrite !andb_true_iff.
  destruct filters as [sq tg cat st stu pri dfrom dto]; simpl.
  split.
  - intros ((((((Hq & Ht) & Hc) & Hs) & Hst) & Hp) & Hd1 & Hd2).
    repeat split.
    + intros q [= ->] Hne. destruct (JsString.trim q); [done | exact Hq].
    + intros wanted [= ->] Hne. destruct wanted as [|t ts]; [done|].
      by apply someTagIn_iff.
    + intros c [= ->] Hne. destruct c; [done|].
      by apply bool_decide_eq_true in Hc.
    + intros s [= ->]. by apply bool_decide_eq_true in Hs.
    + intros b [= ->]. by apply bool_decide_eq_true in Hst.
    + intros p [= ->]. by apply bool_decide_eq_true in Hp.
    + intros d [= ->]. lia.
    + intros d [= ->]. lia.
  - intros (Hq & Ht & Hc & Hs & Hst & Hp & Hd1 & Hd2).
    repeat split.
    + destruct sq as [q|]; [|done].
      destruct (JsString.trim q) eqn:Hq'; [done|]. simpl.
      apply Hq; [done|]. by rewrite Hq'.
    + destruct tg as [[|t ts]|]; try done.
      apply someTagIn_iff. by apply Ht.
    + destruct cat as [c|]; [|done]. destruct c as [|a c]; [done|]. simpl.
      apply bool_decide_eq_true. by apply Hc.
    + destruct st as [s|]; [|done]. apply bool_decide_eq_true. by apply Hs.
    + destruct stu as [b|]; [|done]. apply bool_decide_eq_true. by apply Hst.
    + destruct pri as [p|]; [|done]. apply bool_decide_eq_true. by apply Hp.
    + destruct dfrom as [d|]; [|done]. specialize (Hd1 d eq_refl). lia.
    + destruct dto as [d|]; [|done]. specialize (Hd2 d eq_refl). lia.
Qed.

Lemma filterRecordings_spec (db : Database) :
  failing db = false →
  ∃ l, filterRecordings filters db = Normal l ∧
       l ≡ₚ filter (λ rec, meetsAll filters rec) (Dexie.rows db) ∧
       (∀ rec, rec ∈ l ↔ rec ∈ Dexie.rows db ∧ meets filters rec) ∧
       newestFirstOrder l.
Proof.
  intros Hok. rewrite (filterRecordings_run db Hok).
  eexists. split; [done|]. split; [apply sortBy_Permutation|].
  split; [|apply sortBy_newestFirst].
  intros rec. rewrite sortBy_Permutation, list_elem_of_filter.
  rewrite <- meetsAll_iff. rewrite Is_true_true. tauto.
Qed.

End FilterFacts.

(** C7.  [filterRecordings] keeps exactly the stored records that meet every
    supplied criterion (AND), a record meeting the tag criterion when any one
    of its tags is wanted (OR), and lists them newest first.  In particular
    [filter({tags: ["physics"], isStudied: false})] answers exactly the
    records that carry the tag "physics" and whose [isStudied] is [false]; a
    record meeting one of the two only is left out. *)
Theorem C7_filter_and_or (db : Database) :
  failing db = false →
  (∀ filters,
     ∃ l, filterRecordings filters db = Normal l ∧
          l ≡ₚ filter (λ rec, meetsAll filters rec) (Dexie.rows db) ∧
          (∀ rec, rec ∈ l ↔ rec ∈ Dexie.rows db ∧ meets filters rec) ∧
          newestFirstOrder l) ∧
  (∃ l, filterRecordings physicsNotStudied db = Normal l ∧
        ∀ rec, rec ∈ l ↔
               rec ∈ Dexie.rows db ∧
               (∃ ts, Recording.tags rec = Some ts ∧ "physics" ∈ ts) ∧
               Recording.isStudied rec = Some false).
Proof.
  intros Hok. split.
  - intros filters. by apply filterRecordings_spec.
  - destruct (filterRecordings_spec physicsNotStudied db Hok)
      as (l & Hrun & _ & Hmem & _).
    exists l. split; [done|]. intros rec. rewrite Hmem.
    unfold meets, physicsNotStudied; simpl. split.
    + intros (Hin & _ & Ht & _ & _ & Hs & _).
      split; [done|]. split; [|by apply Hs].
      destruct (Ht ["physics"] eq_refl) as (ts & tag & Hts & Htag & Hw); [done|].
      exists ts. split; [done|]. apply list_elem_of_singleton in Hw. by subst.
    + intros (Hin & (ts & Hts & Hphys) & Hs). split; [done|].
      repeat split; try done.
      * intros wanted [= <-] _. exists ts, "physics".
        split; [done|]. split; [done|]. by apply list_elem_of_singleton.
      * by intros b [= <-].
Qed.
(** ** The world monad *)

Section WorldFacts.

Lemma bind_Normal {A B} (m : M A) (k : A → M B) (w w' : World) (v : A) :
  m w = (Normal v, w') → bind m k w = k v w'.
Proof. intros H. unfold bind. by rewrite H. Qed.

Lemma bind_Throw {A B} (m : M A) (k : A → M B) (w w' : World) (e : Thrown) :
  m w = (Throw e, w') → bind m k w = (Throw e, w').
Proof. intros H. unfold bind. by rewrite H. Qed.

Lemma awaitUpdate_stored (id : N) (updates : list Change) (w : World)
    (item : Recording.t) :
  stored id w item →
  ∃ n w',
    awaitUpdateRecording id updates w = (Normal n, w') ∧
    stored id w' (applyAll updates item) ∧
    ui w' = ui w ∧
    trace w' = trace w ++ [StoreUpdate id updates] ∧
    ∀ k, k ≠ id → recordings (db w') !! k = recordings (db w) !! k.
Proof.
  intros [Hok Hitem].
  destruct (updateRecording_found id updates (db w) item Hok Hitem)
    as (n & db' & Hrun & _ & Hok' & Hget & Hother).
  exists n. eexists. unfold awaitUpdateRecording, bind, emit. simpl.
  rewrite Hrun. split; [done|]. by repeat split.
Qed.

Lemma awaitUpdate_failing (id : N) (updates : list Change) (w : World) :
  failing (db w) = true →
  ∃ w', awaitUpdateRecording id updates w
        = (Throw (Error "Failed to update recording in database"), w') ∧
        db w' = db w.
Proof.
  intros Hf. eexists. unfold awaitUpdateRecording, bind, emit. simpl.
  rewrite (updateRecording_failing _ _ _ Hf). done.
Qed.

Lemma whisperCatch_isError (e : Thrown) : instanceofError (whisperCatch e) = true.
Proof.
  destruct e as [| m |[[|p]|] m| | |]; simpl; try done.
  - by destruct (JsString.includes m "fetch").
  - repeat (destruct p as [p|p|]; try done).
Qed.

Lemma claudeCatch_isError (e : Thrown) : instanceofError (claudeCatch e) = true.
Proof.
  destruct e as [| m |[[|p]|] m| | |]; simpl; try done.
  - by destruct (JsString.includes m "fetch").
  - repeat (destruct p as [p|p|]; try done).
Qed.

End WorldFacts.

(** ** The two clients *)

Section ClientFacts.

Variable whisper : File → string → Completion string.
Variable claude : string → string → Completion (list ContentBlock).

(** The test [sizeMB > 25] is a test on the byte count. *)
Lemma sizeMB_over (audioBlob : Blob.t) :
  negb (Qle_bool (sizeMB audioBlob) (inject_Z 25))
  = (maxBytes <? Blob.size audioBlob)%N.
Proof.
  unfold sizeMB, maxBytes.
  destruct (N.ltb_spec (25 * 1024 * 1024) (Blob.size audioBlob)) as [H|H].
  - apply negb_true_iff, not_true_iff_false. rewrite Qle_bool_iff.
    unfold Qle, Qdiv, Qmult, Qinv, inject_Z; simpl. lia.
  - apply negb_false_iff. rewrite Qle_bool_iff.
    unfold Qle, Qdiv, Qmult, Qinv, inject_Z; simpl. lia.
Qed.

Lemma transcribeAudio_run (audioBlob : Blob.t) (apiKey : string) (w : World) :
  transcribeAudio whisper audioBlob apiKey w =
  if (maxBytes <? Blob.size audioBlob)%N
  then (Throw (Error (tooLargeMessage audioBlob)), w)
  else
    let w1 := logged (WhisperRequest (audioFile audioBlob) apiKey) w in
    match whisper (audioFile audioBlob) apiKey with
    | Normal transcript =>
        if negb (JsString.truthy transcript)
           || JsString.isEmpty (JsString.trim transcript)
        then (Throw (Error "Transcription returned empty text. The audio may be inaudible or too short."), w1)
        else (Normal (JsString.trim transcript), w1)
    | Throw e => (Throw (whisperCatch e), w1)
    end.
Proof.
  unfold transcribeAudio, tryCatch. rewrite sizeMB_over.
  destruct (maxBytes <? Blob.size audioBlob)%N; [done|].
  unfold bind, callWhisper, bind, emit, logged; simpl.
  destruct (whisper (audioFile audioBlob) apiKey) as [transcript|e]; [|done].
  by destruct (negb (JsString.truthy transcript)
               || JsString.isEmpty (JsString.trim transcript)).
Qed.

Lemma generateNotes_run (transcript apiKey : string) (w : World) :
  generateNotes claude transcript apiKey w =
  if negb (JsString.truthy transcript)
     || JsString.isEmpty (JsString.trim transcript)
  then (Throw (Error "Cannot generate notes from empty transcript."), w)
  else
    let w1 := logged (ClaudeRequest (claudeUserContent transcript) apiKey) w in
    match claude (claudeUserContent transcript) apiKey with
    | Normal content =>
        if negb (JsString.truthy (blocksText content))
           || JsString.isEmpty (JsString.trim (blocksText content))
        then (Throw (Error "Claude returned empty notes. Please try again."), w1)
        else (Normal (JsString.trim (blocksText content)), w1)
    | Throw e => (Throw (claudeCatch e), w1)
    end.
Proof.
  unfold generateNotes, tryCatch.
  destruct (negb (JsString.truthy transcript)
            || JsString.isEmpty (JsString.trim transcript)); [done|].
  unfold bind, callClaude, bind, emit, logged; simpl.
  destruct (claude (claudeUserContent transcript) apiKey) as [content|e]; [|done].
  by destruct (negb (JsString.truthy (blocksText content))
               || JsString.isEmpty (JsString.trim (blocksText content))).
Qed.

Lemma transcribeAudio_throws_Error (audioBlob : Blob.t) (apiKey : string)
    (w w' : World) (e : Thrown) :
  transcribeAudio whisper audioBlob apiKey w = (Throw e, w') →
  instanceofError e = true.
Proof.
  rewrite transcribeAudio_run.
  destruct (maxBytes <? Blob.size audioBlob)%N; [by intros [= <- _]|].
  simpl. destruct (whisper _ _) as [t|e0].
  - destruct (_ || _); [by intros [= <- _] | done].
  - intros [= <- _]. apply whisperCatch_isError.
Qed.

Lemma generateNotes_throws_Error (transcript apiKey : string)
    (w w' : World) (e : Thrown) :
  generateNotes claude transcript apiKey w = (Throw e, w') →
  instanceofError e = true.
Proof.
  rewrite generateNotes_run.
  destruct (_ || _); [by intros [= <- _]|].
  simpl. destruct (claude _ _) as [c|e0].
  - destruct (_ || _); [by intros [= <- _] | done].
  - intros [= <- _]. apply claudeCatch_isError.
Qed.

End ClientFacts.

(** C4.  [transcribeAudio] lets a payload of exactly 25 MB through to the
    provider: the request is sent, and a non-blank answer is returned
    trimmed.  Any larger payload, be it by one byte, is rejected with the
    size-limit message and the world is left as it was: no request is
    sent. *)
Theorem C4_size_ceiling (whisper : File → string → Completion string)
    (audioBlob : Blob.t) (apiKey : string) (w : World) :
  (Blob.size audioBlob = (25 * 1024 * 1024)%N →
     ∃ c, transcribeAudio whisper audioBlob apiKey w
          = (c, {| db := db w; ui := ui w;
                   trace := trace w ++ [WhisperRequest (audioFile audioBlob) apiKey] |}) ∧
          ∀ transcript,
            whisper (audioFile audioBlob) apiKey = Normal transcript →
            JsString.trim transcript ≠ EmptyString →
            c = Normal (JsString.trim transcript)) ∧
  ((25 * 1024 * 1024 < Blob.size audioBlob)%N →
     transcribeAudio whisper audioBlob apiKey w
     = (Throw (Error (tooLargeMessage audioBlob)), w) ∧
     JsString.startsWith (tooLargeMessage audioBlob) "Audio file too large (" = true).
Proof.
  rewrite transcribeAudio_run. split.
  - intros ->. change (maxBytes <? 25 * 1024 * 1024)%N with false. simpl.
    destruct (whisper (audioFile audioBlob) apiKey) as [transcript|e].
    + destruct (negb (JsString.truthy transcript)
                || JsString.isEmpty (JsString.trim transcript)) eqn:Hblank.
      * eexists. split; [done|]. intros t [= <-] Hne.
        apply orb_prop in Hblank as [H|H].
        -- destruct transcript; [done | discriminate H].
        -- destruct (JsString.trim transcript); [done | discriminate H].
      * eexists. split; [done|]. by intros t [= <-] _.
    + eexists. split; [done|]. intros t H. discriminate H.
  - intros Hover. apply N.ltb_lt in Hover. unfold maxBytes. rewrite Hover.
    split; [reflexivity|]. unfold tooLargeMessage.
    generalize (toFixed1 (sizeMB audioBlob)). intros s. reflexivity.
Qed.

(** ** The workflow *)

Section HandlerFacts.

Variable whisper : File → string → Completion string.
Variable claude : string → string → Completion (list ContentBlock).
Variable openaiKey : option string.
Variable anthropicKey : option string.

Lemma stored_logged (id : N) (e : Event) (w : World) (item : Recording.t) :
  stored id w item → stored id (logged e w) item.
Proof. done. Qed.

Lemma notesStep_spec (id : N) (transcriptText : string) (w : World)
    (item : Recording.t) :
  stored id w item →
  ∃ c w' new item',
    notesStep claude anthropicKey id transcriptText w = (c, w') ∧
    trace w' = trace w ++ new ∧ quiet new ∧
    stored id w' item' ∧
    Recording.transcript item' = Recording.transcript item ∧
    (∀ k, k ≠ id → recordings (db w') !! k = recordings (db w) !! k) ∧
    (∀ e, c = Throw e → instanceofError e = true) ∧
    (c = Normal () →
       ∃ key notes,
         anthropicKey = Some key ∧
         new = [StoreUpdate id [SetStatus GeneratingNotes];
                ClaudeRequest (claudeUserContent transcriptText) key;
                StoreUpdate id [SetNotes (Some notes); SetStatus Complete]] ∧
         Recording.status item' = Complete ∧
         Recording.notes item' = Some notes).
Proof.
  intros Hst. unfold notesStep.
  assert (Hfail : ∀ m,
    ∃ c w' new item',
      (Throw (Error m) : Completion unit, w) = (c, w') ∧
      trace w' = trace w ++ new ∧ quiet new ∧ stored id w' item' ∧
      Recording.transcript item' = Recording.transcript item ∧
      (∀ k, k ≠ id → recordings (db w') !! k = recordings (db w) !! k) ∧
      (∀ e, c = Throw e → instanceofError e = true) ∧
      (c = Normal () →
         ∃ key notes,
           anthropicKey = Some key ∧
           new = [StoreUpdate id [SetStatus GeneratingNotes];
                  ClaudeRequest (claudeUserContent transcriptText) key;
                  StoreUpdate id [SetNotes (Some notes); SetStatus Complete]] ∧
           Recording.status item' = Complete ∧
           Recording.notes item' = Some notes)).
  { intros m. exists (Throw (Error m)), w, [], item.
    split; [done|]. split; [by rewrite app_nil_r|]. split; [constructor|].
    split; [done|]. split; [done|]. split; [done|].
    split; [by intros e [= <-] | done]. }
  destruct anthropicKey as [key|]; [|apply Hfail].
  destruct (JsString.truthy key); [|apply Hfail].
  destruct (negb (JsString.truthy transcriptText)
            || JsString.isEmpty (JsString.trim transcriptText)) eqn:Hblank;
    [apply Hfail|]. clear Hfail.
  destruct (awaitUpdate_stored id [SetStatus GeneratingNotes] w item Hst)
    as (n1 & w1 & Hrun1 & Hst1 & _ & Htr1 & Hoth1).
  rewrite (bind_Normal _ _ _ _ _ Hrun1).
  set (w2 := logged (ClaudeRequest (claudeUserContent transcriptText) key) w1).
  assert (Htr2 : trace w2 = trace w ++
            [StoreUpdate id [SetStatus GeneratingNotes];
             ClaudeRequest (claudeUserContent transcriptText) key]).
  { unfold w2, logged; simpl. rewrite Htr1. by rewrite <- app_assoc. }
  assert (Hq2 : quiet [StoreUpdate id [SetStatus GeneratingNotes];
                       ClaudeRequest (claudeUserContent transcriptText) key]).
  { by repeat constructor. }
  pose proof (stored_logged id
                (ClaudeRequest (claudeUserContent transcriptText) key) _ _ Hst1)
    as Hst2. fold w2 in Hst2.
  assert (Hgen : ∀ e, generateNotes claude transcriptText key w1 = (Throw e, w2) →
    ∃ c w' new item',
      bind (generateNotes claude transcriptText key)
        (λ notes, awaitUpdateRecording id
                    [SetNotes (Some notes); SetStatus Complete] >>
                  setShowNotes true) w1 = (c, w') ∧
      trace w' = trace w ++ new ∧ quiet new ∧ stored id w' item' ∧
      Recording.transcript item' = Recording.transcript item ∧
      (∀ k, k ≠ id → recordings (db w') !! k = recordings (db w) !! k) ∧
      (∀ e, c = Throw e → instanceofError e = true) ∧
      (c = Normal () →
         ∃ key0 notes,
           Some key = Some key0 ∧
           new = [StoreUpdate id [SetStatus GeneratingNotes];
                  ClaudeRequest (claudeUserContent transcriptText) key0;
                  StoreUpdate id [SetNotes (Some notes); SetStatus Complete]] ∧
           Recording.status item' = Complete ∧
           Recording.notes item' = Some notes)).
  { intros e Hrun. rewrite (bind_Throw _ _ _ _ _ Hrun).
    eexists _, _, _, _. split; [done|]. split; [exact Htr2|].
    split; [exact Hq2|]. split; [exact Hst2|]. split; [done|].
    split; [exact Hoth1|]. split; [|done].
    intros e' [= <-]. by eapply generateNotes_throws_Error. }
  pose proof (generateNotes_run claude transcriptText key w1) as Hg.
  rewrite Hblank in Hg. simpl in Hg. fold w2 in Hg.
  destruct (claude (claudeUserContent transcriptText) key) as [content|e0];
    [|by eapply Hgen].
  destruct (negb (JsString.truthy (blocksText content))
            || JsString.isEmpty (JsString.trim (blocksText content)));
    [by eapply Hgen|]. clear Hgen.
  rewrite (bind_Normal _ _ _ _ _ Hg).
  set (notes := JsString.trim (blocksText content)).
  destruct (awaitUpdate_stored id [SetNotes (Some notes); SetStatus Complete]
              w2 _ Hst2)
    as (n3 & w3 & Hrun3 & Hst3 & _ & Htr3 & Hoth3).
  rewrite (bind_Normal _ _ _ _ _ Hrun3).
  eexists _, _, _, _. split; [done|]. simpl.
  split; [rewrite Htr3, Htr2, <- app_assoc; reflexivity|].
  split; [by repeat constructor|].
  split; [exact Hst3|]. split; [done|].
  split; [intros k Hk; by rewrite Hoth3, Hoth1|].
  split; [done|]. intros _. by exists key, notes.
Qed.

(** When the credential is set, the transcript is not blank and the
    provider answers with text, step 2 completes. *)
Lemma notesStep_succeeds (id : N) (transcriptText key : string) (w : World)
    (item : Recording.t) (content : list ContentBlock) :
  stored id w item →
  anthropicKey = Some key → key ≠ EmptyString →
  JsString.trim transcriptText ≠ EmptyString →
  claude (claudeUserContent transcriptText) key = Normal content →
  JsString.trim (blocksText content) ≠ EmptyString →
  (notesStep claude anthropicKey id transcriptText w).1 = Normal ().
Proof.
  intros Hst Hkey Hk Ht Hc Hn. unfold notesStep. rewrite Hkey.
  assert (Hnb : ∀ s, JsString.trim s ≠ EmptyString →
            negb (JsString.truthy s) || JsString.isEmpty (JsString.trim s) = false).
  { intros s Hs. destruct s; [done|]. simpl.
    by destruct (JsString.trim (String _ _)). }
  destruct key; [done|]. change (JsString.truthy (String a key)) with true.
  cbv iota.
  rewrite (Hnb _ Ht).
  destruct (awaitUpdate_stored id [SetStatus GeneratingNotes] w item Hst)
    as (n1 & w1 & Hrun1 & Hst1 & _).
  rewrite (bind_Normal _ _ _ _ _ Hrun1).
  pose proof (generateNotes_run claude transcriptText (String a key) w1) as Hg.
  rewrite (Hnb _ Ht), Hc in Hg. simpl in Hg. rewrite (Hnb _ Hn) in Hg.
  rewrite (bind_Normal _ _ _ _ _ Hg).
  match type of Hg with
  | _ = (_, ?w2) => assert (Hst2 : stored id w2 (applyAll [SetStatus GeneratingNotes] item)) by done
  end.
  destruct (awaitUpdate_stored id
              [SetNotes (Some (JsString.trim (blocksText content)));
               SetStatus Complete] _ _ Hst2)
    as (n3 & w3 & Hrun3 & _).
  by rewrite (bind_Normal _ _ _ _ _ Hrun3).
Qed.

End HandlerFacts.

Section HandlerRuns.

Variable whisper : File → string → Completion string.
Variable claude : string → string → Completion (list ContentBlock).
Variable openaiKey : option string.
Variable anthropicKey : option string.

(** With a transcript at hand, step 1 does nothing. *)
Lemma transcriptionStep_skip (id : N) (recording : Recording.t) (w : World)
    (t : string) :
  Recording.transcript recording = Some t → t ≠ EmptyString →
  transcriptionStep whisper openaiKey id recording w = (Normal t, w).
Proof.
  intros Ht Hne. unfold transcriptionStep. rewrite Ht. simpl.
  by destruct t.
Qed.

(** Whatever step 1 does, the record stays in the store, and what it
    throws is an [Error]. *)
Lemma transcriptionStep_spec (id : N) (recording : Recording.t) (w : World)
    (item : Recording.t) :
  stored id w item →
  ∃ c w' item',
    transcriptionStep whisper openaiKey id recording w = (c, w') ∧
    stored id w' item' ∧
    ∀ e, c = Throw e → instanceofError e = true.
Proof.
  intros Hst. unfold transcriptionStep.
  destruct (negb (JsString.truthy (JsString.orEmpty (Recording.transcript recording)))).
  2:{ eexists _, _, _. split; [done|]. split; [exact Hst | done]. }
  assert (Hfail : ∀ m, ∃ c w' item',
    (Throw (Error m) : Completion string, w) = (c, w') ∧
    stored id w' item' ∧ ∀ e, c = Throw e → instanceofError e = true).
  { intros m. eexists _, _, _. split; [done|]. split; [exact Hst|].
    by intros e [= <-]. }
  destruct openaiKey as [key|]; [|apply Hfail].
  destruct (JsString.truthy key); [|apply Hfail]. clear Hfail.
  destruct (awaitUpdate_stored id [SetStatus Transcribing] w item Hst)
    as (n1 & w1 & Hrun1 & Hst1 & _).
  rewrite (bind_Normal _ _ _ _ _ Hrun1).
  destruct (transcribeAudio whisper (Recording.audioBlob recording) key w1)
    as [[t|e] w2] eqn:Hrun2.
  - assert (Hst2 : stored id w2 (applyAll [SetStatus Transcribing] item)).
    { rewrite transcribeAudio_run in Hrun2.
      destruct (maxBytes <? _)%N; [done|]. simpl in Hrun2.
      destruct (whisper _ _); [|done].
      destruct (_ || _); [done|]. by injection Hrun2 as _ <-. }
    rewrite (bind_Normal _ _ _ _ _ Hrun2).
    destruct (awaitUpdate_stored id
                [SetTranscript (Some t); SetStatus Transcribed] w2 _ Hst2)
      as (n3 & w3 & Hrun3 & Hst3 & _).
    rewrite (bind_Normal _ _ _ _ _ Hrun3).
    eexists _, _, _. split; [done|]. split; [exact Hst3 | done].
  - assert (Hst2 : stored id w2 (applyAll [SetStatus Transcribing] item)).
    { rewrite transcribeAudio_run in Hrun2.
      destruct (maxBytes <? _)%N; [by injection Hrun2 as _ <-|].
      simpl in Hrun2. destruct (whisper _ _).
      - destruct (_ || _); [by injection Hrun2 as _ <- | done].
      - by injection Hrun2 as _ <-. }
    rewrite (bind_Throw _ _ _ _ _ Hrun2).
    eexists _, _, _. split; [done|]. split; [exact Hst2|].
    intros e' [= <-]. by eapply transcribeAudio_throws_Error.
Qed.

Lemma tryBlock_spec (id : N) (recording : Recording.t) (w : World)
    (item : Recording.t) :
  stored id w item →
  ∃ c w' item',
    tryBlock whisper claude openaiKey anthropicKey id recording w = (c, w') ∧
    stored id w' item' ∧
    ∀ e, c = Throw e → instanceofError e = true.
Proof.
  intros Hst. unfold tryBlock.
  unfold bind at 1, setIsProcessing. unfold bind at 1, setProcessingError.
  match goal with
  | |- context [bind (transcriptionStep _ _ _ _) _ ?w0] => set (w1 := w0)
  end.
  assert (Hst1 : stored id w1 item) by done.
  destruct (transcriptionStep_spec id recording w1 item Hst1)
    as ([t|e] & w2 & item2 & Hrun2 & Hst2 & Herr2).
  - rewrite (bind_Normal _ _ _ _ _ Hrun2).
    destruct (notesStep_spec claude anthropicKey id t w2 item2 Hst2)
      as (c & w3 & new & item3 & Hrun3 & _ & _ & Hst3 & _ & _ & Herr3 & _).
    exists c, w3, item3. by rewrite Hrun3.
  - rewrite (bind_Throw _ _ _ _ _ Hrun2).
    exists (Throw e), w2, item2. split; [done|]. split; [done|].
    intros e' [= <-]. by apply Herr2.
Qed.

Lemma catchBlock_spec (id : N) (recording : Recording.t) (error : Thrown)
    (w : World) (item : Recording.t) :
  Recording.id recording = Some id → id ≠ 0%N → stored id w item →
  ∃ w',
    catchBlock recording error w = (Normal (), w') ∧
    stored id w'
      (applyAll [SetStatus StatusError;
                 SetErrorMessage (Some (recordedMessage error))] item) ∧
    trace w' = trace w ++
      [StoreUpdate id [SetStatus StatusError;
                       SetErrorMessage (Some (recordedMessage error))]] ∧
    processingError (ui w') = Some (recordedMessage error) ∧
    ∀ k, k ≠ id → recordings (db w') !! k = recordings (db w) !! k.
Proof.
  intros Hid Hnz Hst. unfold catchBlock. rewrite Hid.
  destruct id as [|p]; [done|].
  fold (recordedMessage error).
  unfold bind at 1, setProcessingError.
  match goal with
  | |- context [bind (awaitUpdateRecording _ _) _ ?w0] => set (w1 := w0)
  end.
  assert (Hst1 : stored (N.pos p) w1 item) by done.
  destruct (awaitUpdate_stored (N.pos p)
              [SetStatus StatusError;
               SetErrorMessage (Some (recordedMessage error))] w1 item Hst1)
    as (n & w2 & Hrun & Hst2 & Hui & Htr & Hoth).
  rewrite (bind_Normal _ _ _ _ _ Hrun).
  exists w2. split; [done|]. split; [done|]. split; [done|].
  split; [by rewrite Hui | done].
Qed.

End HandlerRuns.

Section HandlerTheorems.

Variable whisper : File → string → Completion string.
Variable claude : string → string → Completion (list ContentBlock).
Variable openaiKey : option string.
Variable anthropicKey : option string.

Lemma handleGenerateNotes_unfold (id : N) (recording : Recording.t) (w : World) :
  Recording.id recording = Some id → id ≠ 0%N →
  handleGenerateNotes whisper claude openaiKey anthropicKey recording w
  = tryFinally
      (tryCatch (tryBlock whisper claude openaiKey anthropicKey id recording)
                (catchBlock recording))
      (setIsProcessing false) w.
Proof.
  intros Hid Hnz. unfold handleGenerateNotes. rewrite Hid. by destruct id.
Qed.

Lemma tryBlock_with_transcript (id : N) (recording : Recording.t) (w : World)
    (t : string) :
  Recording.transcript recording = Some t → t ≠ EmptyString →
  tryBlock whisper claude openaiKey anthropicKey id recording w
  = notesStep claude anthropicKey id t (processingStarted w).
Proof.
  intros Ht Hne. unfold tryBlock.
  unfold bind at 1, setIsProcessing. unfold bind at 1, setProcessingError.
  simpl. fold (processingStarted w).
  by rewrite (bind_Normal _ _ _ _ _
                (transcriptionStep_skip whisper openaiKey id recording _ t Ht Hne)).
Qed.

End HandlerTheorems.

(** The handler has no check of its own: run on a complete record that has a
    transcript, without the button in between, it summarizes again and
    replaces the notes.  The component never runs it that way; the button
    below is its only caller. *)
Example handler_alone_summarizes_again :
  let w := Sample.world Sample.library in
  let w' := (handleGenerateNotes Sample.whisperHello Sample.claudeSummary
               (Some "sk-test") (Some "sk-ant-test") Sample.waves w).2 in
  Recording.status Sample.waves = Complete ∧
  recordings (db w) !! 3%N = Some Sample.waves ∧
  Recording.notes <$> recordings (db w') !! 3%N
    = Some (Some ("## Summary" +:+ String "010" "- point")) ∧
  Recording.notes <$> recordings (db w') !! 3%N
    ≠ Recording.notes <$> recordings (db w) !! 3%N.
Proof.
  vm_compute. repeat split; discriminate.
Qed.

(** C1.  Invoking the workflow on a complete record is blocked: the handler
    is reached through the "Generate Notes" button only, the button of a
    complete record is disabled, and the click leaves the store (so the
    record's status, transcript and notes), the component state and the
    trace as they were.  The block is the button's: the handler itself does
    not read the status. *)
Theorem C1_complete_blocked_at_button
    (whisper : File → string → Completion string)
    (claude : string → string → Completion (list ContentBlock))
    (openaiKey anthropicKey : option string)
    (recording : Recording.t) (w : World) :
  Recording.status recording = Complete →
  clickGenerateNotes whisper claude openaiKey anthropicKey recording w
    = (Normal (), w) ∧
  ∀ s, handleGenerateNotes whisper claude openaiKey anthropicKey
         (Recording.setStatus s recording) w
       = handleGenerateNotes whisper claude openaiKey anthropicKey recording w.
Proof.
  intros Hs. split.
  - unfold clickGenerateNotes, generateNotesDisabled. rewrite Hs.
    rewrite bool_decide_eq_true_2 by done. by rewrite orb_true_r.
  - intros s. reflexivity.
Qed.

(** C2.  On a stored record that has a non-empty transcript the workflow
    makes no Whisper request and writes neither a transcription status nor
    a transcript; the stored transcript is what it was; and when the [try]
    block completes, what happened is exactly: status [generating_notes]
    written, the notes provider called with the transcript, notes and
    status [complete] written. *)
Theorem C2_transcript_present_skips_transcription
    (whisper : File → string → Completion string)
    (claude : string → string → Completion (list ContentBlock))
    (openaiKey anthropicKey : option string)
    (id : N) (recording : Recording.t) (t : string) (w : World) :
  Recording.id recording = Some id → id ≠ 0%N →
  Recording.transcript recording = Some t → t ≠ EmptyString →
  stored id w recording →
  ∃ w' new item',
    handleGenerateNotes whisper claude openaiKey anthropicKey recording w
      = (Normal (), w') ∧
    trace w' = trace w ++ new ∧ quiet new ∧
    stored id w' item' ∧ Recording.transcript item' = Some t ∧
    ((tryBlock whisper claude openaiKey anthropicKey id recording w).1 = Normal () →
       ∃ key notes,
         anthropicKey = Some key ∧
         new = [StoreUpdate id [SetStatus GeneratingNotes];
                ClaudeRequest (claudeUserContent t) key;
                StoreUpdate id [SetNotes (Some notes); SetStatus Complete]] ∧
         Recording.status item' = Complete ∧
         Recording.notes item' = Some notes) ∧
    (∀ key content,
       anthropicKey = Some key → key ≠ EmptyString →
       JsString.trim t ≠ EmptyString →
       claude (claudeUserContent t) key = Normal content →
       JsString.trim (blocksText content) ≠ EmptyString →
       (tryBlock whisper claude openaiKey anthropicKey id recording w).1 = Normal ()).
Proof.
  intros Hid Hnz Ht Hne Hst.
  assert (Hsucc : ∀ key content,
       anthropicKey = Some key → key ≠ EmptyString →
       JsString.trim t ≠ EmptyString →
       claude (claudeUserContent t) key = Normal content →
       JsString.trim (blocksText content) ≠ EmptyString →
       (tryBlock whisper claude openaiKey anthropicKey id recording w).1 = Normal ()).
  { intros key content H1 H2 H3 H4 H5.
    rewrite (tryBlock_with_transcript _ _ _ _ id recording w t Ht Hne).
    by eapply (notesStep_succeeds claude anthropicKey id t key
                 (processingStarted w) recording content). }
  rewrite (handleGenerateNotes_unfold _ _ _ _ id) by done.
  rewrite (tryBlock_with_transcript _ _ _ _ id recording w t Ht Hne).
  unfold tryFinally, tryCatch.
  rewrite (tryBlock_with_transcript _ _ _ _ id recording w t Ht Hne).
  assert (Hst0 : stored id (processingStarted w) recording) by done.
  destruct (notesStep_spec claude anthropicKey id t _ recording Hst0)
    as ([[]|e] & w1 & new & item1 & Hrun & Htr & Hq & Hst1 & Htx & _ & _ & Hok).
  - rewrite (tryBlock_with_transcript _ _ _ _ id recording w t Ht Hne), Hrun in Hsucc.
    rewrite Hrun. simpl. eexists _, new, item1.
    split; [done|]. split; [done|]. split; [done|]. split; [done|].
    split; [by rewrite Htx|]. split; [|exact Hsucc]. intros _. by apply Hok.
  - rewrite (tryBlock_with_transcript _ _ _ _ id recording w t Ht Hne), Hrun in Hsucc.
    rewrite Hrun. simpl.
    destruct (catchBlock_spec id recording e w1 item1 Hid Hnz Hst1)
      as (w2 & Hrun2 & Hst2 & Htr2 & _).
    rewrite Hrun2. simpl. eexists _, _, _.
    split; [done|]. simpl.
    split; [rewrite Htr2, Htr, <- app_assoc; reflexivity|].
    split.
    { apply Forall_app. split; [done|]. by repeat constructor. }
    split; [exact Hst2|]. split; [simpl; by rewrite Htx|].
    split; [|exact Hsucc]. intros H. discriminate H.
Qed.
(** ** The capture service *)

Section RecorderFacts.
Import AudioRecorderOps.

(** Rounding a millisecond count to whole seconds. *)
Lemma mathRound_millis (x : Z) :
  mathRound (inject_Z x / inject_Z 1000) = (x + 500) / 1000.
Proof.
  unfold mathRound, Qfloor, Qplus, Qdiv, Qmult, Qinv, inject_Z; simpl.
  change (Z.pos (1 * 1000 * 2)) with (2 * 1000).
  replace (x * 1 * 2 + 1 * Z.pos (1 * 1000)) with (2 * (x + 500)) by lia.
  by rewrite Z.div_mul_cancel_l.
Qed.

(** A pause followed by a resume adds the gap to [pausedDuration] and
    touches nothing else that [stop] reads. *)
Lemma pauseResume_spec (pairs : list (Z * Z)) (r : AudioRecorder)
    (m : MediaRecorder) :
  mediaRecorder r = Some m → state m = StateRecording →
  ∃ r',
    pauseResume pairs r = (Normal (), r') ∧
    mediaRecorder r' = Some m ∧
    audioChunks r' = audioChunks r ∧
    startTime r' = startTime r ∧
    pausedDuration r' = pausedDuration r + pausedTotal pairs.
Proof.
  revert r. induction pairs as [|[p q] pairs IH]; intros r Hm Hs.
  - exists r. simpl. repeat split; try done. lia.
  - simpl. unfold pause at 1. rewrite Hm, Hs.
    unfold resume at 1. simpl.
    match goal with
    | |- context [pauseResume pairs ?r0] =>
        destruct (IH r0) as (r' & Hrun & Hm' & Hc' & Ht' & Hp')
    end.
    + simpl. unfold withState. rewrite <- Hs. by destruct m.
    + done.
    + exists r'. rewrite Hrun. simpl in *. repeat split; try done.
      rewrite Hp'. lia.
Qed.

End RecorderFacts.

Example scenario_E_reports_15_seconds :
  (AudioRecorderOps.stop 18000 (Blob.mk 512 "audio/webm")
     (AudioRecorderOps.pauseResume [(5000, 8000)]
        (AudioRecorderOps.start 0 Sample.readyRecorder).2).2).1
  = Resolved {| blob := Blob.mk 512 "audio/webm;codecs=opus";
                duration := 15;
                resultMimeType := "audio/webm;codecs=opus" |}.
Proof. reflexivity. Qed.

(** A pause that is never resumed adds nothing to [pausedDuration]: stopping
    3 s into a pause that began at 5 s reports 8 s. *)
Example stop_while_paused_counts_the_open_pause :
  (AudioRecorderOps.stop 8000 (Blob.mk 512 "audio/webm")
     (AudioRecorderOps.pause 5000
        (AudioRecorderOps.start 0 Sample.readyRecorder).2).2).1
  = Resolved {| blob := Blob.mk 512 "audio/webm;codecs=opus";
                duration := 8;
                resultMimeType := "audio/webm;codecs=opus" |}.
Proof. reflexivity. Qed.
(** ** The properties at concrete inputs *)

Lemma C1_complete_blocked_at_button_witness :
  clickGenerateNotes Sample.whisperHello Sample.claudeSummary
    (Some "sk-test") (Some "sk-ant-test") Sample.waves
    (Sample.world Sample.library)
  = (Normal (), Sample.world Sample.library) ∧
  ∀ s, handleGenerateNotes Sample.whisperHello Sample.claudeSummary
         (Some "sk-test") (Some "sk-ant-test")
         (Recording.setStatus s Sample.waves) (Sample.world Sample.library)
       = handleGenerateNotes Sample.whisperHello Sample.claudeSummary
           (Some "sk-test") (Some "sk-ant-test")
           Sample.waves (Sample.world Sample.library).
Proof.
  apply (C1_complete_blocked_at_button Sample.whisperHello Sample.claudeSummary
           (Some "sk-test") (Some "sk-ant-test") Sample.waves
           (Sample.world Sample.library)).
  reflexivity.
Defined.

Lemma C2_transcript_present_skips_transcription_witness :
  ∃ w' new item',
    handleGenerateNotes Sample.whisperHello Sample.claudeSummary
      (Some "sk-test") (Some "sk-ant-test") Sample.algebra
      (Sample.world Sample.library)
    = (Normal (), w') ∧
    trace w' = trace (Sample.world Sample.library) ++ new ∧ quiet new ∧
    stored 2 w' item' ∧
    Recording.transcript item' = Some "Groups and rings" ∧
    ((tryBlock Sample.whisperHello Sample.claudeSummary
        (Some "sk-test") (Some "sk-ant-test") 2 Sample.algebra
        (Sample.world Sample.library)).1 = Normal () →
       ∃ key notes,
         Some "sk-ant-test" = Some key ∧
         new = [StoreUpdate 2 [SetStatus GeneratingNotes];
                ClaudeRequest (claudeUserContent "Groups and rings") key;
                StoreUpdate 2 [SetNotes (Some notes); SetStatus Complete]] ∧
         Recording.status item' = Complete ∧
         Recording.notes item' = Some notes) ∧
    (∀ key content,
       Some "sk-ant-test" = Some key → key ≠ EmptyString →
       JsString.trim "Groups and rings" ≠ EmptyString →
       Sample.claudeSummary (claudeUserContent "Groups and rings") key
         = Normal content →
       JsString.trim (blocksText content) ≠ EmptyString →
       (tryBlock Sample.whisperHello Sample.claudeSummary
          (Some "sk-test") (Some "sk-ant-test") 2 Sample.algebra
          (Sample.world Sample.library)).1 = Normal ()).
Proof.
  apply (C2_transcript_present_skips_transcription
           Sample.whisperHello Sample.claudeSummary
           (Some "sk-test") (Some "sk-ant-test") 2 Sample.algebra
           "Groups and rings" (Sample.world Sample.library)).
  - reflexivity.
  - discriminate.
  - reflexivity.
  - discriminate.
  - split; reflexivity.
Defined.

(** The [try] block of the witness above does complete. *)
Example transcribed_record_is_summarized :
  (tryBlock Sample.whisperHello Sample.claudeSummary
     (Some "sk-test") (Some "sk-ant-test") 2 Sample.algebra
     (Sample.world Sample.library)).1 = Normal ().
Proof. vm_compute. reflexivity. Qed.

Example scenario_C_transcript_stays_unset :
  Recording.transcript <$>
    recordings (db (handleGenerateNotes Sample.whisperUnauthorized
                      Sample.claudeSummary (Some "sk-test") (Some "sk-ant-test")
                      Sample.optics (Sample.world Sample.library)).2) !! 1%N
  = Some None.
Proof. vm_compute. reflexivity. Qed.

(** Scenario B: a fresh recording, both providers answering. *)
Example scenario_B_ends_complete :
  let w' := (handleGenerateNotes Sample.whisperHello Sample.claudeSummary
               (Some "sk-test") (Some "sk-ant-test") Sample.untagged
               (Sample.world Sample.library)).2 in
  (λ r, (Recording.status r, Recording.transcript r, Recording.notes r))
    <$> recordings (db w') !! 4%N
  = Some (Complete, Some "Hello world",
          Some ("## Summary" +:+ String "010" "- point")).
Proof. vm_compute. reflexivity. Qed.

Lemma C4_size_ceiling_witness :
  (∃ c, transcribeAudio Sample.whisperHello (Blob.mk 26214400 "audio/webm")
          "sk-test" (Sample.world emptyDatabase)
        = (c, {| db := emptyDatabase; ui := Sample.idle;
                 trace := [WhisperRequest
                             (audioFile (Blob.mk 26214400 "audio/webm")) "sk-test"] |}) ∧
        ∀ transcript,
          Sample.whisperHello (audioFile (Blob.mk 26214400 "audio/webm")) "sk-test"
            = Normal transcript →
          JsString.trim transcript ≠ EmptyString →
          c = Normal (JsString.trim transcript)) ∧
  (transcribeAudio Sample.whisperHello (Blob.mk 26214401 "audio/webm")
     "sk-test" (Sample.world emptyDatabase)
   = (Throw (Error (tooLargeMessage (Blob.mk 26214401 "audio/webm"))),
      Sample.world emptyDatabase) ∧
   JsString.startsWith (tooLargeMessage (Blob.mk 26214401 "audio/webm"))
     "Audio file too large (" = true).
Proof.
  split.
  - apply (C4_size_ceiling Sample.whisperHello (Blob.mk 26214400 "audio/webm")
             "sk-test" (Sample.world emptyDatabase)).
    reflexivity.
  - apply (C4_size_ceiling Sample.whisperHello (Blob.mk 26214401 "audio/webm")
             "sk-test" (Sample.world emptyDatabase)).
    reflexivity.
Defined.

Example one_byte_over_message :
  tooLargeMessage (Blob.mk 26214401 "audio/webm")
  = "Audio file too large (25.0MB). Whisper API supports files up to 25MB. Consider recording shorter segments.".
Proof. vm_compute. reflexivity. Qed.

Lemma C5_update_recording_witness :
  ∃ n db' item',
    updateRecording 1 [SetTranscript (Some "Hello world"); SetStatus Transcribed]
      Sample.library = (Normal n, db') ∧
    (n = 0 ∨ n = 1)%N ∧
    getRecording 1 db' = Normal (Some item') ∧
    (NoDup (fieldOf <$> [SetTranscript (Some "Hello world"); SetStatus Transcribed]) →
       ∀ c, c ∈ [SetTranscript (Some "Hello world"); SetStatus Transcribed] →
            carries c item') ∧
    (∀ f, (∀ c, c ∈ [SetTranscript (Some "Hello world"); SetStatus Transcribed] →
                fieldOf c ≠ f) → sameOn f Sample.optics item') ∧
    Recording.id item' = Recording.id Sample.optics ∧
    (∀ k, k ≠ 1%N → recordings db' !! k = recordings Sample.library !! k).
Proof.
  apply (C5_update_recording 1
           [SetTranscript (Some "Hello world"); SetStatus Transcribed]
           Sample.library); reflexivity.
Defined.

(** The literal [{ errorMessage: undefined }] of the dismiss button deletes
    the property. *)
Example dismiss_deletes_errorMessage :
  let failed := Recording.setErrorMessage (Some "Network error.")
                  (Recording.setStatus StatusError Sample.optics) in
  Recording.errorMessage <$>
    recordings (updateRecording 1 [SetErrorMessage None]
                  (Sample.table [failed])).2 !! 1%N
  = Some None.
Proof. vm_compute. reflexivity. Qed.

(** C6 fails on the code: the query is lower-cased and trimmed but keeps its
    punctuation, while the search text of a record has none.  A record
    named "hello, world" is found by "hello world" in either case and is not
    found by its own name. *)
Lemma C6_punctuated_query_finds_nothing :
  let store := Sample.table [Sample.greeting] in
  searchRecordings "hello world" store = Normal [Sample.greeting] ∧
  searchRecordings "HELLO WORLD" store = Normal [Sample.greeting] ∧
  searchRecordings "hello, world" store = Normal [] ∧
  filterRecordings
    (FilterOptions.mk (Some "hello, world") None None None None None None None)
    store = Normal [].
Proof. vm_compute. repeat split; reflexivity. Qed.

Lemma C7_filter_and_or_witness :
  ∃ l, filterRecordings physicsNotStudied Sample.library = Normal l ∧
       ∀ rec, rec ∈ l ↔
              rec ∈ Dexie.rows Sample.library ∧
              (∃ ts, Recording.tags rec = Some ts ∧ "physics" ∈ ts) ∧
              Recording.isStudied rec = Some false.
Proof.
  apply (C7_filter_and_or Sample.library). reflexivity.
Defined.

(** Scenario D on the sample library: of the two records tagged "physics"
    one is studied, and the other record that is not studied is tagged
    "math". *)
Example scenario_D_keeps_optics_only :
  filterRecordings physicsNotStudied Sample.library = Normal [Sample.optics].
Proof. vm_compute. reflexivity. Qed.

Lemma C9_blank_query_returns_all_witness :
  searchRecordings (String "009" "  ") Sample.library
    = getAllRecordings Sample.library ∧
  (failing Sample.library = false →
     ∃ l, searchRecordings (String "009" "  ") Sample.library = Normal l ∧
          l ≡ₚ Dexie.rows Sample.library ∧ newestFirstOrder l).
Proof.
  apply (C9_blank_query_returns_all (String "009" "  ") Sample.library).
  reflexivity.
Defined.

Example blank_query_lists_the_library :
  searchRecordings "   " Sample.library
  = Normal [Sample.untagged; Sample.algebra; Sample.waves; Sample.optics].
Proof. vm_compute. reflexivity. Qed.

(** Scenario A. *)
Example scenario_A_empty_store : getAllRecordings emptyDatabase = Normal [].
Proof. reflexivity. Qed.

Lemma C10_key_validation_witness :
  validateOpenAIKey ("  " +:+ "sk-ant-api03" +:+ " ") = validateOpenAIKey "sk-ant-api03" ∧
  validateAnthropicKey ("  " +:+ "sk-ant-api03" +:+ " ")
    = validateAnthropicKey "sk-ant-api03" ∧
  validateOpenAIKey "sk-ant-api03" = true.
Proof.
  destruct (C10_key_validation "sk-ant-api03") as (_ & _ & Hws & Himp).
  destruct (Hws "  " " " eq_refl eq_refl) as [H1 H2].
  split; [exact H1|]. split; [exact H2|]. apply Himp. reflexivity.
Defined.

(** With a database that rejects every request the [catch] block cannot
    record the failure either: its own update throws and the handler
    rejects. *)
Example failing_store_rethrows :
  (handleGenerateNotes Sample.whisperHello Sample.claudeSummary
     None (Some "sk-ant-test") Sample.optics
     {| db := {| recordings := recordings Sample.library; failing := true |};
        ui := Sample.idle; trace := [] |}).1
  = Throw (Error "Failed to update recording in database").
Proof. vm_compute. reflexivity. Qed.
(** ** More on the string primitives *)

Section TrimFacts.
Import JsString.

Lemma trimStart_noLeadingSpace (s : string) : noLeadingSpace (trimStart s) = true.
Proof.
  induction s as [|c s IH]; simpl; [done|].
  destruct (isSpace c) eqn:Hc; [done|]. simpl. by rewrite Hc.
Qed.

Lemma trimStart_id (s : string) : noLeadingSpace s = true → trimStart s = s.
Proof.
  destruct s as [|c s]; simpl; [done|]. by destruct (isSpace c).
Qed.

Lemma trimEnd_noLeadingSpace (s : string) :
  noLeadingSpace s = true → noLeadingSpace (trimEnd s) = true.
Proof.
  destruct s as [|c s]; simpl; [done|].
  intros Hc. apply negb_true_iff in Hc. rewrite Hc. simpl. by rewrite Hc.
Qed.

Lemma trimEnd_idem (s : string) : trimEnd (trimEnd s) = trimEnd s.
Proof.
  induction s as [|c s IH]; simpl; [done|].
  destruct (isSpace c && isEmpty (trimEnd s)) eqn:H; [done|].
  simpl. by rewrite IH, H.
Qed.

Lemma trimEnd_noTrailingSpace (s : string) : noTrailingSpace (trimEnd s) = true.
Proof.
  induction s as [|c s IH]; simpl; [done|].
  destruct (isSpace c && isEmpty (trimEnd s)) eqn:H; [done|].
  simpl. destruct (trimEnd s) as [|d t] eqn:Ht; [|done].
  simpl in H. rewrite andb_true_r in H. by rewrite H.
Qed.

Lemma trim_idem (s : string) : trim (trim s) = trim s.
Proof.
  unfold trim.
  rewrite (trimStart_id (trimEnd (trimStart s))).
  - apply trimEnd_idem.
  - apply trimEnd_noLeadingSpace, trimStart_noLeadingSpace.
Qed.

Lemma trimStart_nil_allSpace (s : string) :
  trimStart s = EmptyString → allSpace s = true.
Proof.
  induction s as [|c s IH]; simpl; [done|].
  destruct (isSpace c); [done | discriminate].
Qed.

Lemma trimEnd_nil_allSpace (s : string) :
  trimEnd s = EmptyString → allSpace s = true.
Proof.
  induction s as [|c s IH]; simpl; [done|].
  destruct (isSpace c); simpl; [|discriminate].
  destruct (trimEnd s); simpl; [auto | discriminate].
Qed.

Lemma trim_nil_iff (s : string) :
  trim s = EmptyString ↔ allSpace s = true.
Proof.
  split; [|apply trim_allSpace].
  unfold trim. intros H. apply trimEnd_nil_allSpace in H.
  pose proof (trimStart_noLeadingSpace s) as Hl.
  destruct (trimStart s) as [|c t] eqn:Hs.
  - by apply trimStart_nil_allSpace.
  - simpl in H, Hl. apply andb_prop in H as [Hc _]. by rewrite Hc in Hl.
Qed.

Lemma lowerUnit_isSpace (c : ascii) : isSpace (lowerUnit c) = isSpace c.
Proof. by destruct c as [[] [] [] [] [] [] [] []]. Qed.

Lemma lowerUnit_idem (c : ascii) : lowerUnit (lowerUnit c) = lowerUnit c.
Proof. by destruct c as [[] [] [] [] [] [] [] []]. Qed.

Lemma toLowerCase_allSpace (s : string) :
  allSpace (toLowerCase s) = allSpace s.
Proof.
  induction s as [|c s IH]; simpl; [done|].
  by rewrite lowerUnit_isSpace, IH.
Qed.

Lemma toLowerCase_idem (s : string) : toLowerCase (toLowerCase s) = toLowerCase s.
Proof.
  induction s as [|c s IH]; simpl; [done|]. by rewrite lowerUnit_idem, IH.
Qed.

(** Whether a query is blank does not depend on its case. *)
Lemma blank_toLowerCase (s : string) :
  truthy (trim (toLowerCase s)) = truthy (trim s).
Proof.
  unfold truthy. f_equal.
  destruct (trim s) eqn:H1, (trim (toLowerCase s)) eqn:H2; try done.
  - apply trim_nil_iff in H1. rewrite <- toLowerCase_allSpace in H1.
    apply trim_nil_iff in H1. congruence.
  - apply trim_nil_iff in H2. rewrite toLowerCase_allSpace in H2.
    apply trim_nil_iff in H2. congruence.
Qed.

End TrimFacts.

(** ** The shape of a search text *)

Section SearchTextFacts.
Import JsString.

Lemma cleanUnit_shape (c : ascii) :
  let l := lowerUnit c in
  let d := if isWord l || isSpace l then l else " "%char in
  isSearchUnit d || isSpace d = true.
Proof. by destruct c as [[] [] [] [] [] [] [] []]. Qed.

Lemma cleanText_shape (s : string) :
  allUnits (λ d, isSearchUnit d || isSpace d) (cleanText s) = true.
Proof.
  unfold cleanText. induction s as [|c s IH]; simpl; [done|].
  rewrite IH, andb_true_r. apply cleanUnit_shape.
Qed.

Lemma collapseFrom_shape (b : bool) (s : string) :
  allUnits (λ d, isSearchUnit d || isSpace d) s = true →
  allUnits isSearchUnit (collapseFrom b s) = true.
Proof.
  revert b. induction s as [|c s IH]; intros b; simpl; [done|].
  intros [Hc Hs]%andb_prop. destruct (isSpace c) eqn:Hsp.
  - destruct b; simpl; auto.
  - simpl. rewrite orb_false_r in Hc. rewrite Hc. simpl. auto.
Qed.

Lemma singleSpaced_cons (a : ascii) (s : string) :
  singleSpaced (String a s) = true →
  singleSpaced s = true.
Proof.
  destruct s as [|b s]; [done|]. simpl. by intros [_ H]%andb_prop.
Qed.

Lemma singleSpaced_cons_intro (a : ascii) (s : string) :
  (isSpace a = true → noLeadingSpace s = true) →
  singleSpaced s = true → singleSpaced (String a s) = true.
Proof.
  destruct s as [|b s]; [done|]. intros Hl Hs.
  change (negb (isSpace a && isSpace b) && singleSpaced (String b s) = true).
  rewrite Hs, andb_true_r. destruct (isSpace a); [|done].
  simpl in *. specialize (Hl eq_refl). by apply negb_true_iff in Hl as ->.
Qed.

Lemma collapseFrom_singleSpaced (b : bool) (s : string) :
  singleSpaced (collapseFrom b s) = true ∧
  (b = true → noLeadingSpace (collapseFrom b s) = true).
Proof.
  revert b. induction s as [|c s IH]; intros b; simpl; [done|].
  destruct (isSpace c) eqn:Hsp.
  - destruct b.
    + apply IH.
    + split; [|done]. destruct (IH true) as [H1 H2].
      apply singleSpaced_cons_intro; auto.
  - split.
    + destruct (IH false) as [H1 _].
      apply singleSpaced_cons_intro; [by rewrite Hsp | done].
    + intros _. simpl. by rewrite Hsp.
Qed.

Lemma trimStart_allUnits (p : ascii → bool) (s : string) :
  allUnits p s = true → allUnits p (trimStart s) = true.
Proof.
  induction s as [|c s IH]; simpl; [done|].
  intros [Hc Hs]%andb_prop. destruct (isSpace c); [auto|].
  simpl. by rewrite Hc, Hs.
Qed.

Lemma trimEnd_allUnits (p : ascii → bool) (s : string) :
  allUnits p s = true → allUnits p (trimEnd s) = true.
Proof.
  induction s as [|c s IH]; simpl; [done|].
  intros [Hc Hs]%andb_prop.
  destruct (isSpace c && isEmpty (trimEnd s)); [done|].
  simpl. by rewrite Hc, IH.
Qed.

Lemma trimStart_singleSpaced (s : string) :
  singleSpaced s = true → singleSpaced (trimStart s) = true.
Proof.
  induction s as [|c s IH]; [done|]. intros H.
  simpl trimStart. destruct (isSpace c); [|done].
  by apply IH, (singleSpaced_cons c).
Qed.

Lemma trimEnd_head (s : string) (d : ascii) (t : string) :
  trimEnd s = String d t → ∃ s', s = String d s'.
Proof.
  destruct s as [|c s]; simpl; [done|].
  destruct (isSpace c && isEmpty (trimEnd s)); [done|].
  intros [= -> _]. by eexists.
Qed.

Lemma trimEnd_singleSpaced (s : string) :
  singleSpaced s = true → singleSpaced (trimEnd s) = true.
Proof.
  induction s as [|c s IH]; [done|]. intros H.
  simpl trimEnd. destruct (isSpace c && isEmpty (trimEnd s)); [done|].
  pose proof (IH (singleSpaced_cons c s H)) as IH'.
  destruct (trimEnd s) as [|d t] eqn:Ht; [done|].
  destruct (trimEnd_head s d t Ht) as [s' ->].
  change (negb (isSpace c && isSpace d) && singleSpaced (String d t) = true).
  rewrite IH', andb_true_r. simpl in H. by apply andb_prop in H as [H _].
Qed.

Lemma generateSearchText_parts (r : Recording.t) :
  generateSearchText r
  = trim (collapseSpaces (cleanText (join " " (searchParts r)))).
Proof. reflexivity. Qed.

Lemma generateSearchText_units (r : Recording.t) :
  allUnits isSearchUnit (generateSearchText r) = true.
Proof.
  rewrite generateSearchText_parts. unfold trim, collapseSpaces.
  apply trimEnd_allUnits, trimStart_allUnits, collapseFrom_shape, cleanText_shape.
Qed.

End SearchTextFacts.

Section SubstringFacts.
Import JsString.

Lemma allUnits_append (p : ascii → bool) (a b : string) :
  allUnits p (a +:+ b) = allUnits p a && allUnits p b.
Proof.
  induction a as [|c a IH]; [done|].
  rewrite append_cons. simpl. by rewrite IH, andb_assoc.
Qed.

Lemma includes_substring (s q : string) :
  includes s q = true → ∃ pre rest, s = pre +:+ q +:+ rest.
Proof.
  induction s as [|c s IH]; simpl.
  - rewrite orb_false_r. intros [rest ->]%startsWith_iff. by exists EmptyString, rest.
  - intros [H|H]%orb_prop.
    + apply startsWith_iff in H as [rest ->]. by exists EmptyString, rest.
    + destruct (IH H) as (pre & rest & ->). by exists (String c pre), rest.
Qed.

Lemma includes_allUnits (p : ascii → bool) (s q : string) :
  includes s q = true → allUnits p s = true → allUnits p q = true.
Proof.
  intros (pre & rest & ->)%includes_substring.
  rewrite !allUnits_append. intros Hall.
  apply andb_prop in Hall as [_ Hall]. by apply andb_prop in Hall as [Hq _].
Qed.

Lemma searchTextOf_shape (r : Recording.t) :
  searchTextGenerated r → allUnits isSearchUnit (searchTextOf r) = true.
Proof.
  unfold searchTextOf. intros [->|[r0 ->]].
  - apply generateSearchText_units.
  - destruct (truthy (generateSearchText r0)); apply generateSearchText_units.
Qed.

Lemma cleanText_append (a b : string) :
  cleanText (a +:+ b) = cleanText a +:+ cleanText b.
Proof.
  unfold cleanText. induction a as [|c a IH]; [done|].
  rewrite append_cons. simpl. rewrite IH. by rewrite append_cons.
Qed.

Lemma cleanText_join (parts : list string) :
  cleanText (join " " parts) = join " " (List.map cleanText parts).
Proof.
  induction parts as [|p [|p' rest] IH]; [done | done |].
  change (join " " (p :: p' :: rest)) with (p +:+ " " +:+ join " " (p' :: rest)).
  rewrite !cleanText_append, IH. reflexivity.
Qed.

Lemma cleanText_orEmpty (x : option string) :
  cleanText (orEmpty x) = orEmpty (option_map cleanText x).
Proof. by destruct x. Qed.

Lemma searchParts_clean (r r' : Recording.t) :
  sameWords r r' →
  List.map cleanText (searchParts r) = List.map cleanText (searchParts r').
Proof.
  intros (H1 & H2 & H3 & H4 & H5 & H6 & H7). unfold searchParts.
  rewrite !map_app. simpl. rewrite !cleanText_orEmpty. simpl.
  rewrite H1, H2, H3, H4, H5, H6. f_equal.
  destruct (Recording.tags r), (Recording.tags r'); simpl in *; congruence.
Qed.

Lemma matchesQuery_case (q q' : string) (r : Recording.t) :
  toLowerCase q = toLowerCase q' → matchesQuery q r = matchesQuery q' r.
Proof. intros H. unfold matchesQuery. by rewrite H. Qed.

Lemma blank_case (q q' : string) :
  toLowerCase q = toLowerCase q' → truthy (trim q) = truthy (trim q').
Proof.
  intros H. by rewrite <- (blank_toLowerCase q), <- (blank_toLowerCase q'), H.
Qed.

Lemma filter_none {A} (P : A → Prop) `{!∀ x, Decision (P x)} (l : list A) :
  (∀ x, x ∈ l → ¬ P x) → filter P l = [].
Proof.
  induction l as [|x l IH]; [done|]. intros Hno.
  rewrite filter_cons_False by (apply Hno; by left).
  apply IH. intros y Hy. apply Hno. by right.
Qed.

End SubstringFacts.

(** The search text [generateSearchText] builds is made of lower-case
    letters, digits, underscores and spaces only, with no space at either end
    and no two spaces in a row. *)
Theorem generateSearchText_normal_form (r : Recording.t) :
  allUnits isSearchUnit (generateSearchText r) = true ∧
  singleSpaced (generateSearchText r) = true ∧
  noLeadingSpace (generateSearchText r) = true ∧
  noTrailingSpace (generateSearchText r) = true.
Proof.
  split; [apply generateSearchText_units|].
  rewrite generateSearchText_parts.
  unfold JsString.trim, JsString.collapseSpaces.
  set (j := JsString.join " " (searchParts r)).
  split; [|split].
  - apply trimEnd_singleSpaced, trimStart_singleSpaced, collapseFrom_singleSpaced.
  - apply trimEnd_noLeadingSpace, trimStart_noLeadingSpace.
  - apply trimEnd_noTrailingSpace.
Qed.

(** Letter case and special characters in the searchable fields do not reach
    the search text: two recordings whose fields differ in those only have
    the same search text. *)
Theorem generateSearchText_ignores_case_and_punctuation (r r' : Recording.t) :
  sameWords r r' → generateSearchText r = generateSearchText r'.
Proof.
  intros H. rewrite !generateSearchText_parts, !cleanText_join.
  by rewrite (searchParts_clean r r' H).
Qed.

Lemma generateSearchText_ignores_case_and_punctuation_witness :
  generateSearchText (Sample.fresh 1 "Optics, PART 1!" 1000)
  = generateSearchText (Sample.fresh 1 "optics  part 1 " 1000).
Proof.
  apply (generateSearchText_ignores_case_and_punctuation
           (Sample.fresh 1 "Optics, PART 1!" 1000)
           (Sample.fresh 1 "optics  part 1 " 1000)).
  repeat split; reflexivity.
Defined.

(** Both searches treat two queries that differ in letter case alike. *)
Theorem search_ignores_query_case (q q' : string) (db : Database) :
  JsString.toLowerCase q = JsString.toLowerCase q' →
  searchRecordings q db = searchRecordings q' db ∧
  ∀ f, filterRecordings (withSearchQuery (Some q) f) db
       = filterRecordings (withSearchQuery (Some q') f) db.
Proof.
  intros H. split.
  - unfold searchRecordings. rewrite (blank_case q q' H).
    destruct (negb _); [done|]. destruct (Dexie.toArray db); [|done].
    f_equal. apply list_filter_iff. intros r.
    by rewrite (matchesQuery_case q q' r H).
  - intros f. unfold filterRecordings.
    destruct (Dexie.toArray db) as [l|]; [|done].
    assert (bySearchQuery (withSearchQuery (Some q) f) l
            = bySearchQuery (withSearchQuery (Some q') f) l) as Hq.
    { unfold bySearchQuery; simpl. rewrite (blank_case q q' H).
      destruct (JsString.truthy _); [|done].
      apply list_filter_iff. intros r. by rewrite (matchesQuery_case q q' r H). }
    cbv zeta. rewrite Hq. reflexivity.
Qed.

Lemma search_ignores_query_case_witness :
  searchRecordings "WAVES carry" Sample.library
    = searchRecordings "waves CARRY" Sample.library ∧
  ∀ f, filterRecordings (withSearchQuery (Some "WAVES carry") f) Sample.library
       = filterRecordings (withSearchQuery (Some "waves CARRY") f) Sample.library.
Proof.
  apply (search_ignores_query_case "WAVES carry" "waves CARRY" Sample.library).
  reflexivity.
Defined.

(** A query that, lower-cased and trimmed, holds a unit other than a lower-case
    letter, a digit, an underscore or a space finds nothing among recordings
    whose search text is generated: neither search returns a record. *)
Theorem query_with_special_character_finds_nothing
    (q : string) (db : Database) :
  failing db = false →
  (∀ r, r ∈ Dexie.rows db → searchTextGenerated r) →
  allUnits isSearchUnit (JsString.trim (JsString.toLowerCase q)) = false →
  searchRecordings q db = Normal [] ∧
  ∀ f, filterRecordings (withSearchQuery (Some q) f) db = Normal [].
Proof.
  intros Hok Hgen Hbad.
  assert (Hmatch : ∀ r, r ∈ Dexie.rows db → matchesQuery q r = false).
  { intros r Hr. apply not_true_iff_false. intros Hm.
    unfold matchesQuery in Hm.
    pose proof (includes_allUnits isSearchUnit _ _ Hm
                  (searchTextOf_shape r (Hgen r Hr))). congruence. }
  assert (Htruthy : JsString.truthy (JsString.trim q) = true).
  { rewrite <- blank_toLowerCase.
    by destruct (JsString.trim (JsString.toLowerCase q)). }
  split.
  - unfold searchRecordings, Dexie.toArray. rewrite Htruthy, Hok. simpl.
    f_equal. apply filter_none. intros r Hr. rewrite (Hmatch r Hr). by intros [].
  - intros f. rewrite (filterRecordings_run _ db Hok).
    rewrite filter_none; [done|].
    intros r Hr. unfold meetsAll, okSearchQuery; simpl.
    rewrite Htruthy, (Hmatch r Hr). by intros [].
Qed.

Lemma query_with_special_character_finds_nothing_witness :
  searchRecordings "Optics, part 1" Sample.library = Normal [] ∧
  ∀ f, filterRecordings (withSearchQuery (Some "Optics, part 1") f) Sample.library
       = Normal [].
Proof.
  apply (query_with_special_character_finds_nothing "Optics, part 1" Sample.library).
  - reflexivity.
  - intros r Hr. left. vm_compute in Hr.
    repeat (apply elem_of_cons in Hr as [->|Hr]; [reflexivity|]).
    by apply elem_of_nil in Hr.
  - reflexivity.
Defined.
(** ** More on the two clients *)

Section ClientResults.

Variable whisper : File → string → Completion string.
Variable claude : string → string → Completion (list ContentBlock).

Lemma nonblank_false (s : string) :
  negb (JsString.truthy s) || JsString.isEmpty (JsString.trim s) = false →
  JsString.trim s ≠ EmptyString.
Proof.
  intros H Ht. rewrite Ht in H. simpl in H. by rewrite orb_true_r in H.
Qed.

Lemma nonblank_intro (s : string) :
  JsString.trim s ≠ EmptyString →
  negb (JsString.truthy s) || JsString.isEmpty (JsString.trim s) = false.
Proof.
  intros Hs. destruct s; [done|]. simpl.
  by destruct (JsString.trim (String _ _)).
Qed.

Lemma blank_intro (s : string) :
  JsString.trim s = EmptyString →
  negb (JsString.truthy s) || JsString.isEmpty (JsString.trim s) = true.
Proof. intros ->. simpl. apply orb_true_r. Qed.

End ClientResults.

(** [generateNotes] refuses a transcript that is empty or white space only
    before it calls the provider: it throws and the world, trace included,
    is as it was. *)
Theorem generateNotes_rejects_blank_before_calling
    (claude : string → string → Completion (list ContentBlock))
    (transcript apiKey : string) (w : World) :
  JsString.allSpace transcript = true →
  generateNotes claude transcript apiKey w
  = (Throw (Error "Cannot generate notes from empty transcript."), w).
Proof.
  intros H. rewrite generateNotes_run.
  by rewrite (blank_intro _ (trim_allSpace _ H)).
Qed.

Lemma generateNotes_rejects_blank_before_calling_witness :
  generateNotes Sample.claudeSummary (String "009" "  ") "sk-ant-test"
    (Sample.world Sample.library)
  = (Throw (Error "Cannot generate notes from empty transcript."),
     Sample.world Sample.library).
Proof.
  apply (generateNotes_rejects_blank_before_calling Sample.claudeSummary
           (String "009" "  ") "sk-ant-test" (Sample.world Sample.library)).
  reflexivity.
Defined.

(** What [transcribeAudio] returns is never empty and carries no white space
    at either end, and it returns only after one request for a payload
    within the ceiling; what it throws is always an [Error], after at most
    one request. *)
Theorem transcribeAudio_outcomes
    (whisper : File → string → Completion string)
    (audioBlob : Blob.t) (apiKey : string) (w : World) :
  match transcribeAudio whisper audioBlob apiKey w with
  | (Normal t, w') =>
      t ≠ EmptyString ∧ JsString.trim t = t ∧
      (Blob.size audioBlob <= maxBytes)%N ∧
      w' = logged (WhisperRequest (audioFile audioBlob) apiKey) w
  | (Throw e, w') =>
      instanceofError e = true ∧
      (w' = w ∨ w' = logged (WhisperRequest (audioFile audioBlob) apiKey) w)
  end.
Proof.
  rewrite transcribeAudio_run.
  destruct (N.ltb_spec maxBytes (Blob.size audioBlob)) as [Hlt|Hle].
  { split; [done | by left]. }
  simpl. destruct (whisper (audioFile audioBlob) apiKey) as [t|e].
  - destruct (negb (JsString.truthy t) || JsString.isEmpty (JsString.trim t))
      eqn:Hb.
    + split; [done | by right].
    + split; [by apply nonblank_false|]. split; [apply trim_idem | done].
  - split; [apply whisperCatch_isError | by right].
Qed.

(** The same for [generateNotes]: the notes it returns are not empty and are
    trimmed; what it throws is always an [Error]; it calls the provider at
    most once. *)
Theorem generateNotes_outcomes
    (claude : string → string → Completion (list ContentBlock))
    (transcript apiKey : string) (w : World) :
  match generateNotes claude transcript apiKey w with
  | (Normal notes, w') =>
      notes ≠ EmptyString ∧ JsString.trim notes = notes ∧
      JsString.trim transcript ≠ EmptyString ∧
      w' = logged (ClaudeRequest (claudeUserContent transcript) apiKey) w
  | (Throw e, w') =>
      instanceofError e = true ∧
      (w' = w ∨ w' = logged (ClaudeRequest (claudeUserContent transcript) apiKey) w)
  end.
Proof.
  rewrite generateNotes_run.
  destruct (negb (JsString.truthy transcript)
            || JsString.isEmpty (JsString.trim transcript)) eqn:Ht.
  { split; [done | by left]. }
  simpl. destruct (claude (claudeUserContent transcript) apiKey) as [content|e].
  - destruct (negb (JsString.truthy (blocksText content))
              || JsString.isEmpty (JsString.trim (blocksText content))) eqn:Hb.
    + split; [done | by right].
    + split; [by apply nonblank_false|]. split; [apply trim_idem|].
      split; [by apply nonblank_false | done].
  - split; [apply claudeCatch_isError | by right].
Qed.
(** ** What the workflow leaves alone *)

Section FrameFacts.

Variable id : N.

Lemma touchesOnly_refl (w : World) : touchesOnly id w w.
Proof.
  split; [done|]. split; [done|]. split; [done|].
  exists []. by rewrite app_nil_r.
Qed.

Lemma touchesOnly_trans (w1 w2 w3 : World) :
  touchesOnly id w1 w2 → touchesOnly id w2 w3 → touchesOnly id w1 w3.
Proof.
  intros (Hf1 & Ho1 & Hd1 & new1 & Ht1 & Hn1) (Hf2 & Ho2 & Hd2 & new2 & Ht2 & Hn2).
  split; [congruence|]. split; [intros k Hk; by rewrite Ho2, Ho1|].
  split; [by rewrite Hd2|].
  exists (new1 ++ new2). split; [by rewrite Ht2, Ht1, app_assoc|].
  by apply Forall_app.
Qed.

Lemma touchesOnly_same_store (w w' : World) :
  db w' = db w → trace w' = trace w → touchesOnly id w w'.
Proof.
  intros Hd Ht. unfold touchesOnly. rewrite Hd, Ht.
  split; [done|]. split; [done|]. split; [done|].
  exists []. by rewrite app_nil_r.
Qed.

Lemma frames_ret {A} (v : A) : frames id (ret v).
Proof. intros w. apply touchesOnly_refl. Qed.

Lemma frames_throw {A} (e : Thrown) : frames id (throw (A:=A) e).
Proof. intros w. apply touchesOnly_refl. Qed.

Lemma frames_bind {A B} (m : M A) (k : A → M B) :
  frames id m → (∀ v, frames id (k v)) → frames id (bind m k).
Proof.
  intros Hm Hk w. unfold bind. specialize (Hm w).
  destruct (m w) as [[v|e] w1]; simpl in *; [|done].
  eapply touchesOnly_trans; [exact Hm | apply Hk].
Qed.

Lemma frames_tryCatch {A} (body : M A) (handler : Thrown → M A) :
  frames id body → (∀ e, frames id (handler e)) →
  frames id (tryCatch body handler).
Proof.
  intros Hb Hh w. unfold tryCatch. specialize (Hb w).
  destruct (body w) as [[v|e] w1]; simpl in *; [done|].
  eapply touchesOnly_trans; [exact Hb | apply Hh].
Qed.

Lemma frames_tryFinally {A} (body : M A) (finalizer : M unit) :
  frames id body → frames id finalizer → frames id (tryFinally body finalizer).
Proof.
  intros Hb Hf w. unfold tryFinally. specialize (Hb w).
  destruct (body w) as [c w1]. specialize (Hf w1).
  destruct (finalizer w1) as [[u|e] w2]; simpl in *;
    by eapply touchesOnly_trans.
Qed.

Lemma frames_emit (e : Event) : ownEvent id e → frames id (emit e).
Proof.
  intros He w. split; [done|]. split; [done|]. split; [done|].
  exists [e]. split; [done|]. by constructor.
Qed.

Lemma frames_setIsProcessing (b : bool) : frames id (setIsProcessing b).
Proof. intros w. by apply touchesOnly_same_store. Qed.

Lemma frames_setProcessingError (e : option string) :
  frames id (setProcessingError e).
Proof. intros w. by apply touchesOnly_same_store. Qed.

Lemma frames_setShowNotes (b : bool) : frames id (setShowNotes b).
Proof. intros w. by apply touchesOnly_same_store. Qed.

(** An update changes the row it names, if it is there, and nothing else. *)
Lemma updateRecording_frame (updates : list Change) (d : Database) :
  failing (updateRecording id updates d).2 = failing d ∧
  (∀ k, k ≠ id →
     recordings (updateRecording id updates d).2 !! k = recordings d !! k) ∧
  (is_Some (recordings (updateRecording id updates d).2 !! id)
   ↔ is_Some (recordings d !! id)).
Proof.
  unfold updateRecording, Dexie.update.
  destruct (failing d) eqn:Hf; [done|].
  destruct (recordings d !! id) as [item|] eqn:Hitem; simpl.
  2:{ split; [done|]. split; [done|]. by rewrite Hitem. }
  destruct (Dexie.modifier updates item) as [item' [|]]; simpl.
  - split; [done|]. split; [intros k Hk; by rewrite lookup_insert_ne|].
    rewrite lookup_insert_eq. split; eauto.
  - split; [done|]. split; [done|]. by rewrite Hitem.
Qed.

Lemma frames_awaitUpdate (updates : list Change) :
  forallb isWorkflowChange updates = true →
  frames id (awaitUpdateRecording id updates).
Proof.
  intros Hu. unfold awaitUpdateRecording. apply frames_bind.
  - by apply frames_emit.
  - intros _ w. destruct (updateRecording_frame updates (db w)) as (Hf & Ho & Hd).
    destruct (updateRecording id updates (db w)) as [c d'] eqn:Hrun.
    simpl in *. split; [done|]. split; [done|]. split; [done|].
    exists []. by rewrite app_nil_r.
Qed.

Variable whisper : File → string → Completion string.
Variable claude : string → string → Completion (list ContentBlock).
Variable openaiKey : option string.
Variable anthropicKey : option string.

Lemma frames_callWhisper (file : File) (apiKey : string) :
  frames id (callWhisper whisper file apiKey).
Proof.
  unfold callWhisper. apply frames_bind; [by apply frames_emit|].
  intros _ w. apply touchesOnly_refl.
Qed.

Lemma frames_callClaude (content apiKey : string) :
  frames id (callClaude claude content apiKey).
Proof.
  unfold callClaude. apply frames_bind; [by apply frames_emit|].
  intros _ w. apply touchesOnly_refl.
Qed.

Lemma frames_transcribeAudio (audioBlob : Blob.t) (apiKey : string) :
  frames id (transcribeAudio whisper audioBlob apiKey).
Proof.
  unfold transcribeAudio. apply frames_tryCatch; [|intros e; apply frames_throw].
  destruct (negb _); [apply frames_throw|].
  apply frames_bind; [apply frames_callWhisper|].
  intros t. destruct (_ || _); [apply frames_throw | apply frames_ret].
Qed.

Lemma frames_generateNotes (transcript apiKey : string) :
  frames id (generateNotes claude transcript apiKey).
Proof.
  unfold generateNotes. apply frames_tryCatch; [|intros e; apply frames_throw].
  destruct (_ || _); [apply frames_throw|].
  apply frames_bind; [apply frames_callClaude|].
  intros c. destruct (_ || _); [apply frames_throw | apply frames_ret].
Qed.

Lemma frames_transcriptionStep (recording : Recording.t) :
  frames id (transcriptionStep whisper openaiKey id recording).
Proof.
  unfold transcriptionStep. destruct (negb _); [|apply frames_ret].
  destruct openaiKey as [key|]; [|apply frames_throw].
  destruct (JsString.truthy key); [|apply frames_throw].
  apply frames_bind; [by apply frames_awaitUpdate|]. intros _.
  apply frames_bind; [apply frames_transcribeAudio|]. intros t.
  apply frames_bind; [by apply frames_awaitUpdate|]. intros _.
  apply frames_ret.
Qed.

Lemma frames_notesStep (transcriptText : string) :
  frames id (notesStep claude anthropicKey id transcriptText).
Proof.
  unfold notesStep. destruct anthropicKey as [key|]; [|apply frames_throw].
  destruct (JsString.truthy key); [|apply frames_throw].
  destruct (_ || _); [apply frames_throw|].
  apply frames_bind; [by apply frames_awaitUpdate|]. intros _.
  apply frames_bind; [apply frames_generateNotes|]. intros notes.
  apply frames_bind; [by apply frames_awaitUpdate|]. intros _.
  apply frames_setShowNotes.
Qed.

Lemma frames_tryBlock (recording : Recording.t) :
  frames id (tryBlock whisper claude openaiKey anthropicKey id recording).
Proof.
  unfold tryBlock.
  apply frames_bind; [apply frames_setIsProcessing|]. intros _.
  apply frames_bind; [apply frames_setProcessingError|]. intros _.
  apply frames_bind; [apply frames_transcriptionStep|]. intros t.
  apply frames_notesStep.
Qed.

Lemma frames_catchBlock (recording : Recording.t) (error : Thrown) :
  (∀ k, Recording.id recording = Some k → k ≠ 0%N → k = id) →
  frames id (catchBlock recording error).
Proof.
  intros Hid. unfold catchBlock.
  apply frames_bind; [apply frames_setProcessingError|]. intros _.
  destruct (Recording.id recording) as [[|p]|]; try apply frames_ret.
  rewrite (Hid (N.pos p) eq_refl) by done.
  apply frames_bind; [by apply frames_awaitUpdate | intros _; apply frames_ret].
Qed.

End FrameFacts.

(** Whatever the providers, the credentials and the state of the store,
    [handleGenerateNotes] leaves every row other than the recording's own as
    it was, creates and deletes no row, and writes to the store nothing but
    the status, transcript, notes and error message of that recording. *)
Theorem handleGenerateNotes_touches_own_row_only
    (whisper : File → string → Completion string)
    (claude : string → string → Completion (list ContentBlock))
    (openaiKey anthropicKey : option string)
    (id : N) (recording : Recording.t) (w : World) :
  Recording.id recording = Some id →
  touchesOnly id w
    (handleGenerateNotes whisper claude openaiKey anthropicKey recording w).2.
Proof.
  intros Hid. unfold handleGenerateNotes. rewrite Hid.
  destruct id as [|p]; [apply touchesOnly_refl|].
  apply frames_tryFinally; [|apply frames_setIsProcessing].
  apply frames_tryCatch; [apply frames_tryBlock|].
  intros e. apply frames_catchBlock. rewrite Hid. by intros k [= <-] _.
Qed.

Lemma handleGenerateNotes_touches_own_row_only_witness :
  touchesOnly 1 (Sample.world Sample.library)
    (handleGenerateNotes Sample.whisperHello Sample.claudeSummary
       (Some "sk-test") (Some "sk-ant-test") Sample.optics
       (Sample.world Sample.library)).2.
Proof.
  apply (handleGenerateNotes_touches_own_row_only
           Sample.whisperHello Sample.claudeSummary
           (Some "sk-test") (Some "sk-ant-test") 1 Sample.optics
           (Sample.world Sample.library)).
  reflexivity.
Defined.
(** ** The paths of the workflow *)

Section WorkflowPaths.

Variable whisper : File → string → Completion string.
Variable claude : string → string → Completion (list ContentBlock).
Variable openaiKey : option string.
Variable anthropicKey : option string.

Lemma orEmpty_truthy (r : Recording.t) :
  lacksTranscript r →
  negb (JsString.truthy (JsString.orEmpty (Recording.transcript r))) = true.
Proof. unfold lacksTranscript. by intros ->. Qed.

(** Step 1 when the provider answers with text. *)
Lemma transcriptionStep_success (id : N) (recording item : Recording.t)
    (w : World) (key text : string) :
  lacksTranscript recording → stored id w item →
  openaiKey = Some key → key ≠ EmptyString →
  (Blob.size (Recording.audioBlob recording) <= maxBytes)%N →
  whisper (audioFile (Recording.audioBlob recording)) key = Normal text →
  JsString.trim text ≠ EmptyString →
  ∃ w1,
    transcriptionStep whisper openaiKey id recording w
      = (Normal (JsString.trim text), w1) ∧
    stored id w1
      (applyAll [SetTranscript (Some (JsString.trim text)); SetStatus Transcribed]
         (applyAll [SetStatus Transcribing] item)) ∧
    ui w1 = ui w ∧
    trace w1 = trace w ++
      [StoreUpdate id [SetStatus Transcribing];
       WhisperRequest (audioFile (Recording.audioBlob recording)) key;
       StoreUpdate id [SetTranscript (Some (JsString.trim text));
                       SetStatus Transcribed]].
Proof.
  intros Hlack Hst Hkey Hk Hsize Hw Ht. unfold transcriptionStep.
  rewrite (orEmpty_truthy _ Hlack), Hkey.
  destruct key as [|a key]; [done|].
  change (JsString.truthy (String a key)) with true. cbv iota.
  destruct (awaitUpdate_stored id [SetStatus Transcribing] w item Hst)
    as (n1 & w1 & Hrun1 & Hst1 & Hui1 & Htr1 & _).
  rewrite (bind_Normal _ _ _ _ _ Hrun1).
  pose proof (transcribeAudio_run whisper (Recording.audioBlob recording)
                (String a key) w1) as Hrun2.
  apply N.ltb_ge in Hsize. rewrite Hsize, Hw in Hrun2. simpl in Hrun2.
  rewrite (nonblank_intro _ Ht) in Hrun2.
  rewrite (bind_Normal _ _ _ _ _ Hrun2).
  match type of Hrun2 with
  | _ = (_, ?w2) =>
      assert (Hst2 : stored id w2 (applyAll [SetStatus Transcribing] item)) by done;
      destruct (awaitUpdate_stored id
                  [SetTranscript (Some (JsString.trim text)); SetStatus Transcribed]
                  w2 _ Hst2)
        as (n3 & w3 & Hrun3 & Hst3 & Hui3 & Htr3 & _)
  end.
  rewrite (bind_Normal _ _ _ _ _ Hrun3).
  exists w3. split; [done|]. split; [done|].
  split; [by rewrite Hui3; simpl; rewrite Hui1|].
  rewrite Htr3. simpl. rewrite Htr1, <- !app_assoc. done.
Qed.

(** Step 2 when the provider answers with text. *)
Lemma notesStep_success (id : N) (item : Recording.t) (w : World)
    (key t : string) (content : list ContentBlock) :
  stored id w item →
  anthropicKey = Some key → key ≠ EmptyString →
  JsString.trim t ≠ EmptyString →
  claude (claudeUserContent t) key = Normal content →
  JsString.trim (blocksText content) ≠ EmptyString →
  ∃ w3,
    notesStep claude anthropicKey id t w = (Normal (), w3) ∧
    stored id w3
      (applyAll [SetNotes (Some (JsString.trim (blocksText content)));
                 SetStatus Complete]
         (applyAll [SetStatus GeneratingNotes] item)) ∧
    isProcessing (ui w3) = isProcessing (ui w) ∧
    processingError (ui w3) = processingError (ui w) ∧
    showNotes (ui w3) = true ∧
    trace w3 = trace w ++
      [StoreUpdate id [SetStatus GeneratingNotes];
       ClaudeRequest (claudeUserContent t) key;
       StoreUpdate id [SetNotes (Some (JsString.trim (blocksText content)));
                       SetStatus Complete]].
Proof.
  intros Hst Hkey Hk Ht Hc Hn. unfold notesStep. rewrite Hkey.
  destruct key as [|a key]; [done|].
  change (JsString.truthy (String a key)) with true. cbv iota.
  rewrite (nonblank_intro _ Ht).
  destruct (awaitUpdate_stored id [SetStatus GeneratingNotes] w item Hst)
    as (n1 & w1 & Hrun1 & Hst1 & Hui1 & Htr1 & _).
  rewrite (bind_Normal _ _ _ _ _ Hrun1).
  pose proof (generateNotes_run claude t (String a key) w1) as Hg.
  rewrite (nonblank_intro _ Ht), Hc in Hg. simpl in Hg.
  rewrite (nonblank_intro _ Hn) in Hg.
  rewrite (bind_Normal _ _ _ _ _ Hg).
  match type of Hg with
  | _ = (_, ?w2) =>
      assert (Hst2 : stored id w2 (applyAll [SetStatus GeneratingNotes] item)) by done;
      destruct (awaitUpdate_stored id
                  [SetNotes (Some (JsString.trim (blocksText content)));
                   SetStatus Complete] w2 _ Hst2)
        as (n3 & w3 & Hrun3 & Hst3 & Hui3 & Htr3 & _)
  end.
  rewrite (bind_Normal _ _ _ _ _ Hrun3).
  eexists. split; [done|]. simpl. split; [done|].
  rewrite Hui3. simpl. rewrite Hui1.
  split; [done|]. split; [done|]. split; [done|].
  rewrite Htr3. simpl. rewrite Htr1, <- !app_assoc. done.
Qed.

End WorkflowPaths.

Section WorkflowRuns.

Variable whisper : File → string → Completion string.
Variable claude : string → string → Completion (list ContentBlock).
Variable openaiKey : option string.
Variable anthropicKey : option string.

Lemma tryBlock_steps (id : N) (recording : Recording.t) (w : World) :
  tryBlock whisper claude openaiKey anthropicKey id recording w
  = bind (transcriptionStep whisper openaiKey id recording)
         (notesStep claude anthropicKey id) (processingStarted w).
Proof. reflexivity. Qed.

Lemma handle_run (id : N) (recording : Recording.t) (w : World) :
  Recording.id recording = Some id → id ≠ 0%N →
  handleGenerateNotes whisper claude openaiKey anthropicKey recording w
  = match tryBlock whisper claude openaiKey anthropicKey id recording w with
    | (Normal v, w1) => (Normal v, (setIsProcessing false w1).2)
    | (Throw e, w1) =>
        match catchBlock recording e w1 with
        | (c, w2) => (c, (setIsProcessing false w2).2)
        end
    end.
Proof.
  intros Hid Hnz.
  rewrite (handleGenerateNotes_unfold _ _ _ _ id) by done.
  unfold tryFinally, tryCatch.
  destruct (tryBlock _ _ _ _ _ _ _) as [[v|e] w1]; [done|].
  by destruct (catchBlock _ _ _) as [c w2].
Qed.

End WorkflowRuns.

(** A recording without transcript, both credentials set and both providers
    answering with text: the workflow writes [transcribing], asks Whisper,
    stores the trimmed transcript with [transcribed], writes
    [generating_notes], asks Claude with that transcript, stores the trimmed
    notes with [complete], and shows them.  An error message left by an
    earlier failure stays on the record. *)
Theorem workflow_from_recording_to_notes
    (whisper : File → string → Completion string)
    (claude : string → string → Completion (list ContentBlock))
    (openaiKey anthropicKey : option string)
    (id : N) (recording item : Recording.t) (w : World)
    (okey akey text : string) (content : list ContentBlock) :
  Recording.id recording = Some id → id ≠ 0%N →
  lacksTranscript recording → stored id w item →
  openaiKey = Some okey → okey ≠ EmptyString →
  anthropicKey = Some akey → akey ≠ EmptyString →
  (Blob.size (Recording.audioBlob recording) <= maxBytes)%N →
  whisper (audioFile (Recording.audioBlob recording)) okey = Normal text →
  JsString.trim text ≠ EmptyString →
  claude (claudeUserContent (JsString.trim text)) akey = Normal content →
  JsString.trim (blocksText content) ≠ EmptyString →
  ∃ w' item',
    handleGenerateNotes whisper claude openaiKey anthropicKey recording w
      = (Normal (), w') ∧
    stored id w' item' ∧
    Recording.status item' = Complete ∧
    Recording.transcript item' = Some (JsString.trim text) ∧
    Recording.notes item' = Some (JsString.trim (blocksText content)) ∧
    Recording.errorMessage item' = Recording.errorMessage item ∧
    ui w' = {| isProcessing := false; processingError := None;
               showNotes := true |} ∧
    trace w' = trace w ++
      [StoreUpdate id [SetStatus Transcribing];
       WhisperRequest (audioFile (Recording.audioBlob recording)) okey;
       StoreUpdate id [SetTranscript (Some (JsString.trim text));
                       SetStatus Transcribed];
       StoreUpdate id [SetStatus GeneratingNotes];
       ClaudeRequest (claudeUserContent (JsString.trim text)) akey;
       StoreUpdate id [SetNotes (Some (JsString.trim (blocksText content)));
                       SetStatus Complete]].
Proof.
  intros Hid Hnz Hlack Hst Hok Hokne Hak Hakne Hsize Hw Ht Hc Hn.
  rewrite (handle_run _ _ _ _ id) by done. rewrite tryBlock_steps.
  assert (Hst0 : stored id (processingStarted w) item) by done.
  destruct (transcriptionStep_success whisper openaiKey id recording item
              (processingStarted w) okey text Hlack Hst0 Hok Hokne Hsize Hw Ht)
    as (w1 & Hrun1 & Hst1 & Hui1 & Htr1).
  rewrite (bind_Normal _ _ _ _ _ Hrun1).
  assert (Htt : JsString.trim (JsString.trim text) ≠ EmptyString)
    by by rewrite trim_idem.
  destruct (notesStep_success claude anthropicKey id _ w1 akey
              (JsString.trim text) content Hst1 Hak Hakne Htt Hc Hn)
    as (w3 & Hrun3 & Hst3 & Hp3 & He3 & Hs3 & Htr3).
  rewrite Hrun3. eexists _, _. split; [done|]. simpl.
  split; [exact Hst3|]. split; [done|]. split; [done|]. split; [done|].
  split; [done|]. rewrite Hs3, He3, Hui1. simpl.
  split; [done|]. rewrite Htr3, Htr1, <- app_assoc. done.
Qed.

Lemma workflow_from_recording_to_notes_witness :
  ∃ w' item',
    handleGenerateNotes Sample.whisperHello Sample.claudeSummary
      (Some "sk-test") (Some "sk-ant-test") Sample.optics
      (Sample.world Sample.library) = (Normal (), w') ∧
    stored 1 w' item' ∧
    Recording.status item' = Complete ∧
    Recording.transcript item' = Some (JsString.trim "Hello world") ∧
    Recording.notes item'
      = Some (JsString.trim
                (blocksText [TextBlock "## Summary";
                             TextBlock (String "010" "- point")])) ∧
    Recording.errorMessage item' = Recording.errorMessage Sample.optics ∧
    ui w' = {| isProcessing := false; processingError := None;
               showNotes := true |} ∧
    trace w' = trace (Sample.world Sample.library) ++
      [StoreUpdate 1 [SetStatus Transcribing];
       WhisperRequest (audioFile (Recording.audioBlob Sample.optics)) "sk-test";
       StoreUpdate 1 [SetTranscript (Some (JsString.trim "Hello world"));
                      SetStatus Transcribed];
       StoreUpdate 1 [SetStatus GeneratingNotes];
       ClaudeRequest (claudeUserContent (JsString.trim "Hello world")) "sk-ant-test";
       StoreUpdate 1
         [SetNotes (Some (JsString.trim
                            (blocksText [TextBlock "## Summary";
                                         TextBlock (String "010" "- point")])));
          SetStatus Complete]].
Proof.
  apply (workflow_from_recording_to_notes
           Sample.whisperHello Sample.claudeSummary
           (Some "sk-test") (Some "sk-ant-test") 1 Sample.optics Sample.optics
           (Sample.world Sample.library) "sk-test" "sk-ant-test" "Hello world"
           [TextBlock "## Summary"; TextBlock (String "010" "- point")]);
    first [reflexivity | discriminate | split; reflexivity].
Defined.

(** No transcript and no OpenAI credential: the workflow calls neither
    provider and writes no [transcribing]; its one write records status
    [error] with the message that the key is not configured. *)
Theorem workflow_without_openai_key
    (whisper : File → string → Completion string)
    (claude : string → string → Completion (list ContentBlock))
    (openaiKey anthropicKey : option string)
    (id : N) (recording item : Recording.t) (w : World) :
  Recording.id recording = Some id → id ≠ 0%N →
  lacksTranscript recording → stored id w item →
  JsString.truthyOpt openaiKey = false →
  ∃ w' item',
    handleGenerateNotes whisper claude openaiKey anthropicKey recording w
      = (Normal (), w') ∧
    trace w' = trace w ++
      [StoreUpdate id [SetStatus StatusError;
                       SetErrorMessage (Some openaiKeyMissing)]] ∧
    stored id w' item' ∧
    Recording.status item' = StatusError ∧
    Recording.errorMessage item' = Some openaiKeyMissing ∧
    Recording.transcript item' = Recording.transcript item ∧
    Recording.notes item' = Recording.notes item ∧
    processingError (ui w') = Some openaiKeyMissing ∧
    isProcessing (ui w') = false.
Proof.
  intros Hid Hnz Hlack Hst Hkey.
  rewrite (handle_run _ _ _ _ id) by done. rewrite tryBlock_steps.
  assert (Hrun : transcriptionStep whisper openaiKey id recording
                   (processingStarted w)
                 = (Throw (Error openaiKeyMissing), processingStarted w)).
  { unfold transcriptionStep. rewrite (orEmpty_truthy _ Hlack).
    destruct openaiKey as [key|]; [|done]. simpl in Hkey. by rewrite Hkey. }
  rewrite (bind_Throw _ _ _ _ _ Hrun).
  assert (Hst0 : stored id (processingStarted w) item) by done.
  destruct (catchBlock_spec id recording (Error openaiKeyMissing) _ item
              Hid Hnz Hst0) as (w2 & Hrun2 & Hst2 & Htr2 & Hui2 & _).
  rewrite Hrun2. eexists _, _. split; [done|]. simpl.
  split; [exact Htr2|]. split; [exact Hst2|]. done.
Qed.

Lemma workflow_without_openai_key_witness :
  ∃ w' item',
    handleGenerateNotes Sample.whisperHello Sample.claudeSummary
      None (Some "sk-ant-test") Sample.optics (Sample.world Sample.library)
      = (Normal (), w') ∧
    trace w' = trace (Sample.world Sample.library) ++
      [StoreUpdate 1 [SetStatus StatusError;
                      SetErrorMessage (Some openaiKeyMissing)]] ∧
    stored 1 w' item' ∧
    Recording.status item' = StatusError ∧
    Recording.errorMessage item' = Some openaiKeyMissing ∧
    Recording.transcript item' = Recording.transcript Sample.optics ∧
    Recording.notes item' = Recording.notes Sample.optics ∧
    processingError (ui w') = Some openaiKeyMissing ∧
    isProcessing (ui w') = false.
Proof.
  apply (workflow_without_openai_key Sample.whisperHello Sample.claudeSummary
           None (Some "sk-ant-test") 1 Sample.optics Sample.optics
           (Sample.world Sample.library));
    first [reflexivity | discriminate | split; reflexivity].
Defined.

(** Once Whisper has answered with text, the trimmed transcript is on the
    record whatever note generation does next: the run ends with status
    [complete] or [error], and step 1 of a later run on the stored record
    returns that transcript without touching anything. *)
Theorem transcript_survives_failed_note_generation
    (whisper : File → string → Completion string)
    (claude : string → string → Completion (list ContentBlock))
    (openaiKey anthropicKey : option string)
    (id : N) (recording item : Recording.t) (w : World)
    (okey text : string) :
  Recording.id recording = Some id → id ≠ 0%N →
  lacksTranscript recording → stored id w item →
  openaiKey = Some okey → okey ≠ EmptyString →
  (Blob.size (Recording.audioBlob recording) <= maxBytes)%N →
  whisper (audioFile (Recording.audioBlob recording)) okey = Normal text →
  JsString.trim text ≠ EmptyString →
  ∃ w' item',
    handleGenerateNotes whisper claude openaiKey anthropicKey recording w
      = (Normal (), w') ∧
    stored id w' item' ∧
    Recording.transcript item' = Some (JsString.trim text) ∧
    (Recording.status item' = Complete ∨ Recording.status item' = StatusError) ∧
    ∀ whisper' key' w'',
      transcriptionStep whisper' key' id item' w''
      = (Normal (JsString.trim text), w'').
Proof.
  intros Hid Hnz Hlack Hst Hok Hokne Hsize Hw Ht.
  rewrite (handle_run _ _ _ _ id) by done. rewrite tryBlock_steps.
  assert (Hst0 : stored id (processingStarted w) item) by done.
  destruct (transcriptionStep_success whisper openaiKey id recording item
              (processingStarted w) okey text Hlack Hst0 Hok Hokne Hsize Hw Ht)
    as (w1 & Hrun1 & Hst1 & _).
  rewrite (bind_Normal _ _ _ _ _ Hrun1).
  destruct (notesStep_spec claude anthropicKey id (JsString.trim text) w1 _ Hst1)
    as ([[]|e] & w2 & new & item2 & Hrun2 & _ & _ & Hst2 & Htx & _ & _ & Hdone).
  - rewrite Hrun2. destruct (Hdone eq_refl) as (key & notes & _ & _ & Hs & _).
    eexists _, item2. split; [done|]. split; [exact Hst2|].
    split; [by rewrite Htx|]. split; [by left|].
    intros whisper' key' w''. apply transcriptionStep_skip; [by rewrite Htx | done].
  - rewrite Hrun2.
    destruct (catchBlock_spec id recording e w2 item2 Hid Hnz Hst2)
      as (w3 & Hrun3 & Hst3 & _).
    rewrite Hrun3. eexists _, _. split; [done|]. split; [exact Hst3|].
    simpl. split; [by rewrite Htx|]. split; [by right|].
    intros whisper' key' w''. apply transcriptionStep_skip; [|done].
    simpl. by rewrite Htx.
Qed.

Lemma transcript_survives_failed_note_generation_witness :
  ∃ w' item',
    handleGenerateNotes Sample.whisperHello Sample.claudeSummary
      (Some "sk-test") None Sample.optics (Sample.world Sample.library)
      = (Normal (), w') ∧
    stored 1 w' item' ∧
    Recording.transcript item' = Some (JsString.trim "Hello world") ∧
    (Recording.status item' = Complete ∨ Recording.status item' = StatusError) ∧
    ∀ whisper' key' w'',
      transcriptionStep whisper' key' 1 item' w''
      = (Normal (JsString.trim "Hello world"), w'').
Proof.
  apply (transcript_survives_failed_note_generation
           Sample.whisperHello Sample.claudeSummary (Some "sk-test") None
           1 Sample.optics Sample.optics (Sample.world Sample.library)
           "sk-test" "Hello world");
    first [reflexivity | discriminate | split; reflexivity].
Defined.
(** ** The rest of the store *)

Section RowsFacts.

Lemma elem_of_rows (d : Database) (r : Recording.t) :
  r ∈ Dexie.rows d ↔ ∃ k, recordings d !! k = Some r.
Proof.
  unfold Dexie.rows. rewrite list_elem_of_fmap. split.
  - intros ([k r'] & -> & Hin). exists k.
    rewrite sortBy_Permutation in Hin. by apply elem_of_map_to_list in Hin.
  - intros [k Hk]. exists (k, r). split; [done|].
    rewrite sortBy_Permutation. by apply elem_of_map_to_list.
Qed.

Lemma database_eta (d : Database) :
  {| recordings := recordings d; failing := failing d |} = d.
Proof. by destruct d. Qed.

Lemma StronglySorted_filter_list {A} (R : relation A) (P : A → Prop)
    `{!∀ x, Decision (P x)} (l : list A) :
  StronglySorted R l → StronglySorted R (filter P l).
Proof.
  induction 1 as [|x l Hs IH Hall]; [constructor|].
  rewrite filter_cons. destruct (decide (P x)); [|done].
  constructor; [done|]. apply Forall_forall. intros y Hy.
  apply list_elem_of_filter in Hy as [_ Hy].
  by apply (proj1 (Forall_forall _ _) Hall).
Qed.

End RowsFacts.

(** Deleting a recording: it is gone from the table and from every listing,
    the other rows stay, and deleting an id that is not there, or deleting
    twice, changes nothing and does not fail. *)
Theorem deleteRecording_removes_one_row (id : N) (d : Database) :
  failing d = false →
  ∃ d',
    deleteRecording id d = (Normal (), d') ∧
    getRecording id d' = Normal None ∧
    (∀ k, k ≠ id → recordings d' !! k = recordings d !! k) ∧
    (∀ r, r ∈ Dexie.rows d' ↔ ∃ k, k ≠ id ∧ recordings d !! k = Some r) ∧
    (recordings d !! id = None → d' = d) ∧
    deleteRecording id d' = (Normal (), d').
Proof.
  intros Hok. unfold deleteRecording, Dexie.delete. rewrite Hok.
  eexists. split; [done|]. simpl.
  split; [unfold getRecording, Dexie.get; simpl; by rewrite lookup_delete_eq|].
  split; [intros k Hk; by rewrite lookup_delete_ne|].
  split.
  { intros r. rewrite elem_of_rows. simpl. split.
    - intros [k Hk]. exists k. destruct (decide (k = id)) as [->|Hne].
      + by rewrite lookup_delete_eq in Hk.
      + by rewrite lookup_delete_ne in Hk.
    - intros (k & Hne & Hk). exists k. by rewrite lookup_delete_ne. }
  split.
  { intros Hnone. rewrite delete_id by done. rewrite <- Hok. apply database_eta. }
  rewrite (delete_id (base.delete id (recordings d))); [done|].
  apply lookup_delete_eq.
Qed.

Lemma deleteRecording_removes_one_row_witness :
  ∃ d',
    deleteRecording 3 Sample.library = (Normal (), d') ∧
    getRecording 3 d' = Normal None ∧
    (∀ k, k ≠ 3%N → recordings d' !! k = recordings Sample.library !! k) ∧
    (∀ r, r ∈ Dexie.rows d' ↔
          ∃ k, k ≠ 3%N ∧ recordings Sample.library !! k = Some r) ∧
    (recordings Sample.library !! 3%N = None → d' = Sample.library) ∧
    deleteRecording 3 d' = (Normal (), d').
Proof.
  apply (deleteRecording_removes_one_row 3 Sample.library). reflexivity.
Defined.

(** Saving a recording: the table hands out a key that was not in use and is
    not 0, the recording is read back under it with that key as its [id] and
    every other field as given, the other rows stay, and the generator stays
    ahead of the keys in use. *)
Theorem saveRecording_then_getRecording (recording : Recording.t)
    (s : KeyedStore) :
  failing (table s) = false → generatorAhead s →
  ∃ id s',
    saveRecording recording s = (Normal id, s') ∧
    id = keyGenerator s ∧ id ≠ 0%N ∧
    recordings (table s) !! id = None ∧
    getRecording id (table s') = Normal (Some (withId id recording)) ∧
    (∀ k, k ≠ id → recordings (table s') !! k = recordings (table s) !! k) ∧
    generatorAhead s' ∧
    (keyedById (table s) → keyedById (table s')).
Proof.
  intros Hok [Hpos Hahead].
  assert (Hfresh : recordings (table s) !! keyGenerator s = None).
  { destruct (recordings (table s) !! keyGenerator s) eqn:H; [|done].
    assert (keyGenerator s < keyGenerator s)%N by (apply Hahead; by rewrite H).
    lia. }
  unfold saveRecording, dexieAdd. rewrite Hok, Hfresh.
  eexists _, _. split; [done|]. split; [done|]. split; [lia|].
  split; [done|]. simpl.
  split; [unfold getRecording, Dexie.get; simpl; by rewrite lookup_insert_eq|].
  split; [intros k Hk; by rewrite lookup_insert_ne|].
  split.
  { split; simpl; [lia|]. intros k.
    destruct (decide (k = keyGenerator s)) as [->|Hne]; [lia|].
    rewrite lookup_insert_ne by done. intros H%Hahead. lia. }
  intros Hkeyed k r. simpl.
  destruct (decide (k = keyGenerator s)) as [->|Hne].
  - rewrite lookup_insert_eq. by intros [= <-].
  - rewrite lookup_insert_ne by done. apply Hkeyed.
Qed.

Lemma saveRecording_then_getRecording_witness :
  ∃ id s',
    saveRecording (Sample2.unsaved "Recording 5" 5000) Sample2.store
      = (Normal id, s') ∧
    id = 5%N ∧ id ≠ 0%N ∧
    recordings Sample.library !! id = None ∧
    getRecording id (table s')
      = Normal (Some (withId id (Sample2.unsaved "Recording 5" 5000))) ∧
    (∀ k, k ≠ id → recordings (table s') !! k = recordings Sample.library !! k) ∧
    generatorAhead s' ∧
    (keyedById Sample.library → keyedById (table s')).
Proof.
  apply (saveRecording_then_getRecording (Sample2.unsaved "Recording 5" 5000)
           Sample2.store).
  - reflexivity.
  - split; [reflexivity|]. simpl. intros k [r Hr].
    assert (Hin : (k, r) ∈ map_to_list (recordings Sample.library))
      by by apply elem_of_map_to_list.
    vm_compute in Hin.
    repeat (apply elem_of_cons in Hin as [[= -> _]|Hin]; [reflexivity|]).
    by apply elem_of_nil in Hin.
Defined.

(** [getRecordingsByCategory] answers the stored records of that category,
    and, for a category that is not the empty string, the records
    [filterRecordings] answers for that category alone, which it lists newest
    first. *)
Theorem getRecordingsByCategory_agrees_with_filter (c : string) (d : Database) :
  failing d = false → c ≠ EmptyString →
  ∃ l,
    getRecordingsByCategory c d = Normal l ∧
    (∀ r, r ∈ l ↔ r ∈ Dexie.rows d ∧ Recording.category r = Some c) ∧
    filterRecordings (categoryOnly c) d = Normal (sortBy newestFirst l).
Proof.
  intros Hok Hc. unfold getRecordingsByCategory, DexieIndex.whereCategoryEquals.
  rewrite Hok. eexists. split; [done|].
  split; [intros r; rewrite list_elem_of_filter; tauto|].
  rewrite (filterRecordings_run _ d Hok). do 2 f_equal.
  apply list_filter_iff. intros r.
  unfold meetsAll, okSearchQuery, okTags, okCategory, okStatus, okIsStudied,
    okPriority, inDateRange; simpl.
  destruct c; [done|]. simpl. rewrite !andb_true_r. by rewrite bool_decide_spec.
Qed.

Lemma getRecordingsByCategory_agrees_with_filter_witness :
  ∃ l,
    getRecordingsByCategory "Physics" Sample2.shelf = Normal l ∧
    (∀ r, r ∈ l ↔ r ∈ Dexie.rows Sample2.shelf
                  ∧ Recording.category r = Some "Physics") ∧
    filterRecordings (categoryOnly "Physics") Sample2.shelf
      = Normal (sortBy newestFirst l).
Proof.
  apply (getRecordingsByCategory_agrees_with_filter "Physics" Sample2.shelf);
    [reflexivity | discriminate].
Defined.

(** [getRecordingsByDateRange] answers the stored records dated from [start]
    to [finish], both included, oldest first; they are the records
    [filterRecordings] answers for that range alone. *)
Theorem getRecordingsByDateRange_agrees_with_filter (start finish : Z)
    (d : Database) :
  failing d = false →
  ∃ l l',
    getRecordingsByDateRange start finish d = Normal l ∧
    (∀ r, r ∈ l ↔ r ∈ Dexie.rows d ∧ start ≤ Recording.date r ≤ finish) ∧
    oldestFirstOrder l ∧
    filterRecordings (dateRangeOnly start finish) d = Normal l' ∧
    l' ≡ₚ l.
Proof.
  intros Hok. unfold getRecordingsByDateRange, DexieIndex.whereDateBetween.
  rewrite Hok. rewrite (filterRecordings_run _ d Hok).
  eexists _, _. split; [done|].
  assert (Hperm : snd <$> sortBy Dexie.dateIndexLe (map_to_list (recordings d))
                  ≡ₚ Dexie.rows d).
  { unfold Dexie.rows. apply fmap_Permutation. by rewrite !sortBy_Permutation. }
  split.
  { intros r. rewrite list_elem_of_filter, Hperm. tauto. }
  split.
  { apply StronglySorted_filter_list.
    apply Sorted_StronglySorted; [intros a b c; lia|].
    apply (Sorted_fmap _ (λ p q, Dexie.dateIndexLe p q = true)).
    - intros p q H. unfold Dexie.dateIndexLe in H.
      rewrite orb_true_iff, andb_true_iff, Z.ltb_lt, Z.eqb_eq in H. lia.
    - apply sortBy_Sorted. intros p q. unfold Dexie.dateIndexLe.
      rewrite !orb_true_iff, !andb_true_iff, !Z.ltb_lt, !Z.eqb_eq, !N.leb_le. lia. }
  split; [done|].
  rewrite sortBy_Permutation, Hperm.
  erewrite list_filter_iff; [done|].
  intros r. unfold meetsAll, okSearchQuery, okTags, okCategory, okStatus,
    okIsStudied, okPriority, inDateRange; simpl.
  rewrite andb_True, !Is_true_true, !Z.leb_le. tauto.
Qed.

Lemma getRecordingsByDateRange_agrees_with_filter_witness :
  ∃ l l',
    getRecordingsByDateRange 2000 3000 Sample.library = Normal l ∧
    (∀ r, r ∈ l ↔ r ∈ Dexie.rows Sample.library
                  ∧ 2000 ≤ Recording.date r ≤ 3000) ∧
    oldestFirstOrder l ∧
    filterRecordings (dateRangeOnly 2000 3000) Sample.library = Normal l' ∧
    l' ≡ₚ l.
Proof.
  apply (getRecordingsByDateRange_agrees_with_filter 2000 3000 Sample.library).
  reflexivity.
Defined.

Example date_range_lists_oldest_first :
  getRecordingsByDateRange 2000 3000 Sample.library
  = Normal [Sample.waves; Sample.algebra].
Proof. vm_compute. reflexivity. Qed.

(** ** Tags, categories and the search text column *)

Section UpdateFacts.

Lemma Dexie_update_found (id : N) (updates : list Change) (d : Database)
    (item : Recording.t) :
  failing d = false → recordings d !! id = Some item →
  ∃ n d',
    Dexie.update id updates d = (Normal n, d') ∧
    failing d' = false ∧
    recordings d' !! id = Some (applyAll updates item) ∧
    ∀ k, k ≠ id → recordings d' !! k = recordings d !! k.
Proof.
  intros Hok Hitem. unfold Dexie.update. rewrite Hok, Hitem.
  destruct (modifier_spec updates item) as [H1 H2].
  destruct (Dexie.modifier updates item) as [item' [|]] eqn:Hm; simpl in *.
  - eexists _, _. split; [done|]. split; [done|]. simpl. split.
    + by rewrite lookup_insert_eq, H1.
    + intros k Hk. by rewrite lookup_insert_ne.
  - eexists _, _. split; [done|]. split; [done|].
    split; [|done]. by rewrite H2.
Qed.

End UpdateFacts.

(** After [updateSearchText] the stored search text of the record is the one
    generated from its fields, so searching reads the generated text; every
    other field and every other row is as before.  For an id that is not in
    the table nothing changes and nothing fails. *)
Theorem updateSearchText_refreshes_column (id : N) (d : Database) :
  failing d = false →
  (recordings d !! id = None → updateSearchText id d = (Normal (), d)) ∧
  (∀ item, recordings d !! id = Some item →
     ∃ d' item',
       updateSearchText id d = (Normal (), d') ∧
       recordings d' !! id = Some item' ∧
       Recording.searchText item' = Some (generateSearchText item) ∧
       generateSearchText item' = generateSearchText item ∧
       searchTextOf item' = generateSearchText item' ∧
       (∀ f, f ≠ FSearchText → sameOn f item item') ∧
       (∀ k, k ≠ id → recordings d' !! k = recordings d !! k)).
Proof.
  intros Hok. unfold updateSearchText, Dexie.get. rewrite Hok. split.
  - by intros ->.
  - intros item Hitem. rewrite Hitem.
    destruct (Dexie_update_found id
                [SetSearchText (Some (generateSearchText item))] d item Hok Hitem)
      as (n & d' & -> & _ & Hrow & Hrest).
    exists d', (applyAll [SetSearchText (Some (generateSearchText item))] item).
    split; [done|]. split; [done|]. split; [done|]. split; [done|].
    split.
    { unfold searchTextOf. simpl.
      by destruct (JsString.truthy (generateSearchText item)). }
    split; [|done].
    intros f Hf. destruct f; try done.
Qed.

Lemma updateSearchText_refreshes_column_witness :
  (recordings Sample.library !! 1%N = None →
   updateSearchText 1 Sample.library = (Normal (), Sample.library)) ∧
  (∀ item, recordings Sample.library !! 1%N = Some item →
     ∃ d' item',
       updateSearchText 1 Sample.library = (Normal (), d') ∧
       recordings d' !! 1%N = Some item' ∧
       Recording.searchText item' = Some (generateSearchText item) ∧
       generateSearchText item' = generateSearchText item ∧
       searchTextOf item' = generateSearchText item' ∧
       (∀ f, f ≠ FSearchText → sameOn f item item') ∧
       (∀ k, k ≠ 1%N → recordings d' !! k = recordings Sample.library !! k)).
Proof.
  apply (updateSearchText_refreshes_column 1 Sample.library). reflexivity.
Defined.

Section TagFacts.

Lemma setAdd_spec (set : list string) (x : string) :
  NoDup set →
  NoDup (setAdd set x) ∧ ∀ t, t ∈ setAdd set x ↔ t ∈ set ∨ t = x.
Proof.
  intros Hnd. unfold setAdd. case_bool_decide as Hx.
  - split; [done|]. intros t. split; [by left|]. by intros [?| ->].
  - split.
    + apply NoDup_app. split; [done|]. split; [|apply NoDup_singleton].
      by intros y Hy ->%list_elem_of_singleton.
    + intros t. by rewrite elem_of_app, list_elem_of_singleton.
Qed.

Lemma foldl_setAdd (xs set : list string) :
  NoDup set →
  NoDup (foldl setAdd set xs) ∧
  ∀ t, t ∈ foldl setAdd set xs ↔ t ∈ set ∨ t ∈ xs.
Proof.
  revert set. induction xs as [|x xs IH]; intros set Hnd; simpl.
  - split; [done|]. intros t. rewrite elem_of_nil. tauto.
  - destruct (setAdd_spec set x Hnd) as [Hnd' Hin].
    destruct (IH _ Hnd') as [Hnd'' Hin'']. split; [done|].
    intros t. rewrite Hin'', Hin, elem_of_cons. tauto.
Qed.

Lemma foldl_collect (g : Recording.t → list string) (recs : list Recording.t)
    (set : list string) :
  NoDup set →
  NoDup (foldl (λ set rec, foldl setAdd set (g rec)) set recs) ∧
  ∀ t, t ∈ foldl (λ set rec, foldl setAdd set (g rec)) set recs
       ↔ t ∈ set ∨ ∃ r, r ∈ recs ∧ t ∈ g r.
Proof.
  revert set. induction recs as [|r recs IH]; intros set Hnd; simpl.
  - split; [done|]. intros t. split; [by left|].
    intros [?|(r & Hr & _)]; [done|]. by apply elem_of_nil in Hr.
  - destruct (foldl_setAdd (g r) set Hnd) as [Hnd' Hin].
    destruct (IH _ Hnd') as [Hnd'' Hin'']. split; [done|].
    intros t. rewrite Hin'', Hin. split.
    + intros [[?|?]|(r' & Hr' & Ht)]; [by left| |].
      * right. exists r. split; [left|done].
      * right. exists r'. split; [by right|done].
    + intros [?|(r' & Hr' & Ht)]; [by left; left|].
      apply elem_of_cons in Hr' as [->|Hr']; [by left; right|].
      right. by exists r'.
Qed.

Lemma leb_trans (a b c : string) :
  String.leb a b = true → String.leb b c = true → String.leb a c = true.
Proof.
  intros H1 H2. apply Is_true_true. apply Is_true_true in H1, H2.
  change (String.le a c). by trans b.
Qed.

Lemma StronglySorted_strict (l : list string) :
  NoDup l → StronglySorted (λ a b, String.leb a b = true) l →
  ascendingStrings l.
Proof.
  intros Hnd Hs. induction Hs as [|x l Hs IH Hall]; [constructor|].
  apply NoDup_cons in Hnd as [Hx Hnd]. constructor; [by apply IH|].
  apply Forall_forall. intros y Hy. split.
  - by apply (proj1 (Forall_forall _ _) Hall).
  - by intros ->.
Qed.

Lemma sortStrings_ascending (l : list string) :
  NoDup l → ascendingStrings (sortStrings l).
Proof.
  intros Hnd. apply StronglySorted_strict.
  - unfold sortStrings. by rewrite sortBy_Permutation.
  - apply Sorted_StronglySorted.
    + intros a b c. apply leb_trans.
    + apply sortBy_Sorted. apply String.leb_total.
Qed.

Lemma categories_fold (recs : list Recording.t) (set : list string) :
  foldl (λ set rec,
           match Recording.category rec with
           | Some c => if JsString.truthy c then setAdd set c else set
           | None => set
           end) set recs
  = foldl (λ set rec, foldl setAdd set (categoryOf rec)) set recs.
Proof.
  revert set. induction recs as [|r recs IH]; intros set; simpl; [done|].
  rewrite IH. f_equal. unfold categoryOf.
  destruct (Recording.category r) as [c|]; [|done].
  by destruct (JsString.truthy c).
Qed.

End TagFacts.

(** [getAllTags] lists exactly the tags that some stored record carries, each
    once, in strictly ascending order of code units. *)
Theorem getAllTags_lists_each_tag_once (d : Database) :
  failing d = false →
  ∃ l,
    getAllTags d = Normal l ∧
    ascendingStrings l ∧
    NoDup l ∧
    ∀ t, t ∈ l ↔ ∃ r ts, r ∈ Dexie.rows d ∧ Recording.tags r = Some ts ∧ t ∈ ts.
Proof.
  intros Hok. unfold getAllTags, Dexie.toArray. rewrite Hok.
  destruct (foldl_collect tagsOf (Dexie.rows d) [] (NoDup_nil_2))
    as [Hnd Hin].
  eexists. split; [done|]. split; [by apply sortStrings_ascending|].
  split; [unfold sortStrings; by rewrite sortBy_Permutation|].
  intros t. unfold sortStrings. rewrite sortBy_Permutation.
  unfold tagsOf in Hin. rewrite Hin. split.
  - intros [H0|(r & Hr & Ht)]; [by apply elem_of_nil in H0|].
    destruct (Recording.tags r) as [ts|] eqn:Hts; simpl in Ht.
    + by exists r, ts.
    + by apply elem_of_nil in Ht.
  - intros (r & ts & Hr & Hts & Ht). right. exists r. split; [done|].
    by rewrite Hts.
Qed.

Lemma getAllTags_lists_each_tag_once_witness :
  ∃ l,
    getAllTags Sample2.shelf = Normal l ∧
    ascendingStrings l ∧
    NoDup l ∧
    ∀ t, t ∈ l ↔ ∃ r ts, r ∈ Dexie.rows Sample2.shelf
                         ∧ Recording.tags r = Some ts ∧ t ∈ ts.
Proof.
  apply (getAllTags_lists_each_tag_once Sample2.shelf). reflexivity.
Defined.

(** [getAllCategories] lists exactly the non-empty categories of the stored
    records, each once, in strictly ascending order of code units. *)
Theorem getAllCategories_lists_each_category_once (d : Database) :
  failing d = false →
  ∃ l,
    getAllCategories d = Normal l ∧
    ascendingStrings l ∧
    NoDup l ∧
    ∀ c, c ∈ l ↔ c ≠ EmptyString
                 ∧ ∃ r, r ∈ Dexie.rows d ∧ Recording.category r = Some c.
Proof.
  intros Hok. unfold getAllCategories, Dexie.toArray. rewrite Hok.
  rewrite categories_fold.
  destruct (foldl_collect categoryOf (Dexie.rows d) [] (NoDup_nil_2))
    as [Hnd Hin].
  eexists. split; [done|]. split; [by apply sortStrings_ascending|].
  split; [unfold sortStrings; by rewrite sortBy_Permutation|].
  intros c. unfold sortStrings. rewrite sortBy_Permutation, Hin. split.
  - intros [H0|(r & Hr & Hc)]; [by apply elem_of_nil in H0|].
    unfold categoryOf in Hc.
    destruct (Recording.category r) as [c'|] eqn:Hcat;
      [|by apply elem_of_nil in Hc].
    destruct c' as [|a c']; simpl in Hc; [by apply elem_of_nil in Hc|].
    apply list_elem_of_singleton in Hc as ->. split; [done|]. by exists r.
  - intros (Hne & r & Hr & Hcat). right. exists r. split; [done|].
    unfold categoryOf. rewrite Hcat. destruct c; [done|].
    simpl. apply list_elem_of_singleton. done.
Qed.

Lemma getAllCategories_lists_each_category_once_witness :
  ∃ l,
    getAllCategories Sample2.shelf = Normal l ∧
    ascendingStrings l ∧
    NoDup l ∧
    ∀ c, c ∈ l ↔ c ≠ EmptyString
                 ∧ ∃ r, r ∈ Dexie.rows Sample2.shelf
                        ∧ Recording.category r = Some c.
Proof.
  apply (getAllCategories_lists_each_category_once Sample2.shelf). reflexivity.
Defined.

Section TagIndexFacts.

Lemma elem_of_tagEntries (d : Database) (t : string) (k : N) (r : Recording.t) :
  (t, (k, r)) ∈ DexieIndex.tagEntries d
  ↔ recordings d !! k = Some r ∧ t ∈ tagsOf r.
Proof.
  unfold DexieIndex.tagEntries, tagsOf.
  split.
  - intros Hin. apply list_elem_of_In in Hin.
    apply in_flat_map in Hin as ([k' r'] & Hp & Hin).
    apply list_elem_of_In in Hp. apply elem_of_map_to_list in Hp.
    apply list_elem_of_In in Hin.
    apply list_elem_of_fmap in Hin as (t' & Heq & Ht).
    injection Heq as -> -> ->.
    rewrite elem_of_remove_dups in Ht. split; [done|exact Ht].
  - intros [Hk Ht]. apply list_elem_of_In. apply in_flat_map.
    exists (k, r). split.
    + apply list_elem_of_In. by apply elem_of_map_to_list.
    + apply list_elem_of_In. apply list_elem_of_fmap. exists t. split; [done|].
      by rewrite elem_of_remove_dups.
Qed.

Lemma getRecordingsByTags_run (tags : list string) (d : Database) :
  failing d = false → tags ≠ [] →
  ∃ l,
    getRecordingsByTags tags d = Normal l ∧
    ∀ r, r ∈ l ↔ r ∈ Dexie.rows d ∧ hasSomeTag tags r.
Proof.
  intros Hok Hne. destruct tags as [|t0 tags']; [done|].
  unfold getRecordingsByTags, DexieIndex.whereTagsAnyOf. rewrite Hok.
  eexists. split; [done|]. intros r.
  rewrite list_elem_of_fmap, elem_of_rows. split.
  - intros ([t [k r']] & -> & Hin). simpl.
    apply list_elem_of_filter in Hin as [Hwanted Hin]. simpl in Hwanted.
    rewrite sortBy_Permutation in Hin.
    apply elem_of_tagEntries in Hin as [Hk Ht]. split; [by exists k|].
    unfold tagsOf in Ht.
    destruct (Recording.tags r') as [ts|] eqn:Hts; simpl in Ht.
    + by exists ts, t.
    + by apply elem_of_nil in Ht.
  - intros [[k Hk] (ts & t & Hts & Ht & Hwanted)].
    exists (t, (k, r)). split; [done|].
    apply list_elem_of_filter. split; [done|].
    rewrite sortBy_Permutation. apply elem_of_tagEntries. split; [done|].
    unfold tagsOf. by rewrite Hts.
Qed.

End TagIndexFacts.

(** On a database that answers, a record is in the answer of
    [getRecordingsByTags] exactly when it is stored and carries at least one
    of the wanted tags; with no tags the answer is the empty list, and the
    database is not asked, so that even one that rejects every request does
    not make the call fail. *)
Theorem getRecordingsByTags_any_tag (tags : list string) (d : Database) :
  failing d = false ∨ tags = [] →
  ∃ l,
    getRecordingsByTags tags d = Normal l ∧
    (tags = [] → l = []) ∧
    ∀ r, r ∈ l ↔ r ∈ Dexie.rows d ∧ hasSomeTag tags r.
Proof.
  intros Hcase. destruct (decide (tags = [])) as [->|Hne].
  { exists []. split; [done|]. split; [done|]. intros r. split.
    - by intros ?%elem_of_nil.
    - intros [_ (ts & t & _ & _ & Ht)]. by apply elem_of_nil in Ht. }
  destruct Hcase as [Hok|]; [|done].
  destruct (getRecordingsByTags_run tags d Hok Hne) as (l & Hl & Hin).
  exists l. split; [done|]. split; [done|]. exact Hin.
Qed.

Lemma getRecordingsByTags_any_tag_witness :
  ∃ l,
    getRecordingsByTags ["math"; "exam"] Sample2.shelf = Normal l ∧
    (["math"; "exam"] = [] → l = []) ∧
    ∀ r, r ∈ l ↔ r ∈ Dexie.rows Sample2.shelf ∧ hasSomeTag ["math"; "exam"] r.
Proof.
  apply (getRecordingsByTags_any_tag ["math"; "exam"] Sample2.shelf).
  left. reflexivity.
Defined.

(** The two ways to ask for tags: for a tag list that is not empty,
    [getRecordingsByTags] and [filterRecordings] with only that tag list
    answer the same records.  For the empty list they part:
    [getRecordingsByTags] answers nothing, [filterRecordings] every stored
    record. *)
Theorem tag_query_and_tag_filter (tags : list string) (d : Database) :
  failing d = false →
  ∃ l l',
    getRecordingsByTags tags d = Normal l ∧
    filterRecordings (tagsOnly tags) d = Normal l' ∧
    (tags ≠ [] → ∀ r, r ∈ l ↔ r ∈ l') ∧
    (tags = [] → l = [] ∧ l' ≡ₚ Dexie.rows d).
Proof.
  intros Hok. rewrite (filterRecordings_run _ d Hok).
  destruct (decide (tags = [])) as [->|Hne].
  - exists []. eexists. split; [done|]. split; [done|]. split; [done|].
    intros _. split; [done|]. rewrite sortBy_Permutation.
    by rewrite filter_all.
  - destruct (getRecordingsByTags_run tags d Hok Hne) as (l & Hl & Hin).
    exists l. eexists. split; [done|]. split; [done|]. split; [|done].
    intros _ r. rewrite Hin, sortBy_Permutation, list_elem_of_filter.
    unfold meetsAll, okSearchQuery, okTags, okCategory, okStatus,
      okIsStudied, okPriority, inDateRange; simpl.
    destruct tags as [|t0 tags']; [done|].
    rewrite !andb_true_r, Is_true_true, someTagIn_iff.
    unfold hasSomeTag. tauto.
Qed.

Lemma tag_query_and_tag_filter_witness :
  ∃ l l',
    getRecordingsByTags ["physics"] Sample2.shelf = Normal l ∧
    filterRecordings (tagsOnly ["physics"]) Sample2.shelf = Normal l' ∧
    (["physics"] ≠ [] → ∀ r, r ∈ l ↔ r ∈ l') ∧
    (["physics"] = [] → l = [] ∧ l' ≡ₚ Dexie.rows Sample2.shelf).
Proof.
  apply (tag_query_and_tag_filter ["physics"] Sample2.shelf). reflexivity.
Defined.

(** ** The upgrade to schema version 2 *)

Section UpgradeFacts.

Lemma upgrade_fold (l : list Recording.t) (d : Database) :
  failing d = false →
  NoDup (Recording.id <$> l) →
  (∀ r, r ∈ l → ∃ k, Recording.id r = Some k ∧ recordings d !! k = Some r) →
  ∃ d',
    foldl upgradeStep (Normal (), d) l = (Normal (), d') ∧
    failing d' = false ∧
    ∀ k, recordings d' !! k
         = if decide (Some k ∈ Recording.id <$> l)
           then upgraded <$> recordings d !! k
           else recordings d !! k.
Proof.
  revert d. induction l as [|r l IH]; intros d Hok Hnd Hrows.
  - exists d. split; [done|]. split; [done|]. intros k. simpl. done.
  - rewrite fmap_cons in Hnd. apply NoDup_cons in Hnd as [Hr Hnd].
    destruct (Hrows r) as (k & Hid & Hk); [left|].
    destruct (Dexie_update_found k (version2Updates r) d r Hok Hk)
      as (n & d1 & Hupd & Hok1 & Hrow & Hrest).
    destruct (IH d1 Hok1 Hnd) as (d' & Hfold & Hok' & Hlook).
    { intros r' Hr'. destruct (Hrows r') as (k' & Hid' & Hk'); [by right|].
      exists k'. split; [done|]. rewrite Hrest; [done|].
      intros ->. apply Hr. rewrite Hid, <- Hid'.
      apply list_elem_of_fmap. by exists r'. }
    exists d'. split.
    { simpl. rewrite Hid, Hupd. exact Hfold. }
    split; [done|]. intros j. rewrite Hlook, fmap_cons, Hid.
    destruct (decide (j = k)) as [->|Hne].
    + rewrite Hrow, Hk. rewrite Hid in Hr.
      rewrite (decide_False (P := Some k ∈ Recording.id <$> l)) by done.
      rewrite (decide_True (P := Some k ∈ Some k :: (Recording.id <$> l)))
        by left.
      done.
    + rewrite (Hrest j Hne).
      destruct (decide (Some j ∈ Recording.id <$> l)) as [Hin|Hnin].
      * rewrite (decide_True (P := Some j ∈ Some k :: (Recording.id <$> l)))
          by by right.
        done.
      * rewrite (decide_False (P := Some j ∈ Some k :: (Recording.id <$> l)));
          [done|].
        intros [[= ->]|Hin]%elem_of_cons; done.
Qed.

Lemma rows_ids (d : Database) :
  keyedById d →
  NoDup (Recording.id <$> Dexie.rows d) ∧
  ∀ k, Some k ∈ Recording.id <$> Dexie.rows d ↔ is_Some (recordings d !! k).
Proof.
  intros Hkeyed. split.
  - unfold Dexie.rows. rewrite <- list_fmap_compose.
    apply NoDup_fmap_2_strong.
    + intros [k1 r1] [k2 r2] H1 H2 Heq. simpl in Heq.
      rewrite sortBy_Permutation in H1, H2.
      apply elem_of_map_to_list in H1, H2.
      rewrite (Hkeyed _ _ H1), (Hkeyed _ _ H2) in Heq.
      injection Heq as ->. rewrite H1 in H2. by injection H2 as ->.
    + rewrite sortBy_Permutation. apply NoDup_map_to_list.
  - intros k. rewrite list_elem_of_fmap. split.
    + intros (r & Hid & Hr). apply elem_of_rows in Hr as [k' Hk'].
      rewrite (Hkeyed _ _ Hk') in Hid. injection Hid as ->. by exists r.
    + intros [r Hr]. exists r. split; [by rewrite (Hkeyed _ _ Hr)|].
      apply elem_of_rows. by exists k.
Qed.

End UpgradeFacts.

(** The upgrade to version 2 of a table keyed by [id] completes and rewrites
    every row, and only the four new columns of it: no tags, not studied,
    last modified at the recording date, and the search text generated from
    the row as it was.  No row is added or removed, and the identity, the
    audio, transcript, notes and status of every row are as before. *)
Theorem upgradeToVersion2_fills_new_columns (d : Database) :
  failing d = false → keyedById d →
  ∃ d',
    upgradeToVersion2 d = (Normal (), d') ∧
    (∀ k, recordings d' !! k = upgraded <$> recordings d !! k) ∧
    keyedById d' ∧
    ∀ k r, recordings d !! k = Some r →
      Recording.tags (upgraded r) = Some [] ∧
      Recording.isStudied (upgraded r) = Some false ∧
      Recording.lastModified (upgraded r) = Some (Recording.date r) ∧
      Recording.searchText (upgraded r) = Some (generateSearchText r) ∧
      ∀ f, f ∉ [FTags; FIsStudied; FLastModified; FSearchText] →
           sameOn f r (upgraded r).
Proof.
  intros Hok Hkeyed. destruct (rows_ids d Hkeyed) as [Hnd Hids].
  destruct (upgrade_fold (Dexie.rows d) d Hok Hnd) as (d' & Hfold & _ & Hlook).
  { intros r [k Hk]%elem_of_rows. exists k. split; [by apply Hkeyed|done]. }
  assert (Hall : ∀ k, recordings d' !! k = upgraded <$> recordings d !! k).
  { intros k. rewrite Hlook. case_decide as Hnin; [done|].
    destruct (recordings d !! k) as [r|] eqn:Hk; [|done].
    exfalso. apply Hnin, Hids. by rewrite Hk. }
  exists d'. split.
  { unfold upgradeToVersion2, Dexie.toArray. rewrite Hok. exact Hfold. }
  split; [done|]. split.
  { intros k r'. rewrite Hall.
    destruct (recordings d !! k) as [r|] eqn:Hk; [|done].
    intros [= <-]. exact (Hkeyed k r Hk). }
  intros k r Hk. repeat (split; [done|]).
  intros f Hf. destruct f; try done; exfalso; apply Hf;
    apply list_elem_of_In; simpl; tauto.
Qed.

Lemma upgradeToVersion2_fills_new_columns_witness :
  ∃ d',
    upgradeToVersion2 Sample.library = (Normal (), d') ∧
    (∀ k, recordings d' !! k = upgraded <$> recordings Sample.library !! k) ∧
    keyedById d' ∧
    ∀ k r, recordings Sample.library !! k = Some r →
      Recording.tags (upgraded r) = Some [] ∧
      Recording.isStudied (upgraded r) = Some false ∧
      Recording.lastModified (upgraded r) = Some (Recording.date r) ∧
      Recording.searchText (upgraded r) = Some (generateSearchText r) ∧
      ∀ f, f ∉ [FTags; FIsStudied; FLastModified; FSearchText] →
           sameOn f r (upgraded r).
Proof.
  apply (upgradeToVersion2_fills_new_columns Sample.library).
  - reflexivity.
  - intros k r Hr.
    assert (Hin : (k, r) ∈ map_to_list (recordings Sample.library))
      by by apply elem_of_map_to_list.
    vm_compute in Hin.
    repeat (apply elem_of_cons in Hin as [[= -> ->]|Hin]; [reflexivity|]).
    by apply elem_of_nil in Hin.
Defined.

(** ** The capture service, continued *)

Section RecorderFacts.
Import AudioRecorderOps.

Lemma totalSize_cons (c : Blob.t) (l : list Blob.t) :
  totalSize (c :: l) = (Blob.size c + totalSize l)%N.
Proof. reflexivity. Qed.

Lemma totalSize_app (a b : list Blob.t) :
  totalSize (a ++ b) = (totalSize a + totalSize b)%N.
Proof.
  induction a as [|c a IH]; [done|].
  rewrite <- app_comm_cons, !totalSize_cons, IH. lia.
Qed.

Lemma ondataavailable_spec (data : Blob.t) (r : AudioRecorder) :
  mediaRecorder (ondataavailable data r) = mediaRecorder r ∧
  stream (ondataavailable data r) = stream r ∧
  startTime (ondataavailable data r) = startTime r ∧
  pausedDuration (ondataavailable data r) = pausedDuration r ∧
  pauseStartTime (ondataavailable data r) = pauseStartTime r ∧
  totalSize (audioChunks (ondataavailable data r))
  = (totalSize (audioChunks r) + Blob.size data)%N.
Proof.
  unfold ondataavailable.
  destruct (N.ltb_spec 0 (Blob.size data)) as [Hpos|Hz]; simpl.
  - repeat (split; [done|]). rewrite totalSize_app, totalSize_cons.
    change (totalSize []) with 0%N. lia.
  - repeat (split; [done|]). lia.
Qed.

Lemma deliver_spec (datas : list Blob.t) (r : AudioRecorder) :
  mediaRecorder (deliver datas r) = mediaRecorder r ∧
  stream (deliver datas r) = stream r ∧
  startTime (deliver datas r) = startTime r ∧
  pausedDuration (deliver datas r) = pausedDuration r ∧
  pauseStartTime (deliver datas r) = pauseStartTime r ∧
  totalSize (audioChunks (deliver datas r))
  = (totalSize (audioChunks r) + totalSize datas)%N.
Proof.
  revert r. induction datas as [|data datas IH]; intros r.
  - simpl. repeat (split; [done|]). change (totalSize []) with 0%N. lia.
  - destruct (IH (ondataavailable data r)) as (H1 & H2 & H3 & H4 & H5 & H6).
    destruct (ondataavailable_spec data r) as (G1 & G2 & G3 & G4 & G5 & G6).
    change (deliver (data :: datas) r)
      with (deliver datas (ondataavailable data r)).
    rewrite H1, H2, H3, H4, H5, H6, G1, G2, G3, G4, G5, G6, totalSize_cons.
    repeat (split; [done|]). lia.
Qed.

End RecorderFacts.

Lemma initialize_cases (getUserMedia : Completion unit)
    (isTypeSupported : string → bool) (r : AudioRecorder) :
  match AudioRecorderOps.initialize getUserMedia isTypeSupported r with
  | (Normal _, r') =>
      stream r' = true ∧ audioChunks r' = audioChunks r ∧
      ∃ mime,
        mediaRecorder r' = Some {| state := StateInactive; mimeType := mime |}
  | (Throw e, r') =>
      uninitialized r' ∧ ∃ m, e = Error m ∧ m ∈ initializeMessages
  end.
Proof.
  unfold AudioRecorderOps.initialize.
  destruct getUserMedia as [[]|e].
  - destruct (List.find isTypeSupported AudioRecorderOps.mimeTypes); simpl.
    + split; [done|]. split; [done|]. by eexists.
    + split; [done|]. eexists. split; [done|]. right; right; by left.
  - simpl. destruct e as [m|m|st m|m|name m|]; simpl;
      try (split; [done|]; eexists; split; [done|]; right; right; by left).
    destruct (bool_decide (name = "NotAllowedError")
              || bool_decide (name = "PermissionDeniedError")); simpl;
      [|destruct (bool_decide (name = "NotFoundError")); simpl];
      (split; [done|]; eexists; split; [done|]);
      first [by left | right; by left | right; right; by left].
Qed.

(** [initialize] succeeds exactly when the microphone is granted and one of
    the three formats is supported; the recorder then holds the microphone
    and an inactive browser recorder for the first supported format in the
    order of preference.  In every other case it throws an [Error] with one
    of three messages, having released the microphone and dropped what it
    held; the message "No supported audio format found" never reaches the
    caller. *)
Theorem initialize_outcomes (getUserMedia : Completion unit)
    (isTypeSupported : string → bool) (r : AudioRecorder) :
  match AudioRecorderOps.initialize getUserMedia isTypeSupported r with
  | (Normal _, r') =>
      getUserMedia = Normal () ∧
      stream r' = true ∧
      audioChunks r' = audioChunks r ∧
      ∃ mime,
        mediaRecorder r' = Some {| state := StateInactive; mimeType := mime |} ∧
        mime ∈ AudioRecorderOps.mimeTypes ∧
        isTypeSupported mime = true ∧
        ∀ x, x ∈ preferredOver mime → isTypeSupported x = false
  | (Throw e, r') =>
      uninitialized r' ∧
      (getUserMedia = Normal () →
       ∀ x, x ∈ AudioRecorderOps.mimeTypes → isTypeSupported x = false) ∧
      ∃ m, e = Error m ∧ m ∈ initializeMessages
           ∧ m ≠ "No supported audio format found"
  end.
Proof.
  unfold AudioRecorderOps.initialize, AudioRecorderOps.mimeTypes.
  destruct getUserMedia as [[]|e].
  - simpl.
    destruct (isTypeSupported "audio/webm;codecs=opus") eqn:H1;
      [|destruct (isTypeSupported "audio/webm") eqn:H2;
        [|destruct (isTypeSupported "audio/ogg;codecs=opus") eqn:H3]]; simpl.
    + repeat (split; [done|]). eexists. split; [done|].
      split; [by left|]. split; [done|].
      intros x Hx. vm_compute in Hx. by apply elem_of_nil in Hx.
    + repeat (split; [done|]). eexists. split; [done|].
      split; [right; by left|]. split; [done|].
      intros x Hx. vm_compute in Hx.
      apply elem_of_cons in Hx as [->|Hx]; [done|]. by apply elem_of_nil in Hx.
    + repeat (split; [done|]). eexists. split; [done|].
      split; [right; right; by left|]. split; [done|].
      intros x Hx. vm_compute in Hx.
      apply elem_of_cons in Hx as [->|Hx]; [done|].
      apply elem_of_cons in Hx as [->|Hx]; [done|]. by apply elem_of_nil in Hx.
    + split; [done|]. split.
      * intros _ x Hx.
        repeat (apply elem_of_cons in Hx as [->|Hx]; [done|]).
        by apply elem_of_nil in Hx.
      * eexists. split; [done|]. split; [|done].
        right; right; by left.
  - assert (Hmsgs : ∀ m, m ∈ initializeMessages →
                      m ≠ "No supported audio format found").
    { intros m Hm.
      repeat (apply elem_of_cons in Hm as [->|Hm]; [done|]).
      by apply elem_of_nil in Hm. }
    simpl. destruct e as [m|m|st m|m|name m|]; simpl;
      try (split; [done|]; split; [done|]; eexists; split; [done|];
           split; [right; right; by left|done]).
    destruct (bool_decide (name = "NotAllowedError")
              || bool_decide (name = "PermissionDeniedError")); simpl;
      [|destruct (bool_decide (name = "NotFoundError")); simpl];
      (split; [done|]; split; [done|]; eexists; split; [done|]; split;
       [|apply Hmsgs]);
      first [by left | right; by left | right; right; by left].
Qed.

(** A recorder is spent by the [stop] that resolves: it holds nothing, its
    state reads as inactive, and every further [start], [pause], [resume] or
    [stop] fails as on a recorder that was never initialized. *)
Theorem recorder_is_spent_after_stop (now : Z) (lastData : Blob.t)
    (r : AudioRecorder) (m : MediaRecorder) :
  mediaRecorder r = Some m → state m ≠ StateInactive →
  ∃ res r',
    AudioRecorderOps.stop now lastData r = (Resolved res, r') ∧
    uninitialized r' ∧
    AudioRecorderOps.getState r' = StateInactive ∧
    (∀ t, AudioRecorderOps.start t r'
          = (Throw (Error "Recorder not initialized. Call initialize() first."), r')) ∧
    (∀ t, AudioRecorderOps.pause t r'
          = (Throw (Error "Recorder not initialized"), r')) ∧
    (∀ t, AudioRecorderOps.resume t r'
          = (Throw (Error "Recorder not initialized"), r')) ∧
    (∀ t d, AudioRecorderOps.stop t d r'
            = (Rejected (Error "Recorder not initialized"), r')).
Proof.
  intros Hm Hactive. unfold AudioRecorderOps.stop. rewrite Hm.
  destruct (state m) eqn:Hs; [done| |];
    (eexists _, _; split; [done|]; by repeat split).
Qed.

Lemma recorder_is_spent_after_stop_witness :
  ∃ res r',
    AudioRecorderOps.stop 20000 (Blob.mk 1200 "audio/webm")
      (AudioRecorderOps.start 5000 Sample.readyRecorder).2 = (Resolved res, r') ∧
    uninitialized r' ∧
    AudioRecorderOps.getState r' = StateInactive ∧
    (∀ t, AudioRecorderOps.start t r'
          = (Throw (Error "Recorder not initialized. Call initialize() first."), r')) ∧
    (∀ t, AudioRecorderOps.pause t r'
          = (Throw (Error "Recorder not initialized"), r')) ∧
    (∀ t, AudioRecorderOps.resume t r'
          = (Throw (Error "Recorder not initialized"), r')) ∧
    (∀ t d, AudioRecorderOps.stop t d r'
            = (Rejected (Error "Recorder not initialized"), r')).
Proof.
  eapply (recorder_is_spent_after_stop 20000 (Blob.mk 1200 "audio/webm")
            (AudioRecorderOps.start 5000 Sample.readyRecorder).2).
  - reflexivity.
  - discriminate.
Defined.

(** A capture from [start] to [stop] without pauses: the blob returned holds
    exactly the bytes delivered since [start], whatever the recorder held
    before, typed with the recorder's format, and the duration is the elapsed
    time rounded to whole seconds. *)
Theorem stop_returns_what_was_captured (t0 t1 : Z) (datas : list Blob.t)
    (lastData : Blob.t) (r : AudioRecorder) (m : MediaRecorder) :
  mediaRecorder r = Some m → state m = StateInactive →
  ∃ r1,
    AudioRecorderOps.start t0 r = (Normal (), r1) ∧
    AudioRecorderOps.getState r1 = StateRecording ∧
    ∃ res r2,
    AudioRecorderOps.stop t1 lastData (deliver datas r1) = (Resolved res, r2) ∧
    Blob.size (blob res) = totalSize (datas ++ [lastData]) ∧
    Blob.type (blob res) = mimeType m ∧
    resultMimeType res = mimeType m ∧
    duration res = (t1 - t0 + 500) / 1000.
Proof.
  intros Hm Hs. unfold AudioRecorderOps.start. rewrite Hm, Hs.
  eexists. split; [done|]. split; [done|].
  match goal with |- ∃ _ _, AudioRecorderOps.stop _ _ (deliver _ ?x) = _ ∧ _ =>
    remember x as r1 eqn:Hr1 end.
  assert (Hmr : mediaRecorder r1
                = Some (AudioRecorderOps.withState StateRecording m))
    by by rewrite Hr1.
  assert (Hst : startTime r1 = t0) by by rewrite Hr1.
  assert (Hpd : pausedDuration r1 = 0) by by rewrite Hr1.
  assert (Hch : audioChunks r1 = []) by by rewrite Hr1.
  clear Hr1.
  destruct (deliver_spec datas r1) as (H1 & H2 & H3 & H4 & H5 & H6).
  destruct (ondataavailable_spec lastData
              (AudioRecorderOps.withMediaRecorder
                 (Some (AudioRecorderOps.withState StateInactive
                          (AudioRecorderOps.withState StateRecording m)))
                 (deliver datas r1))) as (G1 & G2 & G3 & G4 & G5 & G6).
  simpl in G3, G4, G6.
  unfold AudioRecorderOps.stop. rewrite H1, Hmr. simpl.
  eexists _, _. split; [done|]. simpl.
  split.
  { change (foldr (λ c n, (Blob.size c + n)%N) 0%N ?l) with (totalSize l).
    rewrite G6, H6, totalSize_app, totalSize_cons, Hch.
    change (totalSize []) with 0%N. lia. }
  split; [done|]. split; [done|].
  rewrite G3, G4, H3, H4, Hst, Hpd. rewrite Z.sub_0_r. apply mathRound_millis.
Qed.

Lemma stop_returns_what_was_captured_witness :
  ∃ r1,
    AudioRecorderOps.start 5000 Sample.readyRecorder = (Normal (), r1) ∧
    AudioRecorderOps.getState r1 = StateRecording ∧
    ∃ res r2,
    AudioRecorderOps.stop 20400 (Blob.mk 700 "audio/webm")
      (deliver [Blob.mk 1000 "audio/webm"; Blob.mk 0 "audio/webm";
                Blob.mk 1000 "audio/webm"] r1) = (Resolved res, r2) ∧
    Blob.size (blob res)
    = totalSize ([Blob.mk 1000 "audio/webm"; Blob.mk 0 "audio/webm";
                  Blob.mk 1000 "audio/webm"] ++ [Blob.mk 700 "audio/webm"]) ∧
    Blob.type (blob res)
    = mimeType {| state := StateInactive; mimeType := "audio/webm;codecs=opus" |} ∧
    resultMimeType res
    = mimeType {| state := StateInactive; mimeType := "audio/webm;codecs=opus" |} ∧
    duration res = (20400 - 5000 + 500) / 1000.
Proof.
  apply (stop_returns_what_was_captured 5000 20400 _ _ Sample.readyRecorder
           {| state := StateInactive; mimeType := "audio/webm;codecs=opus" |});
    reflexivity.
Defined.

(** [pause] and [resume] are guarded by the state of the browser recorder:
    [pause] succeeds exactly on a recorder that is recording and leaves it
    paused, [resume] exactly on one that is paused and leaves it recording;
    neither touches the chunks, and a refused call changes nothing. *)
Theorem pause_and_resume_are_guarded (now : Z) (r : AudioRecorder) :
  match AudioRecorderOps.pause now r with
  | (Normal _, r') =>
      AudioRecorderOps.getState r = StateRecording ∧
      AudioRecorderOps.getState r' = StatePaused ∧
      audioChunks r' = audioChunks r ∧ pausedDuration r' = pausedDuration r
  | (Throw e, r') =>
      AudioRecorderOps.getState r ≠ StateRecording ∧ r' = r ∧ instanceofError e = true
  end ∧
  match AudioRecorderOps.resume now r with
  | (Normal _, r') =>
      AudioRecorderOps.getState r = StatePaused ∧
      AudioRecorderOps.getState r' = StateRecording ∧
      audioChunks r' = audioChunks r ∧
      pausedDuration r' = pausedDuration r + (now - pauseStartTime r)
  | (Throw e, r') =>
      AudioRecorderOps.getState r ≠ StatePaused ∧ r' = r ∧ instanceofError e = true
  end.
Proof.
  unfold AudioRecorderOps.pause, AudioRecorderOps.resume,
    AudioRecorderOps.getState.
  destruct (mediaRecorder r) as [m|]; [|done].
  destruct (state m); simpl; done.
Qed.

(** ** The settings page *)

Section SettingsFacts.

Lemma trim_truthy_tidy (input : string) :
  JsString.truthy (JsString.trim input) = true → tidyKey (JsString.trim input).
Proof.
  intros H. split; [|apply trim_idem].
  by destruct (JsString.trim input).
Qed.

Lemma validate_trimmed (input : string) :
  validateOpenAIKey (JsString.trim input) = validateOpenAIKey input ∧
  validateAnthropicKey (JsString.trim input) = validateAnthropicKey input.
Proof.
  unfold validateOpenAIKey, validateAnthropicKey. by rewrite trim_idem.
Qed.

End SettingsFacts.

(** Saving the OpenAI key on the settings page: either the input is refused,
    with an error shown and no key touched, or the key kept in the context
    and in [localStorage] is the trimmed input, which is not empty, has no
    white space around it, passes the format check, counts as configured,
    and is what a later mount reads back.  The Anthropic key is not touched
    either way. *)
Theorem handleSaveOpenAI_stores_checked_key (s : SettingsState)
    (c : AppContext) :
  let s' := (SettingsPage.handleSaveOpenAI s c).1 in
  let c' := (SettingsPage.handleSaveOpenAI s c).2 in
  anthropicKey c' = anthropicKey c ∧
  ApiKeyManager.getAnthropicKey (localStorage c')
  = ApiKeyManager.getAnthropicKey (localStorage c) ∧
  match openaiError s' with
  | Some _ =>
      c' = c ∧ successMessage s' = None ∧
      (JsString.trim (openaiInput s) = EmptyString
       ∨ validateOpenAIKey (openaiInput s) = false)
  | None =>
      ∃ key,
        key = JsString.trim (openaiInput s) ∧
        openaiKey c' = Some key ∧
        ApiKeyManager.getOpenAIKey (localStorage c') = Some key ∧
        openaiKey (AppProvider.loadKeys c') = Some key ∧
        tidyKey key ∧
        validateOpenAIKey key = true ∧
        JsString.truthyOpt (openaiKey c') = true ∧
        successMessage s' = Some "OpenAI API key saved successfully"
  end.
Proof.
  unfold SettingsPage.handleSaveOpenAI.
  destruct (JsString.truthy (JsString.trim (openaiInput s))) eqn:Ht; simpl.
  - destruct (validateOpenAIKey (openaiInput s)) eqn:Hv; simpl.
    + split; [done|]. split.
      { unfold ApiKeyManager.getAnthropicKey, ApiKeyManager.setOpenAIKey.
        by apply lookup_insert_ne. }
      eexists. split; [done|]. split; [done|].
      split.
      { unfold ApiKeyManager.getOpenAIKey, ApiKeyManager.setOpenAIKey.
        by apply lookup_insert_eq. }
      split.
      { unfold ApiKeyManager.getOpenAIKey, ApiKeyManager.setOpenAIKey.
        by apply lookup_insert_eq. }
      split; [by apply trim_truthy_tidy|].
      split; [by rewrite (proj1 (validate_trimmed _))|].
      done.
    + repeat (split; [done|]). by right.
  - repeat (split; [done|]). left.
    by destruct (JsString.trim (openaiInput s)).
Qed.

(** Saving the Anthropic key: the same, with the Anthropic format check; a
    key that is kept also passes the OpenAI check.  The OpenAI key is not
    touched. *)
Theorem handleSaveAnthropic_stores_checked_key (s : SettingsState)
    (c : AppContext) :
  let s' := (SettingsPage.handleSaveAnthropic s c).1 in
  let c' := (SettingsPage.handleSaveAnthropic s c).2 in
  openaiKey c' = openaiKey c ∧
  ApiKeyManager.getOpenAIKey (localStorage c')
  = ApiKeyManager.getOpenAIKey (localStorage c) ∧
  match anthropicError s' with
  | Some _ =>
      c' = c ∧ successMessage s' = None ∧
      (JsString.trim (anthropicInput s) = EmptyString
       ∨ validateAnthropicKey (anthropicInput s) = false)
  | None =>
      ∃ key,
        key = JsString.trim (anthropicInput s) ∧
        anthropicKey c' = Some key ∧
        ApiKeyManager.getAnthropicKey (localStorage c') = Some key ∧
        anthropicKey (AppProvider.loadKeys c') = Some key ∧
        tidyKey key ∧
        validateAnthropicKey key = true ∧
        JsString.truthyOpt (anthropicKey c') = true ∧
        successMessage s' = Some "Anthropic API key saved successfully"
  end.
Proof.
  unfold SettingsPage.handleSaveAnthropic.
  destruct (JsString.truthy (JsString.trim (anthropicInput s))) eqn:Ht; simpl.
  - destruct (validateAnthropicKey (anthropicInput s)) eqn:Hv; simpl.
    + split; [done|]. split.
      { unfold ApiKeyManager.getOpenAIKey, ApiKeyManager.setAnthropicKey.
        by apply lookup_insert_ne. }
      eexists. split; [done|]. split; [done|].
      split.
      { unfold ApiKeyManager.getAnthropicKey, ApiKeyManager.setAnthropicKey.
        by apply lookup_insert_eq. }
      split.
      { unfold ApiKeyManager.getAnthropicKey, ApiKeyManager.setAnthropicKey.
        by apply lookup_insert_eq. }
      split; [by apply trim_truthy_tidy|].
      split; [by rewrite (proj2 (validate_trimmed _))|].
      done.
    + repeat (split; [done|]). by right.
  - repeat (split; [done|]). left.
    by destruct (JsString.trim (anthropicInput s)).
Qed.

(** ** The recording controls *)

Section ControlsFacts.
Import RecordingControls.

Lemma saveRecording_run (recording : Recording.t) (s : KeyedStore) :
  failing (table s) = false → generatorAhead s →
  recordings (table s) !! keyGenerator s = None ∧
  saveRecording recording s
  = (Normal (keyGenerator s),
     {| table := {| recordings := <[keyGenerator s := withId (keyGenerator s) recording]>
                                    (recordings (table s));
                    failing := failing (table s) |};
        keyGenerator := keyGenerator s + 1 |}).
Proof.
  intros Hok [Hpos Hahead].
  assert (Hfresh : recordings (table s) !! keyGenerator s = None).
  { destruct (recordings (table s) !! keyGenerator s) eqn:Hk; [|done].
    assert (keyGenerator s < keyGenerator s)%N by (apply Hahead; by rewrite Hk).
    lia. }
  split; [done|]. unfold saveRecording, dexieAdd. by rewrite Hok, Hfresh.
Qed.

Lemma stop_capturing (stopTime : Z) (lastData : Blob.t) (r : AudioRecorder) :
  capturing r →
  ∃ res r',
    AudioRecorderOps.stop stopTime lastData r = (Resolved res, r') ∧
    uninitialized r' ∧
    Blob.size (blob res) = capturedBytes lastData r ∧
    duration res = capturedSeconds stopTime r ∧
    (∀ m, mediaRecorder r = Some m →
          resultMimeType res = mimeType m ∧ Blob.type (blob res) = mimeType m).
Proof.
  intros (m & Hm & Hactive). unfold AudioRecorderOps.stop. rewrite Hm.
  pose (r0 := AudioRecorderOps.withMediaRecorder
                (Some (AudioRecorderOps.withState StateInactive m)) r).
  destruct (ondataavailable_spec lastData r0) as (G1 & G2 & G3 & G4 & G5 & G6).
  assert (Hres : ∃ res r',
    (Resolved
       {| blob := AudioRecorderOps.concatBlobs
                    (audioChunks (AudioRecorderOps.ondataavailable lastData r0))
                    (mimeType m);
          duration :=
            mathRound
              (inject_Z
                 (stopTime
                  - startTime (AudioRecorderOps.ondataavailable lastData r0)
                  - pausedDuration (AudioRecorderOps.ondataavailable lastData r0))
               / inject_Z 1000);
          resultMimeType := mimeType m |},
     AudioRecorderOps.cleanup (AudioRecorderOps.ondataavailable lastData r0))
    = (Resolved res, r') ∧
    uninitialized r' ∧
    Blob.size (blob res) = capturedBytes lastData r ∧
    duration res = capturedSeconds stopTime r ∧
    (∀ m', Some m = Some m' →
           resultMimeType res = mimeType m' ∧ Blob.type (blob res) = mimeType m')).
  { eexists _, _. split; [done|]. split; [done|]. split.
    { simpl. change (foldr (λ c n, (Blob.size c + n)%N) 0%N ?l) with (totalSize l).
      by rewrite G6. }
    split.
    { simpl. rewrite G3, G4. apply mathRound_millis. }
    by intros m' [= <-]. }
  destruct (state m); [done|exact Hres|exact Hres].
Qed.

End ControlsFacts.

(** The Stop button with a capture under way that is within 25 MB, on a
    store that answers: the capture is saved as a new row under the next
    key, with status [recorded], no transcript and no notes, the bytes and
    the seconds the recorder reports and the time of saving; the other rows
    stay; the controls go back to idle and let go of the recorder; and the
    saved audio is one that [transcribeAudio] sends to the provider. *)
Theorem handleStopRecording_saves_the_capture (stopTime : Z)
    (lastData : Blob.t) (now : RecordingControls.Clock)
    (c : RecordingControls.State) (s : KeyedStore) (recorder : AudioRecorder) :
  RecordingControls.audioRecorderRef c = Some recorder →
  capturing recorder →
  (capturedBytes lastData recorder ≤ maxBytes)%N →
  failing (table s) = false → generatorAhead s →
  ∃ c' s' row,
    RecordingControls.handleStopRecording stopTime lastData now c s = (c', s') ∧
    recordings (table s) !! keyGenerator s = None ∧
    getRecording (keyGenerator s) (table s') = Normal (Some row) ∧
    Recording.id row = Some (keyGenerator s) ∧
    Recording.status row = Recorded ∧
    Recording.transcript row = None ∧
    Recording.notes row = None ∧
    Recording.filename row = RecordingControls.filenameAt now ∧
    Recording.date row = RecordingControls.time now ∧
    Recording.duration row = capturedSeconds stopTime recorder ∧
    Blob.size (Recording.audioBlob row) = capturedBytes lastData recorder ∧
    (∀ k, k ≠ keyGenerator s →
          recordings (table s') !! k = recordings (table s) !! k) ∧
    c' = {| RecordingControls.audioRecorderRef := None;
            RecordingControls.isRecording := false;
            RecordingControls.isPaused := false;
            RecordingControls.seconds := 0;
            RecordingControls.timerRunning := false;
            RecordingControls.error := None;
            RecordingControls.audioStream := false |} ∧
    ∀ whisper apiKey w,
      trace (transcribeAudio whisper (Recording.audioBlob row) apiKey w).2
      = trace w ++ [WhisperRequest (audioFile (Recording.audioBlob row)) apiKey].
Proof.
  intros Href Hcap Hsize Hok Hahead.
  destruct (stop_capturing stopTime lastData recorder Hcap)
    as (res & r' & Hstop & _ & Hbytes & Hsecs & _).
  unfold RecordingControls.handleStopRecording. rewrite Href, Hstop.
  rewrite sizeMB_over.
  assert (Hfits : (maxBytes <? Blob.size (blob res))%N = false).
  { apply N.ltb_ge. by rewrite Hbytes. }
  rewrite Hfits.
  destruct (saveRecording_run
              (RecordingControls.newRecording (RecordingControls.filenameAt now)
                 (RecordingControls.time now) (duration res) (blob res)
                 (resultMimeType res)) s Hok Hahead) as [Hfresh ->].
  eexists _, _, _. split; [done|]. split; [done|]. split.
  { unfold getRecording, Dexie.get. simpl. rewrite Hok.
    by rewrite lookup_insert_eq. }
  simpl. repeat (split; [done|]).
  split; [intros k Hk; by rewrite lookup_insert_ne|].
  split; [done|].
  intros whisper apiKey w. rewrite transcribeAudio_run. rewrite Hfits. simpl.
  destruct (whisper (audioFile (blob res)) apiKey) as [transcript|e]; [|done].
  by destruct (negb (JsString.truthy transcript)
               || JsString.isEmpty (JsString.trim transcript)).
Qed.

Lemma handleStopRecording_saves_the_capture_witness :
  ∃ c' s' row,
    RecordingControls.handleStopRecording 20400 Sample3.lastData Sample3.clock
      (Sample3.controls Sample3.midCapture) Sample2.store = (c', s') ∧
    getRecording 5 (table s') = Normal (Some row) ∧
    Recording.status row = Recorded ∧
    Recording.duration row = 15 ∧
    Blob.size (Recording.audioBlob row) = 2700%N ∧
    RecordingControls.isRecording c' = false.
Proof.
  destruct (handleStopRecording_saves_the_capture 20400 Sample3.lastData
              Sample3.clock (Sample3.controls Sample3.midCapture) Sample2.store
              Sample3.midCapture)
    as (c' & s' & row & H1 & _ & H2 & _ & H3 & _ & _ & _ & _ & H4 & H5 & _ & H6 & _).
  - reflexivity.
  - eexists. split; [reflexivity | discriminate].
  - vm_compute. discriminate.
  - reflexivity.
  - split; [reflexivity|]. simpl. intros k [r Hr].
    assert (Hin : (k, r) ∈ map_to_list (recordings Sample.library))
      by by apply elem_of_map_to_list.
    vm_compute in Hin.
    repeat (apply elem_of_cons in Hin as [[= -> _]|Hin]; [reflexivity|]).
    by apply elem_of_nil in Hin.
  - subst c'. eexists _, s', row.
    split; [exact H1|]. split; [exact H2|]. split; [exact H3|].
    split; [exact H4|]. split; [exact H5|]. reflexivity.
Defined.

(** The Stop button with a capture of more than 25 MB: nothing is saved, the
    error says the recording is too large, and the controls stay as they
    were, still showing a recording in progress and still holding the
    recorder, which has let go of everything.  Every further press of Stop
    saves nothing either and reports that the recorder is not initialized. *)
Theorem handleStopRecording_discards_oversized (stopTime : Z)
    (lastData : Blob.t) (now : RecordingControls.Clock)
    (c : RecordingControls.State) (s : KeyedStore) (recorder : AudioRecorder) :
  RecordingControls.audioRecorderRef c = Some recorder →
  capturing recorder →
  (maxBytes < capturedBytes lastData recorder)%N →
  ∃ c' recorder' msg,
    RecordingControls.handleStopRecording stopTime lastData now c s = (c', s) ∧
    RecordingControls.audioRecorderRef c' = Some recorder' ∧
    uninitialized recorder' ∧
    RecordingControls.error c' = Some msg ∧
    JsString.startsWith msg "Recording too large (" = true ∧
    RecordingControls.isRecording c' = RecordingControls.isRecording c ∧
    RecordingControls.isPaused c' = RecordingControls.isPaused c ∧
    RecordingControls.seconds c' = RecordingControls.seconds c ∧
    RecordingControls.timerRunning c' = RecordingControls.timerRunning c ∧
    ∀ t d now',
      RecordingControls.handleStopRecording t d now' c' s
      = (RecordingControls.setError (Some "Recorder not initialized") c', s).
Proof.
  intros Href Hcap Hsize.
  destruct (stop_capturing stopTime lastData recorder Hcap)
    as (res & r' & Hstop & Hun & Hbytes & _ & _).
  unfold RecordingControls.handleStopRecording at 1. rewrite Href, Hstop.
  rewrite sizeMB_over.
  assert (Hover : (maxBytes <? Blob.size (blob res))%N = true).
  { apply N.ltb_lt. by rewrite Hbytes. }
  rewrite Hover.
  eexists _, r', _. split; [done|]. split; [done|]. split; [done|].
  split; [done|]. split.
  { apply startsWith_iff. eexists. unfold RecordingControls.tooLargeMessage.
    reflexivity. }
  repeat (split; [done|]).
  intros t d now'. unfold RecordingControls.handleStopRecording. simpl.
  destruct Hun as (Hnone & _ & _). unfold AudioRecorderOps.stop.
  rewrite Hnone. done.
Qed.

Lemma handleStopRecording_discards_oversized_witness :
  ∃ c' recorder' msg,
    RecordingControls.handleStopRecording 20400 Sample3.lastData Sample3.clock
      (Sample3.controls Sample3.hugeCapture) Sample2.store
    = (c', Sample2.store) ∧
    RecordingControls.audioRecorderRef c' = Some recorder' ∧
    uninitialized recorder' ∧
    RecordingControls.error c' = Some msg ∧
    RecordingControls.isRecording c' = true.
Proof.
  destruct (handleStopRecording_discards_oversized 20400 Sample3.lastData
              Sample3.clock (Sample3.controls Sample3.hugeCapture) Sample2.store
              Sample3.hugeCapture)
    as (c' & r' & msg & H1 & H2 & H3 & H4 & _ & H5 & _).
  - reflexivity.
  - eexists. split; [reflexivity | discriminate].
  - vm_compute. reflexivity.
  - exists c', r', msg.
    split; [exact H1|]. split; [exact H2|]. split; [exact H3|].
    split; [exact H4|]. exact H5.
Defined.

(** The Record button: a new recorder is made and initialized.  When that
    works the recorder is recording from [now] with no chunks and no pause
    counted, the controls show a recording that is not paused, with the
    timer running and the microphone stream at hand.  When it does not, the
    error is one of the three messages of [initialize], the flags and the
    timer are as before, and the recorder kept holds nothing. *)
Theorem handleStartRecording_outcomes (getUserMedia : Completion unit)
    (isTypeSupported : string → bool) (now : Z) (c : RecordingControls.State) :
  let c' := RecordingControls.handleStartRecording getUserMedia
              isTypeSupported now c in
  RecordingControls.seconds c' = RecordingControls.seconds c ∧
  match RecordingControls.error c' with
  | None =>
      RecordingControls.isRecording c' = true ∧
      RecordingControls.isPaused c' = false ∧
      RecordingControls.timerRunning c' = true ∧
      RecordingControls.audioStream c' = true ∧
      ∃ recorder,
        RecordingControls.audioRecorderRef c' = Some recorder ∧
        AudioRecorderOps.getState recorder = StateRecording ∧
        capturing recorder ∧
        audioChunks recorder = [] ∧
        startTime recorder = now ∧
        pausedDuration recorder = 0 ∧
        stream recorder = true
  | Some msg =>
      msg ∈ initializeMessages ∧
      RecordingControls.isRecording c' = RecordingControls.isRecording c ∧
      RecordingControls.isPaused c' = RecordingControls.isPaused c ∧
      RecordingControls.timerRunning c' = RecordingControls.timerRunning c ∧
      RecordingControls.audioStream c' = RecordingControls.audioStream c ∧
      ∃ recorder,
        RecordingControls.audioRecorderRef c' = Some recorder ∧
        uninitialized recorder
  end.
Proof.
  unfold RecordingControls.handleStartRecording.
  pose proof (initialize_cases getUserMedia isTypeSupported newAudioRecorder)
    as Hinit.
  destruct (AudioRecorderOps.initialize getUserMedia isTypeSupported
              newAudioRecorder) as [[[]|e] recorder].
  - destruct Hinit as (Hstream & Hchunks & mime & Hm).
    unfold AudioRecorderOps.start. rewrite Hm. simpl.
    split; [done|]. repeat (split; [done|]).
    eexists. split; [done|]. split; [done|]. split.
    { eexists. split; [done|]. done. }
    done.
  - destruct Hinit as (Hun & m & -> & Hm). simpl.
    split; [done|]. repeat (split; [done|]). by exists recorder.
Qed.

(** ** Where failures end *)

Section FailureFacts.
Variable whisper : File → string → Completion string.
Variable claude : string → string → Completion (list ContentBlock).
Variable openaiKey anthropicKey : option string.

(** On a store that rejects every request no path through the [try] block
    completes: each one needs a write first. *)
Lemma tryBlock_rejecting (id : N) (recording : Recording.t) (w : World) :
  failing (db w) = true →
  ∃ e w1,
    tryBlock whisper claude openaiKey anthropicKey id recording w = (Throw e, w1) ∧
    db w1 = db w.
Proof.
  intros Hf. unfold tryBlock.
  unfold bind at 1, setIsProcessing. unfold bind at 1, setProcessingError.
  match goal with
  | |- context [bind (transcriptionStep _ _ _ _) _ ?w0] => set (w1 := w0)
  end.
  assert (Hf1 : failing (db w1) = true) by done.
  assert (Hdb1 : db w1 = db w) by done.
  unfold bind at 1, transcriptionStep.
  destruct (JsString.truthy (JsString.orEmpty (Recording.transcript recording)));
    simpl.
  - unfold notesStep. destruct anthropicKey as [key|]; [|by eexists _, _].
    destruct (JsString.truthy key); [|by eexists _, _].
    destruct (negb _ || _); [by eexists _, _|].
    destruct (awaitUpdate_failing id [SetStatus GeneratingNotes] w1 Hf1)
      as (w2 & Hrun & Hdb2).
    rewrite (bind_Throw _ _ _ _ _ Hrun). eexists _, _. split; [done|].
    by rewrite Hdb2.
  - destruct openaiKey as [key|]; [|by eexists _, _].
    destruct (JsString.truthy key); [|by eexists _, _].
    destruct (awaitUpdate_failing id [SetStatus Transcribing] w1 Hf1)
      as (w2 & Hrun & Hdb2).
    rewrite (bind_Throw _ _ _ _ _ Hrun). eexists _, _. split; [done|].
    by rewrite Hdb2.
Qed.

Lemma catchBlock_rejecting (id : N) (recording : Recording.t) (e : Thrown)
    (w : World) :
  Recording.id recording = Some id → id ≠ 0%N → failing (db w) = true →
  ∃ w',
    catchBlock recording e w
    = (Throw (Error "Failed to update recording in database"), w') ∧
    db w' = db w ∧
    isProcessing (ui w') = isProcessing (ui w).
Proof.
  intros Hid Hnz Hf. unfold catchBlock. rewrite Hid.
  unfold bind at 1, setProcessingError.
  match goal with
  | |- context [match id with _ => _ end ?w0] => set (w1 := w0)
  end.
  assert (Hf1 : failing (db w1) = true) by done.
  destruct (awaitUpdate_failing id
              [SetStatus StatusError;
               SetErrorMessage (Some (if instanceofError e then message e
                                      else "Failed to generate notes"))]
              w1 Hf1) as (w2 & Hrun & Hdb2).
  destruct id as [|p]; [done|].
  rewrite (bind_Throw _ _ _ _ _ Hrun). exists w2. split; [done|].
  split; [by rewrite Hdb2|].
  unfold awaitUpdateRecording, bind, emit in Hrun. simpl in Hrun.
  destruct (updateRecording _ _ _) as [c d']. by injection Hrun as _ <-.
Qed.

End FailureFacts.

(** C3, as stated, fails.  A precondition failure (no OpenAI key) on a store
    that rejects requests is neither recorded nor contained: the handler
    rejects and the record is as it was, without error status or message.
    A capture failure ([stop] on a recorder that holds nothing) ends as the
    error of the recording controls and leaves the store untouched. *)
Lemma C3_failure_not_always_recorded :
  let w := Sample.world {| recordings := recordings Sample.library;
                           failing := true |} in
  let run := handleGenerateNotes Sample.whisperHello Sample.claudeSummary
               None (Some "sk-ant-test") Sample.optics w in
  let stopped := RecordingControls.handleStopRecording 8000 Sample3.lastData
                   Sample3.clock (Sample3.controls newAudioRecorder)
                   Sample2.store in
  run.1 = Throw (Error "Failed to update recording in database") ∧
  recordings (db run.2) !! 1%N = Some Sample.optics ∧
  Recording.status Sample.optics ≠ StatusError ∧
  Recording.errorMessage Sample.optics = None ∧
  RecordingControls.error stopped.1 = Some "Recorder not initialized" ∧
  stopped.2 = Sample2.store.
Proof.
  vm_compute. repeat split; discriminate.
Qed.

(** C3, amended.  For a recording with an id:
    - whatever the [try] block throws, with the record in a store that
      answers, [handleGenerateNotes] ends normally, the thrown value is an
      [Error], its message is stored in the record's [errorMessage] and
      shown, the status is [error] and processing is flagged off;
    - on a store that rejects requests the handler itself rejects, with the
      store's failure, and the store is as it was;
    - the Stop handler of the recording controls, where capture failures
      end, never writes a failure to the store: either the store is as it
      was or no error is shown, and a row that was not there before has
      status [recorded] and no error message. *)
Theorem C3_failure_becomes_state
    (whisper : File → string → Completion string)
    (claude : string → string → Completion (list ContentBlock))
    (openaiKey anthropicKey : option string)
    (id : N) (recording : Recording.t) :
  Recording.id recording = Some id → id ≠ 0%N →
  (∀ item w w1 e,
     stored id w item →
     tryBlock whisper claude openaiKey anthropicKey id recording w = (Throw e, w1) →
     ∃ w' item',
       handleGenerateNotes whisper claude openaiKey anthropicKey recording w
         = (Normal (), w') ∧
       stored id w' item' ∧
       Recording.status item' = StatusError ∧
       Recording.errorMessage item' = Some (message e) ∧
       processingError (ui w') = Some (message e) ∧
       isProcessing (ui w') = false) ∧
  (∀ w,
     failing (db w) = true →
     ∃ w',
       handleGenerateNotes whisper claude openaiKey anthropicKey recording w
         = (Throw (Error "Failed to update recording in database"), w') ∧
       db w' = db w ∧
       isProcessing (ui w') = false) ∧
  (∀ stopTime lastData now c s,
     let c' := (RecordingControls.handleStopRecording stopTime lastData now c s).1 in
     let s' := (RecordingControls.handleStopRecording stopTime lastData now c s).2 in
     (s' = s ∨ RecordingControls.error c' = None) ∧
     ∀ k r, recordings (table s') !! k = Some r →
            recordings (table s) !! k = Some r
            ∨ (Recording.status r = Recorded ∧ Recording.errorMessage r = None)).
Proof.
  intros Hid Hnz. split; [|split].
  - intros item w w1 e Hst Hthrow.
    rewrite (handleGenerateNotes_unfold _ _ _ _ id) by done.
    unfold tryFinally, tryCatch. rewrite Hthrow.
    destruct (tryBlock_spec whisper claude openaiKey anthropicKey id recording
                w item Hst) as (c & w1' & item1 & Hrun & Hst1 & Herr).
    rewrite Hthrow in Hrun. injection Hrun as <- <-.
    specialize (Herr e eq_refl).
    destruct (catchBlock_spec id recording e w1 item1 Hid Hnz Hst1)
      as (w2 & Hrun2 & Hst2 & _ & Hui & _).
    rewrite Hrun2. simpl.
    assert (Hmsg : recordedMessage e = message e).
    { unfold recordedMessage. by rewrite Herr. }
    rewrite Hmsg in *.
    eexists _, _. split; [done|]. split; [exact Hst2|]. done.
  - intros w Hf.
    rewrite (handleGenerateNotes_unfold _ _ _ _ id) by done.
    unfold tryFinally, tryCatch.
    destruct (tryBlock_rejecting whisper claude openaiKey anthropicKey id
                recording w Hf) as (e & w1 & -> & Hdb1).
    destruct (catchBlock_rejecting id recording e w1 Hid Hnz) as
      (w2 & -> & Hdb2 & _); [by rewrite Hdb1|].
    simpl. eexists. split; [done|]. simpl. by rewrite Hdb2, Hdb1.
  - intros stopTime lastData now c s.
    unfold RecordingControls.handleStopRecording.
    destruct (RecordingControls.audioRecorderRef c) as [recorder|];
      [|simpl; split; [by left|by left]].
    destruct (AudioRecorderOps.stop stopTime lastData recorder)
      as [[res|e|] recorder'];
      [|simpl; split; [by left|by left]..].
    destruct (negb (Qle_bool (sizeMB (blob res)) (inject_Z 25)));
      [simpl; split; [by left|by left]|].
    unfold saveRecording, dexieAdd.
    destruct (failing (table s)); [simpl; split; [by left|by left]|].
    destruct (recordings (table s) !! keyGenerator s) eqn:Hk;
      [simpl; split; [by left|by left]|].
    simpl. split; [by right|].
    intros k r. destruct (decide (k = keyGenerator s)) as [->|Hne].
    + rewrite lookup_insert_eq. intros [= <-]. by right.
    + rewrite lookup_insert_ne by done. by left.
Qed.

(** Scenario C, the transcription provider refusing the credential, on a
    store that answers and on one that does not. *)
Lemma C3_failure_becomes_state_witness :
  (∃ w' item',
     handleGenerateNotes Sample.whisperUnauthorized Sample.claudeSummary
       (Some "sk-test") (Some "sk-ant-test") Sample.optics
       (Sample.world Sample.library)
     = (Normal (), w') ∧
     stored 1 w' item' ∧
     Recording.status item' = StatusError ∧
     Recording.errorMessage item'
       = Some (message (Error "Invalid OpenAI API key. Please check your API key in Settings.")) ∧
     processingError (ui w')
       = Some (message (Error "Invalid OpenAI API key. Please check your API key in Settings.")) ∧
     isProcessing (ui w') = false) ∧
  (∃ w',
     handleGenerateNotes Sample.whisperUnauthorized Sample.claudeSummary
       (Some "sk-test") (Some "sk-ant-test") Sample.optics
       (Sample.world {| recordings := recordings Sample.library;
                        failing := true |})
     = (Throw (Error "Failed to update recording in database"), w') ∧
     db w' = {| recordings := recordings Sample.library; failing := true |} ∧
     isProcessing (ui w') = false).
Proof.
  destruct (C3_failure_becomes_state
              Sample.whisperUnauthorized Sample.claudeSummary
              (Some "sk-test") (Some "sk-ant-test") 1 Sample.optics)
    as (Hstate & Hrejects & _).
  - reflexivity.
  - discriminate.
  - split.
    + eapply (Hstate Sample.optics (Sample.world Sample.library)).
      * split; reflexivity.
      * vm_compute. reflexivity.
    + apply (Hrejects (Sample.world {| recordings := recordings Sample.library;
                                       failing := true |})).
      reflexivity.
Defined.

(** ** Pauses and the reported duration *)

(** C8.  A session that starts at [t0] and pauses and resumes at the given
    pairs of instants.  Stopped at [tEnd] while recording, it reports the
    elapsed time less the paused time, rounded to whole seconds.  Paused
    once more at [p] and stopped at [tEnd] while still paused, it reports
    the same figure: the pause that is open at [stop] is not excluded, so
    the time from [p] to [tEnd] counts as recording, and once that pause is
    a second long the report exceeds the time that was recorded. *)
Theorem C8_open_pause_is_counted (r : AudioRecorder) (m : MediaRecorder)
    (t0 p tEnd : Z) (pairs : list (Z * Z)) (lastData : Blob.t) :
  mediaRecorder r = Some m → state m = StateInactive →
  ∃ r1 r2 r3,
    AudioRecorderOps.start t0 r = (Normal (), r1) ∧
    AudioRecorderOps.pauseResume pairs r1 = (Normal (), r2) ∧
    (∃ res r',
       AudioRecorderOps.stop tEnd lastData r2 = (Resolved res, r') ∧
       duration res
       = mathRound (inject_Z ((tEnd - t0) - AudioRecorderOps.pausedTotal pairs)
                    / inject_Z 1000) ∧
       duration res
       = ((tEnd - t0) - AudioRecorderOps.pausedTotal pairs + 500) / 1000 ∧
       uninitialized r') ∧
    AudioRecorderOps.pause p r2 = (Normal (), r3) ∧
    AudioRecorderOps.getState r3 = StatePaused ∧
    ∃ res r',
      AudioRecorderOps.stop tEnd lastData r3 = (Resolved res, r') ∧
      duration res
      = ((p - t0) - AudioRecorderOps.pausedTotal pairs + (tEnd - p) + 500) / 1000 ∧
      (1000 ≤ tEnd - p →
       ((p - t0) - AudioRecorderOps.pausedTotal pairs + 500) / 1000
       < duration res).
Proof.
  intros Hm Hs. unfold AudioRecorderOps.start. rewrite Hm, Hs.
  eexists.
  match goal with
  | |- ∃ r2 r3, (_, ?r1) = _ ∧ _ =>
      destruct (pauseResume_spec pairs r1
                  (AudioRecorderOps.withState StateRecording m))
        as (r2 & Hrun & Hm2 & _ & Ht2 & Hp2); [done | done |]
  end.
  simpl in Ht2, Hp2.
  exists r2. eexists. split; [done|]. split; [exact Hrun|].
  assert (Hcap2 : capturing r2).
  { eexists. split; [exact Hm2|]. done. }
  split.
  { destruct (stop_capturing tEnd lastData r2 Hcap2)
      as (res & r' & Hstop & Hun & _ & Hsecs & _).
    exists res, r'. split; [done|].
    unfold capturedSeconds in Hsecs. rewrite Ht2, Hp2 in Hsecs.
    rewrite mathRound_millis, Hsecs. split; [f_equal; lia|].
    split; [f_equal; lia|done]. }
  unfold AudioRecorderOps.pause. rewrite Hm2. simpl.
  split; [done|]. split; [done|].
  match goal with
  | |- ∃ res r', AudioRecorderOps.stop _ _ ?r3 = _ ∧ _ =>
      assert (Hcap3 : capturing r3) by (eexists; split; [done|done]);
      destruct (stop_capturing tEnd lastData r3 Hcap3)
        as (res & r' & Hstop & _ & _ & Hsecs & _)
  end.
  exists res, r'. split; [done|].
  unfold capturedSeconds in Hsecs. simpl in Hsecs. rewrite Ht2, Hp2 in Hsecs.
  rewrite Hsecs. split; [f_equal; lia|].
  intros Hlong.
  apply Z.lt_le_trans
    with (((p - t0) - AudioRecorderOps.pausedTotal pairs + 500 + 1 * 1000) / 1000).
  - rewrite Z.div_add by lia. lia.
  - apply Z.div_le_mono; lia.
Qed.

(** Pause at 5 s and Stop 3 s later, still paused: 8 s are reported for 5 s
    of capture. *)
Lemma C8_open_pause_is_counted_witness :
  ∃ res r',
    AudioRecorderOps.stop 8000 (Blob.mk 512 "audio/webm")
      (AudioRecorderOps.pause 5000
         (AudioRecorderOps.start 0 Sample.readyRecorder).2).2
    = (Resolved res, r') ∧
    duration res = 8 ∧
    ((5000 - 0) - AudioRecorderOps.pausedTotal [] + 500) / 1000 = 5 ∧
    5 < duration res.
Proof.
  destruct (C8_open_pause_is_counted Sample.readyRecorder
              {| state := StateInactive; mimeType := "audio/webm;codecs=opus" |}
              0 5000 8000 [] (Blob.mk 512 "audio/webm"))
    as (r1 & r2 & r3 & Hstart & Hpairs & _ & Hpause & _ & res & r' & Hstop & Hd & Hlong).
  - reflexivity.
  - reflexivity.
  - simpl in Hpairs. injection Hpairs as <-. rewrite Hstart. simpl.
    rewrite Hpause. simpl.
    exists res, r'. split; [exact Hstop|]. split; [exact Hd|].
    split; [reflexivity|]. apply Hlong. lia.
Defined.
